(** * Ants vs. Bees: a shallow embedding of the simulation engine

    The development follows [src/ants.ts] (the insect classes) and
    [src/game.ts] (places, colony, game).  Objects live in a store and are
    referred to by identifiers, so that the aliasing of the source (an ant
    known both to its place and to a caller, a bee known to a place and to
    an eater's stomach) is kept.  A method is a computation over the store
    that either returns or raises a JavaScript [TypeError].  Numbers are
    integers: the program starts from integer armor, damage, cost and food
    and only adds and subtracts them. *)

From Stdlib Require Import Ascii String ZArith.
From stdpp Require Import gmap strings list fin_maps pretty.

Local Open Scope Z_scope.

(** ** Object identifiers *)

Abbreviation AntId := nat (only parsing).
Abbreviation BeeId := nat (only parsing).
Abbreviation PlaceId := nat (only parsing).

(** A reference to an [Insect]; the constructor records what
    [instanceof Ant] and [instanceof Bee] answer. *)
Inductive InsectRef : Type :=
| AntRef (a : AntId)
| BeeRef (b : BeeId).

(** ** The insect classes ([src/ants.ts]) *)

(** [abstract class Insect]: [armor] and the back-reference [place]
    ([None] is [undefined]). *)
Record Insect : Type := mkInsect {
  armor : Z;
  place : option PlaceId
}.

(** [class Bee extends Insect]; [status] is a string or [undefined]. *)
Record Bee : Type := mkBee {
  bee_insect :> Insect;
  damage : Z;
  status : option string
}.

(** The concrete subclasses of [Ant].  An eater carries [turnsEating] and
    the identifier of its private [stomach] place. *)
Inductive AntVariant : Type :=
| GrowerAnt
| ThrowerAnt
| EaterAnt (turnsEating : Z) (stomach : PlaceId)
| ScubaAnt
| GuardAnt.

(** [abstract class Ant extends Insect]. *)
Record Ant : Type := mkAnt {
  ant_insect :> Insect;
  foodCost : Z;
  boost : option string;
  variant : AntVariant
}.

(** ** Places ([src/game.ts]) *)

Record Place : Type := mkPlace {
  name : string;
  water : bool;
  exit : option PlaceId;
  entrance : option PlaceId;
  ant : option AntId;
  guard : option AntId;
  bees : list BeeId
}.

#[global] Instance Insect_inhabited : Inhabited Insect :=
  populate (mkInsect 0 None).
#[global] Instance Bee_inhabited : Inhabited Bee :=
  populate (mkBee inhabitant 0 None).
#[global] Instance Ant_inhabited : Inhabited Ant :=
  populate (mkAnt inhabitant 0 None GrowerAnt).
#[global] Instance Place_inhabited : Inhabited Place :=
  populate (mkPlace EmptyString false None None None None []).

(** ** The program state

    The three stores hold the objects; the remaining fields are those of
    the single [AntColony] ([food], [places], [beeEntrances], [queenPlace],
    [boosts]) and of the single [AntGame] ([turn], [hive]).  An identifier
    that is absent from a store reads as the default object; a state built
    by the program never holds such an identifier. *)
Record World : Type := mkWorld {
  antStore : gmap AntId Ant;
  beeStore : gmap BeeId Bee;
  placeStore : gmap PlaceId Place;
  food : Z;
  places : list (list PlaceId);
  beeEntrances : list PlaceId;
  queenPlace : PlaceId;
  boosts : gmap string Z;
  hive : PlaceId;
  turn : Z
}.

Definition getAntObj (w : World) (a : AntId) : Ant := antStore w !!! a.
Definition getBeeObj (w : World) (b : BeeId) : Bee := beeStore w !!! b.
Definition getPlaceObj (w : World) (p : PlaceId) : Place := placeStore w !!! p.

Definition setAntObj (a : AntId) (o : Ant) (w : World) : World :=
  mkWorld (<[a := o]> (antStore w)) (beeStore w) (placeStore w) (food w)
          (places w) (beeEntrances w) (queenPlace w) (boosts w) (hive w)
          (turn w).

Definition setBeeObj (b : BeeId) (o : Bee) (w : World) : World :=
  mkWorld (antStore w) (<[b := o]> (beeStore w)) (placeStore w) (food w)
          (places w) (beeEntrances w) (queenPlace w) (boosts w) (hive w)
          (turn w).

Definition setPlaceObj (p : PlaceId) (o : Place) (w : World) : World :=
  mkWorld (antStore w) (beeStore w) (<[p := o]> (placeStore w)) (food w)
          (places w) (beeEntrances w) (queenPlace w) (boosts w) (hive w)
          (turn w).

Definition setFood (f : Z) (w : World) : World :=
  mkWorld (antStore w) (beeStore w) (placeStore w) f
          (places w) (beeEntrances w) (queenPlace w) (boosts w) (hive w)
          (turn w).

Definition setBoosts (bs : gmap string Z) (w : World) : World :=
  mkWorld (antStore w) (beeStore w) (placeStore w) (food w)
          (places w) (beeEntrances w) (queenPlace w) bs (hive w)
          (turn w).

Definition setPlaces (rows : list (list PlaceId)) (w : World) : World :=
  mkWorld (antStore w) (beeStore w) (placeStore w) (food w)
          rows (beeEntrances w) (queenPlace w) (boosts w) (hive w)
          (turn w).

Definition setBeeEntrances (l : list PlaceId) (w : World) : World :=
  mkWorld (antStore w) (beeStore w) (placeStore w) (food w)
          (places w) l (queenPlace w) (boosts w) (hive w)
          (turn w).

Definition setQueenPlace (q : PlaceId) (w : World) : World :=
  mkWorld (antStore w) (beeStore w) (placeStore w) (food w)
          (places w) (beeEntrances w) q (boosts w) (hive w)
          (turn w).

Definition setHive (h : PlaceId) (w : World) : World :=
  mkWorld (antStore w) (beeStore w) (placeStore w) (food w)
          (places w) (beeEntrances w) (queenPlace w) (boosts w) h
          (turn w).

(** ** Computations: state and [TypeError] *)

Inductive Res (A : Type) : Type :=
| Ok (a : A) (w : World)
| TypeError (w : World).
Arguments Ok {A} a w.
Arguments TypeError {A} w.

Definition M (A : Type) : Type := World -> Res A.

#[global] Instance M_ret : MRet M := fun A a w => Ok a w.
#[global] Instance M_bind : MBind M := fun A B f m w =>
  match m w with
  | Ok a w' => f a w'
  | TypeError w' => TypeError w'
  end.

Definition throw {A : Type} : M A := fun w => TypeError w.
Definition gets {A : Type} (f : World -> A) : M A := fun w => Ok (f w) w.
Definition modify (f : World -> World) : M unit := fun w => Ok tt (f w).

(** Calling a method on a reference that may be [undefined]. *)
Definition deref {A : Type} (o : option A) : M A :=
  match o with
  | Some x => mret x
  | None => throw
  end.

(** [try { body } catch(e) { handler }]: the handler runs in the state the
    body had reached when it raised. *)
Definition try_catch {A : Type} (body handler : M A) : M A := fun w =>
  match body w with
  | Ok a w' => Ok a w'
  | TypeError w' => handler w'
  end.

(** [new Place(..)], [new XAnt()], [new Bee(..)]: the object gets an
    identifier that its store does not use yet. *)
Definition newPlace (o : Place) : M PlaceId := fun w =>
  let p := fresh (dom (placeStore w)) in Ok p (setPlaceObj p o w).

Definition newAnt (o : Ant) : M AntId := fun w =>
  let a := fresh (dom (antStore w)) in Ok a (setAntObj a o w).

Definition newBee (o : Bee) : M BeeId := fun w =>
  let b := fresh (dom (beeStore w)) in Ok b (setBeeObj b o w).

(** ** Field access through references *)

Definition getInsect (w : World) (r : InsectRef) : Insect :=
  match r with
  | AntRef a => ant_insect (getAntObj w a)
  | BeeRef b => bee_insect (getBeeObj w b)
  end.

Definition setInsect (r : InsectRef) (i : Insect) (w : World) : World :=
  match r with
  | AntRef a =>
      let o := getAntObj w a in
      setAntObj a (mkAnt i (foodCost o) (boost o) (variant o)) w
  | BeeRef b =>
      let o := getBeeObj w b in
      setBeeObj b (mkBee i (damage o) (status o)) w
  end.

Definition getArmor (w : World) (r : InsectRef) : Z := armor (getInsect w r).
Definition getPlace (w : World) (r : InsectRef) : option PlaceId :=
  place (getInsect w r).

Definition setArmor (r : InsectRef) (v : Z) (w : World) : World :=
  setInsect r (mkInsect v (place (getInsect w r))) w.

(** [Insect.setPlace] *)
Definition setPlace (r : InsectRef) (p : option PlaceId) (w : World) : World :=
  setInsect r (mkInsect (armor (getInsect w r)) p) w.

(** [Bee.setStatus] *)
Definition setStatus (b : BeeId) (s : option string) (w : World) : World :=
  let o := getBeeObj w b in
  setBeeObj b (mkBee (bee_insect o) (damage o) s) w.

(** [Ant.setBoost] (the log line has no effect on the state), also used
    for the assignment [this.boost = undefined]. *)
Definition setBoost (a : AntId) (s : option string) (w : World) : World :=
  let o := getAntObj w a in
  setAntObj a (mkAnt (ant_insect o) (foodCost o) s (variant o)) w.

Definition setVariant (a : AntId) (v : AntVariant) (w : World) : World :=
  let o := getAntObj w a in
  setAntObj a (mkAnt (ant_insect o) (foodCost o) (boost o) v) w.

Definition setBees (p : PlaceId) (l : list BeeId) (w : World) : World :=
  let o := getPlaceObj w p in
  setPlaceObj p (mkPlace (name o) (water o) (exit o) (entrance o)
                         (ant o) (guard o) l) w.

Definition setAntSlot (p : PlaceId) (a : option AntId) (w : World) : World :=
  let o := getPlaceObj w p in
  setPlaceObj p (mkPlace (name o) (water o) (exit o) (entrance o)
                         a (guard o) (bees o)) w.

Definition setGuardSlot (p : PlaceId) (g : option AntId) (w : World) : World :=
  let o := getPlaceObj w p in
  setPlaceObj p (mkPlace (name o) (water o) (exit o) (entrance o)
                         (ant o) g (bees o)) w.

(** [Place.setEntrance] *)
Definition setEntrance (p : PlaceId) (e : option PlaceId) (w : World) : World :=
  let o := getPlaceObj w p in
  setPlaceObj p (mkPlace (name o) (water o) (exit o) e
                         (ant o) (guard o) (bees o)) w.

(** [ant instanceof GuardAnt] *)
Definition isGuardAnt (w : World) (a : AntId) : bool :=
  match variant (getAntObj w a) with
  | GuardAnt => true
  | _ => false
  end.

(** ** class Place *)

(** [Place.getAnt]: the guard if there is one, else the ant. *)
Definition Place_getAnt (w : World) (this : PlaceId) : option AntId :=
  match guard (getPlaceObj w this) with
  | Some g => Some g
  | None => ant (getPlaceObj w this)
  end.

(** [Place.getGuardedAnt] *)
Definition Place_getGuardedAnt (w : World) (this : PlaceId) : option AntId :=
  ant (getPlaceObj w this).

(** [Place.getBees] *)
Definition Place_getBees (w : World) (this : PlaceId) : list BeeId :=
  bees (getPlaceObj w this).

(** The loop of [Place.getClosestBee]: [p] is the loop variable of the
    source, [dist] the hop counter; [fuel] bounds the iterations. *)
Fixpoint getClosestBee_loop (w : World) (fuel : nat) (p : option PlaceId)
    (dist maxDistance minDistance : Z) : option BeeId :=
  match fuel with
  | O => None
  | S fuel' =>
      match p with
      | None => None
      | Some q =>
          if dist <=? maxDistance then
            if (minDistance <=? dist)
               && (0 <? Z.of_nat (length (Place_getBees w q)))
            then Place_getBees w q !! 0%nat
            else getClosestBee_loop w fuel' (entrance (getPlaceObj w q))
                                    (dist + 1) maxDistance minDistance
          else None
      end
  end.

(** [Place.getClosestBee(maxDistance, minDistance)].  [dist] runs through
    [0 .. maxDistance], so [maxDistance + 1] iterations are all the loop
    can make (see [getClosestBee_loop_fuel]). *)
Definition Place_getClosestBee (w : World) (this : PlaceId)
    (maxDistance minDistance : Z) : option BeeId :=
  getClosestBee_loop w (Z.to_nat (maxDistance + 1)) (Some this) 0
                     maxDistance minDistance.

(** [Place.addAnt] *)
Definition Place_addAnt (this : PlaceId) (a : AntId) : M bool := fun w =>
  if isGuardAnt w a then
    match guard (getPlaceObj w this) with
    | None =>
        Ok true (setPlace (AntRef a) (Some this) (setGuardSlot this (Some a) w))
    | Some _ => Ok false w
    end
  else
    match ant (getPlaceObj w this) with
    | None =>
        Ok true (setPlace (AntRef a) (Some this) (setAntSlot this (Some a) w))
    | Some _ => Ok false w
    end.

(** [Place.removeAnt]: the guard first, and only without a guard the ant.
    The removed ant keeps its [place] field. *)
Definition Place_removeAnt (this : PlaceId) : M (option AntId) := fun w =>
  match guard (getPlaceObj w this) with
  | Some g => Ok (Some g) (setGuardSlot this None w)
  | None => Ok (ant (getPlaceObj w this)) (setAntSlot this None w)
  end.

(** [Array.prototype.indexOf] *)
Fixpoint indexOf (b : BeeId) (l : list BeeId) : option nat :=
  match l with
  | [] => None
  | x :: l' => if decide (x = b) then Some O else S <$> indexOf b l'
  end.

(** [Place.addBee] *)
Definition Place_addBee (this : PlaceId) (b : BeeId) : M unit := fun w =>
  Ok tt (setPlace (BeeRef b) (Some this)
           (setBees this (Place_getBees w this ++ [b]) w)).

(** [Place.removeBee] *)
Definition Place_removeBee (this : PlaceId) (b : BeeId) : M unit := fun w =>
  match indexOf b (Place_getBees w this) with
  | Some index =>
      Ok tt (setPlace (BeeRef b) None
               (setBees this (delete index (Place_getBees w this)) w))
  | None => Ok tt w
  end.

(** [Place.exitBee]: [this.exit.addBee] raises when there is no exit, after
    the bee has left [this]. *)
Definition Place_exitBee (this : PlaceId) (b : BeeId) : M unit :=
  Place_removeBee this b ;;
  e ← gets (fun w => exit (getPlaceObj w this)) ;
  q ← deref e ;
  Place_addBee q b.

(** [Place.removeInsect]: for an ant the argument is not looked at. *)
Definition Place_removeInsect (this : PlaceId) (i : InsectRef) : M unit :=
  match i with
  | AntRef _ => Place_removeAnt this ;; mret tt
  | BeeRef b => Place_removeBee this b
  end.

(** ** class Insect *)

(** [Insect.reduceArmor].  [this.place.removeInsect] raises when the
    back-reference is [undefined]; the armor has been written by then. *)
Definition Insect_reduceArmor (this : InsectRef) (amount : Z) : M bool :=
  modify (fun w => setArmor this (getArmor w this - amount) w) ;;
  a ← gets (fun w => getArmor w this) ;
  if a <=? 0 then
    p ← gets (fun w => getPlace w this) ;
    q ← deref p ;
    Place_removeInsect q this ;;
    mret true
  else mret false.

(** ** class EaterAnt *)

Definition turnsEating_of (w : World) (a : AntId) : Z :=
  match variant (getAntObj w a) with
  | EaterAnt t _ => t
  | _ => 0
  end.

Definition stomach_of (w : World) (a : AntId) : PlaceId :=
  match variant (getAntObj w a) with
  | EaterAnt _ s => s
  | _ => O
  end.

Definition setTurnsEating (a : AntId) (t : Z) (w : World) : World :=
  match variant (getAntObj w a) with
  | EaterAnt _ s => setVariant a (EaterAnt t s) w
  | _ => w
  end.

(** [EaterAnt.isFull] *)
Definition EaterAnt_isFull (w : World) (this : AntId) : bool :=
  0 <? Z.of_nat (length (Place_getBees w (stomach_of w this))).

(** The block that both branches of [EaterAnt.reduceArmor] share:
    [eaten = stomach.getBees()[0]; stomach.removeBee(eaten);
    this.place.addBee(eaten)].  With an empty stomach [eaten] is
    [undefined]: [removeBee] finds nothing and [addBee] raises (on
    [this.place] or on [bee.setPlace]); the [undefined] it may have pushed
    before raising is not recorded in [bees]. *)
Definition EaterAnt_coughUp (this : AntId) : M unit :=
  st ← gets (fun w => stomach_of w this) ;
  eaten ← gets (fun w => Place_getBees w st !! 0%nat) ;
  match eaten with
  | Some b =>
      Place_removeBee st b ;;
      p ← gets (fun w => getPlace w (AntRef this)) ;
      q ← deref p ;
      Place_addBee q b
  | None => throw
  end.

(** [EaterAnt.act] *)
Definition EaterAnt_act (this : AntId) : M unit :=
  t ← gets (fun w => turnsEating_of w this) ;
  if t =? 0 then
    p ← gets (fun w => getPlace w (AntRef this)) ;
    q ← deref p ;
    target ← gets (fun w => Place_getClosestBee w q 0 0) ;
    match target with
    | Some b =>
        Place_removeBee q b ;;
        st ← gets (fun w => stomach_of w this) ;
        Place_addBee st b ;;
        modify (setTurnsEating this 1)
    | None => mret tt
    end
  else if 3 <? t then
    st ← gets (fun w => stomach_of w this) ;
    eaten ← gets (fun w => Place_getBees w st !! 0%nat) ;
    match eaten with
    | Some b => Place_removeBee st b
    | None => mret tt
    end ;;
    modify (setTurnsEating this 0)
  else
    modify (setTurnsEating this (t + 1)).

(** [EaterAnt.reduceArmor]: the override subtracts [amount] itself and, in
    the lethal branch, delegates to [Insect.reduceArmor], which subtracts
    it again. *)
Definition EaterAnt_reduceArmor (this : AntId) (amount : Z) : M bool :=
  modify (fun w => setArmor (AntRef this)
                            (getArmor w (AntRef this) - amount) w) ;;
  a ← gets (fun w => getArmor w (AntRef this)) ;
  t ← gets (fun w => turnsEating_of w this) ;
  if 0 <? a then
    (if t =? 1 then
       EaterAnt_coughUp this ;;
       modify (setTurnsEating this 3)
     else mret tt) ;;
    mret false
  else if a <=? 0 then
    (if (0 <? t) && (t <=? 2) then EaterAnt_coughUp this else mret tt) ;;
    Insect_reduceArmor (AntRef this) amount
  else mret false.

(** Dynamic dispatch of [ant.reduceArmor]. *)
Definition Ant_reduceArmor (this : AntId) (amount : Z) : M bool := fun w =>
  match variant (getAntObj w this) with
  | EaterAnt _ _ => EaterAnt_reduceArmor this amount w
  | _ => Insect_reduceArmor (AntRef this) amount w
  end.

(** Dynamic dispatch of [insect.reduceArmor]: a bee runs the routine of
    [Insect]. *)
Definition reduceArmor (this : InsectRef) (amount : Z) : M bool :=
  match this with
  | AntRef a => Ant_reduceArmor a amount
  | BeeRef _ => Insect_reduceArmor this amount
  end.

(** ** class Bee *)

(** [new Bee(armor, damage, place)] *)
Definition new_Bee (armor0 damage0 : Z) (p : option PlaceId) : M BeeId :=
  newBee (mkBee (mkInsect armor0 p) damage0 None).

(** [Bee.sting] *)
Definition Bee_sting (this : BeeId) (a : AntId) : M bool :=
  d ← gets (fun w => damage (getBeeObj w this)) ;
  Ant_reduceArmor a d.

(** [Bee.isBlocked] *)
Definition Bee_isBlocked (this : BeeId) : M bool :=
  p ← gets (fun w => getPlace w (BeeRef this)) ;
  q ← deref p ;
  gets (fun w => bool_decide (Place_getAnt w q ≠ None)).

(** [Bee.act] *)
Definition Bee_act (this : BeeId) : M unit :=
  Bee_isBlocked this ≫= fun blocked : bool =>
  (if blocked then
     s ← gets (fun w => status (getBeeObj w this)) ;
     if decide (s ≠ Some "cold") then
       p ← gets (fun w => getPlace w (BeeRef this)) ;
       q ← deref p ;
       a ← gets (fun w => Place_getAnt w q) ;
       target ← deref a ;
       Bee_sting this target ;;
       mret tt
     else mret tt
   else
     a ← gets (fun w => getArmor w (BeeRef this)) ;
     if 0 <? a then
       s ← gets (fun w => status (getBeeObj w this)) ;
       if decide (s ≠ Some "stuck") then
         p ← gets (fun w => getPlace w (BeeRef this)) ;
         q ← deref p ;
         Place_exitBee q this
       else mret tt
     else mret tt) ;;
  modify (setStatus this None).

(** ** class ThrowerAnt (and ScubaAnt, whose [act] is the same code) *)

(** The loop [while(target){ target.reduceArmor(10); target =
    this.place.getClosestBee(0); }] of the bug spray.  The result is
    [false] when [fuel] iterations did not empty the place. *)
Fixpoint bugSpray_loop (fuel : nat) (this : AntId) (target : option BeeId)
    : M bool :=
  match target with
  | None => mret true
  | Some b =>
      match fuel with
      | O => mret false
      | S fuel' =>
          Insect_reduceArmor (BeeRef b) 10 ;;
          p ← gets (fun w => getPlace w (AntRef this)) ;
          q ← deref p ;
          next ← gets (fun w => Place_getClosestBee w q 0 0) ;
          bugSpray_loop fuel' this next
      end
  end.

(** [ThrowerAnt.act]; the private [damage] is [1].  Nothing between the
    tests of [this.boost] writes it, so it is read once.  The result is
    [false] only when the spray loop ran out of [fuel]. *)
Definition ThrowerAnt_act (fuel : nat) (this : AntId) : M bool :=
  bst ← gets (fun w => boost (getAntObj w this)) ;
  p ← gets (fun w => getPlace w (AntRef this)) ;
  q ← deref p ;
  if decide (bst ≠ Some "BugSpray") then
    target ← gets (fun w => if decide (bst = Some "FlyingLeaf")
                            then Place_getClosestBee w q 5 0
                            else Place_getClosestBee w q 3 0) ;
    match target with
    | Some b =>
        Insect_reduceArmor (BeeRef b) 1 ;;
        (if decide (bst = Some "StickyLeaf")
         then modify (setStatus b (Some "stuck")) else mret tt) ;;
        (if decide (bst = Some "IcyLeaf")
         then modify (setStatus b (Some "cold")) else mret tt) ;;
        modify (setBoost this None) ;;
        mret true
    | None => mret true
    end
  else
    first ← gets (fun w => Place_getClosestBee w q 0 0) ;
    bugSpray_loop fuel this first ≫= fun finished : bool =>
    if finished
    then Insect_reduceArmor (AntRef this) 10 ;; mret true
    else mret false.

(** ** JavaScript strings and property keys *)

(** [String.prototype.split] with a one-character separator. *)
Fixpoint split (sep : ascii) (s : string) : list string :=
  match s with
  | EmptyString => [EmptyString]
  | String c s' =>
      if Ascii.eqb c sep then EmptyString :: split sep s'
      else match split sep s' with
           | x :: xs => String c x :: xs
           | [] => [String c EmptyString]
           end
  end.

(** [String.prototype.toLowerCase] on the letters [A]-[Z].  The bytes of a
    character outside ASCII are left alone; the words of the [switch] in
    [AntGame.deployAnt] are ASCII, and no other character lowers to one of
    their letters. *)
Definition lower_ascii (c : ascii) : ascii :=
  let n := nat_of_ascii c in
  if (65 <=? n)%nat && (n <=? 90)%nat then ascii_of_nat (n + 32) else c.

Fixpoint toLowerCase (s : string) : string :=
  match s with
  | EmptyString => EmptyString
  | String c s' => String (lower_ascii c) (toLowerCase s')
  end.

Definition is_digit (c : ascii) : bool :=
  let n := nat_of_ascii c in (48 <=? n)%nat && (n <=? 57)%nat.

Fixpoint digits_value (s : string) (acc : N) : option N :=
  match s with
  | EmptyString => Some acc
  | String c s' =>
      if is_digit c
      then digits_value s' (10 * acc + (N_of_ascii c - 48))%N
      else None
  end.

(** A property key is an array index when it is the decimal numeral of a
    natural number, written without sign, blanks or leading zeros. *)
Definition array_index (key : string) : option nat :=
  match key with
  | EmptyString => None
  | String "0" EmptyString => Some O
  | String "0" _ => None
  | _ => N.to_nat <$> digits_value key 0%N
  end.

(** What reading [xs[key]] gives: [undefined], an element, or a member that
    every array has (its [length], a method of its prototype chain). *)
Inductive ArrayGet (A : Type) : Type :=
| Undefined
| Element (x : A)
| Member.
Arguments Undefined {A}.
Arguments Element {A} x.
Arguments Member {A}.

Section Colony.

(** The names, other than indices, that every array answers to
    ([length] and the members of [Array.prototype] and
    [Object.prototype]), and the names every object inherits from
    [Object.prototype].  They belong to the JavaScript runtime; the
    development holds for any such tables. *)
Variable array_member : string -> bool.
Variable object_member : string -> bool.

Definition array_get {A : Type} (xs : list A) (key : string) : ArrayGet A :=
  match array_index key with
  | Some i =>
      match xs !! i with
      | Some x => Element x
      | None => Undefined
      end
  | None => if array_member key then Member else Undefined
  end.

(** ** class AntColony *)

(** The inner loop of the constructor, over the steps still to build:
    [curr] is the place built last (the queen's place at first) and [row]
    the part of [this.places[tunnel]] filled so far, which the assignment
    at index [step] extends by one. *)
Fixpoint newTunnel (moatFrequency tunnel : nat) (steps : list nat)
    (curr : PlaceId) (row : list PlaceId) : M (PlaceId * list PlaceId) :=
  match steps with
  | [] => mret (curr, row)
  | step :: steps' =>
      let typeName :=
        if negb (moatFrequency =? 0)%nat
           && ((step + 1) mod moatFrequency =? 0)%nat
        then "water" else "tunnel" in
      next ← newPlace (mkPlace (typeName +:+ "[" +:+ pretty tunnel +:+ ","
                                 +:+ pretty step +:+ "]")
                               (String.eqb typeName "water")
                               (Some curr) None None None []) ;
      modify (setEntrance curr (Some next)) ;;
      newTunnel moatFrequency tunnel steps' next (row ++ [next])
  end.

(** The outer loop of the constructor, over the tunnels still to build. *)
Fixpoint newTunnels (moatFrequency tunnelLength : nat) (tunnels : list nat)
    : M unit :=
  match tunnels with
  | [] => mret tt
  | tunnel :: tunnels' =>
      q ← gets queenPlace ;
      built ← newTunnel moatFrequency tunnel (seq 0 tunnelLength) q [] ;
      modify (fun w => setBeeEntrances (beeEntrances w ++ [built.1])
                         (setPlaces (places w ++ [built.2]) w)) ;;
      newTunnels moatFrequency tunnelLength tunnels'
  end.

(** [new AntColony(startingFood, numTunnels, tunnelLength, moatFrequency)],
    with the field initialisers of the class. *)
Definition new_AntColony (startingFood : Z)
    (numTunnels tunnelLength moatFrequency : nat) : M unit :=
  q ← newPlace (mkPlace "Ant Queen" false None None None None []) ;
  modify (fun w =>
    setFood startingFood
      (setBoosts (<["FlyingLeaf" := 1]> (<["StickyLeaf" := 1]>
                    (<["IcyLeaf" := 1]> (<["BugSpray" := 0]> ∅))))
         (setQueenPlace q (setBeeEntrances [] (setPlaces [] w))))) ;;
  newTunnels moatFrequency tunnelLength (seq 0 numTunnels).

(** [new Hive(beeArmor, beeDamage)], as far as it is a place. *)
Definition new_Hive : M unit :=
  h ← newPlace (mkPlace "Hive" false None None None None []) ;
  modify (setHive h).

(** [AntColony.queenHasBees] *)
Definition AntColony_queenHasBees (w : World) : bool :=
  0 <? Z.of_nat (length (Place_getBees w (queenPlace w))).

(** [AntColony.increaseFood] *)
Definition AntColony_increaseFood (amount : Z) : M unit :=
  modify (fun w => setFood (food w + amount) w).

(** [AntColony.addBoost] *)
Definition AntColony_addBoost (b : string) : M unit :=
  modify (fun w =>
    let n := default 0 (boosts w !! b) in
    setBoosts (<[b := n + 1]> (boosts w)) w).

(** [AntColony.deployAnt].  The second argument is whatever
    [places[..][..]] produced: [Some p] for a [Place], [None] for a value
    that is not one ([undefined], a number, a function), on which the call
    of [addAnt] raises. *)
Definition AntColony_deployAnt (a : AntId) (target : option PlaceId)
    : M (option string) :=
  f ← gets food ;
  c ← gets (fun w => foodCost (getAntObj w a)) ;
  if c <=? f then
    p ← deref target ;
    Place_addAnt p a ≫= fun success : bool =>
    if success then
      modify (fun w => setFood (food w - foodCost (getAntObj w a)) w) ;;
      mret None
    else mret (Some "tunnel already occupied")
  else mret (Some "not enough food").

(** [AntColony.removeAnt] *)
Definition AntColony_removeAnt (p : PlaceId) : M unit :=
  Place_removeAnt p ;; mret tt.

(** The test [this.boosts[boost] === undefined || this.boosts[boost] < 1].
    A name that is not a key of [boosts] but is inherited from
    [Object.prototype] reads as a function or an object, which is neither
    [undefined] nor below [1]. *)
Definition boost_missing (w : World) (b : string) : bool :=
  match boosts w !! b with
  | Some n => n <? 1
  | None => negb (object_member b)
  end.

(** [AntColony.applyBoost] *)
Definition AntColony_applyBoost (b : string) (target : option PlaceId)
    : M (option string) :=
  gets (fun w => boost_missing w b) ≫= fun missing : bool =>
  if missing then mret (Some "no such boost")
  else
    p ← deref target ;
    a ← gets (fun w => Place_getAnt w p) ;
    match a with
    | None => mret (Some "no Ant at location")
    | Some x => modify (setBoost x (Some b)) ;; mret None
    end.

(** [AntColony.getAllBees] *)
Definition AntColony_getAllBees (w : World) : list BeeId :=
  flat_map (fun row => flat_map (Place_getBees w) row) (places w).

(** [AntColony.getAllAnts] *)
Definition AntColony_getAllAnts (w : World) : list AntId :=
  flat_map (fun row =>
              flat_map (fun p => match Place_getAnt w p with
                                 | Some a => [a]
                                 | None => []
                                 end) row) (places w).

(** ** class AntGame *)

(** [AntGame.gameIsWon]; [None] is [undefined]. *)
Definition AntGame_gameIsWon (w : World) : option bool :=
  if AntColony_queenHasBees w then Some false
  else if Z.of_nat (length (AntColony_getAllBees w))
          + Z.of_nat (length (Place_getBees w (hive w))) =? 0
       then Some true
       else None.

(** The constructors of the ant classes, [super(armor, foodCost)]; an
    eater comes with its own [new Place('stomach')]. *)
Definition new_GrowerAnt : M AntId :=
  newAnt (mkAnt (mkInsect 1 None) 1 None GrowerAnt).
Definition new_ThrowerAnt : M AntId :=
  newAnt (mkAnt (mkInsect 1 None) 4 None ThrowerAnt).
Definition new_EaterAnt : M AntId :=
  st ← newPlace (mkPlace "stomach" false None None None None []) ;
  newAnt (mkAnt (mkInsect 2 None) 4 None (EaterAnt 0 st)).
Definition new_ScubaAnt : M AntId :=
  newAnt (mkAnt (mkInsect 1 None) 5 None ScubaAnt).
Definition new_GuardAnt : M AntId :=
  newAnt (mkAnt (mkInsect 2 None) 4 None GuardAnt).

(** The [switch] of [AntGame.deployAnt]; [None] is the [default] case. *)
Definition antConstructor (antType : string) : option (M AntId) :=
  let t := toLowerCase antType in
  if String.eqb t "grower" then Some new_GrowerAnt
  else if String.eqb t "thrower" then Some new_ThrowerAnt
  else if String.eqb t "eater" then Some new_EaterAnt
  else if String.eqb t "scuba" then Some new_ScubaAnt
  else if String.eqb t "guard" then Some new_GuardAnt
  else None.

(** [coords = placeCoordinates.split(','); places[coords[0]][coords[1]]].
    A missing [coords[1]] is the key ["undefined"].  Indexing [undefined]
    raises; indexing a member of the outer array (a number, a function)
    does not, and gives a value that is not a [Place]. *)
Definition lookupPlace (placeCoordinates : string) : M (option PlaceId) :=
  let coords := split "," placeCoordinates in
  let k0 := default "undefined" (coords !! 0%nat) in
  let k1 := default "undefined" (coords !! 1%nat) in
  rows ← gets places ;
  match array_get rows k0 with
  | Undefined => throw
  | Member => mret None
  | Element row =>
      match array_get row k1 with
      | Element p => mret (Some p)
      | _ => mret None
      end
  end.

(** [AntGame.deployAnt] *)
Definition AntGame_deployAnt (antType placeCoordinates : string)
    : M (option string) :=
  match antConstructor antType with
  | None => mret (Some "unknown ant type")
  | Some construct =>
      a ← construct ;
      try_catch
        (target ← lookupPlace placeCoordinates ;
         AntColony_deployAnt a target)
        (mret (Some "illegal location"))
  end.

(** [AntGame.removeAnt] *)
Definition AntGame_removeAnt (placeCoordinates : string)
    : M (option string) :=
  try_catch
    (target ← lookupPlace placeCoordinates ;
     p ← deref target ;
     Place_removeAnt p ;;
     mret None)
    (mret (Some "illegal location")).

(** [AntGame.boostAnt] *)
Definition AntGame_boostAnt (boostType placeCoordinates : string)
    : M (option string) :=
  try_catch
    (target ← lookupPlace placeCoordinates ;
     AntColony_applyBoost boostType target)
    (mret (Some "illegal location")).

End Colony.

(** ** The rest of class Place *)

(** [Place.isWater] and [Place.getExit] *)
Definition Place_isWater (w : World) (this : PlaceId) : bool :=
  water (getPlaceObj w this).

Definition Place_getExit (w : World) (this : PlaceId) : option PlaceId :=
  exit (getPlaceObj w this).

(** [Place.removeAllBees]: every resident loses its back-reference, then
    the array is replaced by an empty one. *)
Definition Place_removeAllBees (this : PlaceId) : M unit :=
  modify (fun w =>
    setBees this []
      (foldl (fun w' b => setPlace (BeeRef b) None w') w
             (Place_getBees w this))).

(** [ant instanceof ScubaAnt], for the content of a slot; [undefined] is
    an instance of nothing. *)
Definition isScubaAnt (w : World) (a : option AntId) : bool :=
  match a with
  | Some x =>
      match variant (getAntObj w x) with
      | ScubaAnt => true
      | _ => false
      end
  | None => false
  end.

(** [Place.act]: in water the guard goes, and then whatever [removeAnt]
    finds unless the ant is a scuba ant. *)
Definition Place_act (this : PlaceId) : M unit :=
  wet ← gets (fun w => water (getPlaceObj w this)) ;
  if (wet : bool) then
    g ← gets (fun w => guard (getPlaceObj w this)) ;
    match g with
    | Some _ => Place_removeAnt this ;; mret tt
    | None => mret tt
    end ;;
    a ← gets (fun w => ant (getPlaceObj w this)) ;
    gets (fun w => isScubaAnt w a) ≫= fun scuba : bool =>
    if scuba then mret tt else Place_removeAnt this ;; mret tt
  else mret tt.

(** ** class GuardAnt *)

(** [GuardAnt.getGuarded] *)
Definition GuardAnt_getGuarded (this : AntId) : M (option AntId) :=
  p ← gets (fun w => getPlace w (AntRef this)) ;
  q ← deref p ;
  gets (fun w => Place_getGuardedAnt w q).

(** [GuardAnt.act] *)
Definition GuardAnt_act (this : AntId) : M unit := mret tt.

(** ** class Hive

    The hive is the place [hive w]; its own fields are kept in a record
    that the methods take and return. *)
Record Hive : Type := mkHive {
  beeArmor : Z;
  beeDamage : Z;
  waves : gmap Z (list BeeId)
}.

(** The loop of [Hive.addWave]: [numBees] times [new Bee(..., this)],
    [this.addBee(bee)], [wave.push(bee)]. *)
Fixpoint addWave_loop (h : Hive) (numBees : nat) (wave : list BeeId)
    : M (list BeeId) :=
  match numBees with
  | O => mret wave
  | S n =>
      this ← gets hive ;
      b ← new_Bee (beeArmor h) (beeDamage h) (Some this) ;
      Place_addBee this b ;;
      addWave_loop h n (wave ++ [b])
  end.

(** [Hive.addWave(attackTurn, numBees)]; the new wave replaces whatever
    [waves[attackTurn]] held. *)
Definition Hive_addWave (h : Hive) (attackTurn : Z) (numBees : nat)
    : M Hive :=
  wave ← addWave_loop h numBees [] ;
  mret (mkHive (beeArmor h) (beeDamage h) (<[attackTurn := wave]> (waves h))).

(** The [forEach] of [Hive.invade].  [picks] are the values of
    [Math.floor(Math.random()*entrances.length)], one for each bee; a
    pick that indexes no entrance (there is none when the colony has no
    entrance) makes [entrances[..].addBee] raise. *)
Fixpoint invade_loop (wave : list BeeId) (picks : list nat) : M unit :=
  match wave with
  | [] => mret tt
  | b :: wave' =>
      this ← gets hive ;
      Place_removeBee this b ;;
      entrances ← gets beeEntrances ;
      e ← deref (entrances !! default O (head picks)) ;
      Place_addBee e b ;;
      invade_loop wave' (tail picks)
  end.

(** [Hive.invade(colony, currentTurn)] *)
Definition Hive_invade (h : Hive) (currentTurn : Z) (picks : list nat)
    : M (list BeeId) :=
  match waves h !! currentTurn with
  | Some wave => invade_loop wave picks ;; mret wave
  | None => mret []
  end.

(** ** The phases of [AntColony] that need no random number *)

(** [array.forEach(f)] over a snapshot. *)
Fixpoint forEach {A : Type} (f : A -> M unit) (l : list A) : M unit :=
  match l with
  | [] => mret tt
  | x :: l' => f x ;; forEach f l'
  end.

(** [AntColony.beesAct]: the bees are collected first, then each acts. *)
Definition AntColony_beesAct : M unit :=
  snapshot ← gets AntColony_getAllBees ;
  forEach Bee_act snapshot.

(** [AntColony.placesAct] *)
Definition AntColony_placesAct : M unit :=
  rows ← gets places ;
  forEach (fun row => forEach Place_act row) rows.

(** * Definitions used by the statements *)

(** The result and the final state of a computation. *)
Definition result_of {A : Type} (r : Res A) : option A :=
  match r with
  | Ok a _ => Some a
  | TypeError _ => None
  end.

Definition state_of {A : Type} (r : Res A) : World :=
  match r with
  | Ok _ w => w
  | TypeError w => w
  end.

(** The place reached from [p] after [d] hops along the forward link
    ([entrance]); hop [0] is [p] itself. *)
Fixpoint hop (w : World) (d : nat) (p : PlaceId) : option PlaceId :=
  match d with
  | O => Some p
  | S d' =>
      match entrance (getPlaceObj w p) with
      | Some q => hop w d' q
      | None => None
      end
  end.

(** The attackers at hop distance [d] from [p], in insertion order. *)
Definition attackers_at (w : World) (p : PlaceId) (d : nat) : list BeeId :=
  match hop w d p with
  | Some q => Place_getBees w q
  | None => []
  end.

(** The attackers at a distance within [[minHops, maxHops]], ordered by
    hop distance ascending and by insertion order within a cell. *)
Definition attackers_in_range (w : World) (p : PlaceId)
    (minHops maxHops : Z) : list BeeId :=
  flat_map (attackers_at w p)
           (filter (fun d => minHops <= Z.of_nat d)
                   (seq 0 (Z.to_nat (maxHops + 1)))).

(** The attackers the loop of [getClosestBee] can still see when it stands
    at [q] with the hop counter at [k] and [n] iterations to go. *)
Definition visible_from (w : World) (minDistance : Z) (k n : nat)
    (q : PlaceId) : list BeeId :=
  flat_map (fun d => if decide (minDistance <= Z.of_nat (k + d))
                     then attackers_at w q d else [])
           (seq 0 n).

(** The slot [Place.addAnt] would use for [a] is taken. *)
Definition slot_taken (w : World) (p : PlaceId) (a : AntId) : Prop :=
  if isGuardAnt w a
  then guard (getPlaceObj w p) <> None
  else ant (getPlaceObj w p) <> None.

#[global] Instance slot_taken_dec (w : World) (p : PlaceId) (a : AntId) :
  Decision (slot_taken w p a).
Proof. unfold slot_taken. destruct (isGuardAnt w a); apply _. Defined.

(** No attacker in any cell of the grid. *)
Definition grid_clear (w : World) : Prop :=
  Forall (Forall (fun p => Place_getBees w p = [])) (places w).

(** The first two fields of a coordinate string, read as the decimal
    numerals of a lane and a step of the grid; further fields are not
    looked at. *)
Definition coordinate_cell (w : World) (s : string) : option PlaceId :=
  match split "," s with
  | lane :: step :: _ =>
      i ← array_index lane ;
      j ← array_index step ;
      row ← places w !! i ;
      row !! j
  | _ => None
  end.

(** The food cost of the variant a type name selects, as set by the
    constructors; [None] for a name that selects no variant. *)
Definition foodCost_of_type (antType : string) : option Z :=
  let t := toLowerCase antType in
  if String.eqb t "grower" then Some 1
  else if String.eqb t "thrower" then Some 4
  else if String.eqb t "eater" then Some 4
  else if String.eqb t "scuba" then Some 5
  else if String.eqb t "guard" then Some 4
  else None.

(** The lane field of a coordinate string, as a property key. *)
Definition lane_key (s : string) : string :=
  default "undefined" (split "," s !! 0%nat).

(** Successive action-cycles of an eater.  Between two cycles the rest of
    the game may change the state in any way that leaves the eater's own
    fields and the content of its stomach alone; a call of [reduceArmor]
    on the eater is not such a change. *)
Definition eater_kept (e : AntId) (w w' : World) : Prop :=
  getAntObj w' e = getAntObj w e
  /\ Place_getBees w' (stomach_of w e) = Place_getBees w (stomach_of w e).

Inductive cycles (e : AntId) : nat -> World -> World -> Prop :=
| cycles_O (w : World) : cycles e O w w
| cycles_S (n : nat) (w w1 w2 w3 : World) :
    eater_kept e w w1 ->
    EaterAnt_act e w1 = Ok tt w2 ->
    cycles e n w2 w3 ->
    cycles e (S n) w w3.

(** ** A board to run the code on

    The state before any object exists, and the game
    [new AntGame(new AntColony(5, 1, 3), new Hive(..))]: one lane of three
    tunnels (places 1, 2, 3) between the queen's place (0) and the hive
    (4), five food, the starting boosts. *)
Definition no_objects : World := mkWorld ∅ ∅ ∅ 0 [] [] O ∅ O 0.

Definition board : World :=
  state_of ((new_AntColony 5 1 3 0 ;; new_Hive) no_objects).

(** The board with one more bee, of the given armor and damage, added to
    place [p]: [p.addBee(new Bee(armor, damage))]. *)
Definition with_bee (armor0 damage0 : Z) (p : PlaceId) (w : World) : World :=
  state_of ((b ← new_Bee armor0 damage0 None ; Place_addBee p b) w).

(** A part of the runtime's tables of inherited member names, to run the
    commands with. *)
Definition some_array_members (s : string) : bool :=
  String.eqb s "length" || String.eqb s "push".
Definition some_object_members (s : string) : bool :=
  String.eqb s "toString" || String.eqb s "constructor".

(** The player's commands, run one after the other. *)
Inductive Command : Type :=
| Deploy (antType coordinate : string)
| Remove (coordinate : string)
| Boost (boostType coordinate : string).

Definition run_command (w : World) (c : Command) : World :=
  match c with
  | Deploy t s => state_of (AntGame_deployAnt some_array_members t s w)
  | Remove s => state_of (AntGame_removeAnt some_array_members s w)
  | Boost b s =>
      state_of (AntGame_boostAnt some_array_members some_object_members b s w)
  end.

Definition play (cmds : list Command) (w : World) : World :=
  foldl run_command w cmds.

(** A thrower (ant 0) deployed at the entrance of the lane. *)
Definition thrower_board : World := play [Deploy "thrower" "0,2"] board.

(** A thrower (ant 0) that was given the bug spray a grower found and
    then a guard (ant 1), both at the entrance of the lane. *)
Definition guarded_sprayer : World :=
  play [Deploy "thrower" "0,2"; Boost "BugSpray" "0,2"; Deploy "guard" "0,2"]
       (state_of (AntColony_addBoost "BugSpray" (setFood 9 board))).

(** An eater (ant 0, stomach in place 5) at the entrance of the lane with
    a bee (bee 0, armor 3, damage 1) in its cell, before and after the
    eater's first action. *)
Definition eater_meets_bee : World :=
  with_bee 3 1 3 (play [Deploy "eater" "0,2"] board).

Definition eater_holds_bee : World :=
  state_of (EaterAnt_act 0 eater_meets_bee).

(** A bee (bee 0) that arrives at the entrance with no armor left, and a
    bee whose only point of armor was taken by a hit. *)
Definition spent_bee : World := with_bee 0 1 3 board.

Definition expired_bee : World :=
  state_of (Insect_reduceArmor (BeeRef 0) 1 (with_bee 1 1 3 board)).

(** ** Definitions used by the further statements *)

(** Residence: a bee that a place lists has that place as its
    back-reference, and no place lists a bee twice. *)
Definition resident_inv (w : World) : Prop :=
  (forall (p : PlaceId) (b : BeeId),
      b ∈ Place_getBees w p -> getPlace w (BeeRef b) = Some p)
  /\ (forall p : PlaceId, NoDup (Place_getBees w p)).

(** A place is free of the hazard: if it is water, no guard stands in it
    and its ant slot is empty or holds a scuba ant. *)
Definition hazard_free (w : World) (p : PlaceId) : Prop :=
  water (getPlaceObj w p) = true ->
  guard (getPlaceObj w p) = None
  /\ (ant (getPlaceObj w p) = None
      \/ isScubaAnt w (ant (getPlaceObj w p)) = true).

(** The same, as a test that runs on a given state. *)
Definition resident_check (w : World) : bool :=
  bool_decide
    (map_Forall
       (fun (p : PlaceId) (o : Place) =>
          NoDup (bees o)
          /\ Forall (fun b => getPlace w (BeeRef b) = Some p) (bees o))
       (placeStore w)).

(** Two states that list the same bees in every place and give every bee
    the same back-reference. *)
Definition same_residence (w w' : World) : Prop :=
  (forall p : PlaceId, Place_getBees w' p = Place_getBees w p)
  /\ (forall b : BeeId, getPlace w' (BeeRef b) = getPlace w (BeeRef b)).

(** Two states in which every bee has the same status. *)
Definition same_status (w w' : World) : Prop :=
  forall b : BeeId, status (getBeeObj w' b) = status (getBeeObj w b).

(** A thrower (ant 0) at the entrance of the lane with a bee (bee 0,
    armor 3) in its cell. *)
Definition thrower_meets_bee : World := with_bee 3 1 3 thrower_board.

(** The eater of [eater_holds_bee] after three more turns: the counter is
    at 4 and the bee still in the stomach. *)
Definition eater_digested_bee : World :=
  state_of (EaterAnt_act 0
    (state_of (EaterAnt_act 0 (state_of (EaterAnt_act 0 eater_holds_bee))))).

(** The test of the constructor for a water cell. *)
Definition is_moat (moatFrequency step : nat) : bool :=
  negb (moatFrequency =? 0)%nat && ((step + 1) mod moatFrequency =? 0)%nat.

(** A cell of the grid as the constructor leaves it, given its two
    links. *)
Definition built_cell (moatFrequency tunnel step : nat)
    (exit0 entrance0 : option PlaceId) : Place :=
  mkPlace ((if is_moat moatFrequency step then "water" else "tunnel")
           +:+ "[" +:+ pretty tunnel +:+ "," +:+ pretty step +:+ "]")
          (is_moat moatFrequency step) exit0 entrance0 None None [].

(** A place with another forward link, and a state with another store of
    places. *)
Definition with_entrance (o : Place) (e : option PlaceId) : Place :=
  mkPlace (name o) (water o) (exit o) e (ant o) (guard o) (bees o).

Definition with_placeStore (m : gmap nat Place) (w : World) : World :=
  mkWorld (antStore w) (beeStore w) m (food w) (places w) (beeEntrances w)
          (queenPlace w) (boosts w) (hive w) (turn w).

(** A bee at the entrance of the lane, two hops from the first cell. *)
Definition bee_at_entrance : World := with_bee 3 1 3 board.

(** The board after [new ThrowerAnt()]: the ant (ant 0) exists and stands
    nowhere yet. *)
Definition thrower_in_hand : World := state_of (new_ThrowerAnt board).

(** A hive whose bees have armor 3 and damage 1, after
    [addWave(2, 2)] on the board: the record of the hive and the state. *)
Definition hive_empty : Hive := mkHive 3 1 ∅.

Definition hive_wave : Hive :=
  default hive_empty (result_of (Hive_addWave hive_empty 2 2 board)).

Definition board_wave : World :=
  state_of (Hive_addWave hive_empty 2 2 board).

(** The coordinate string of the cell at lane [i], step [j], as the
    player types it and as the constructor writes it into the name of the
    cell. *)
Definition coordinate (i j : nat) : string :=
  pretty i +:+ "," +:+ pretty j.

(** The work left to the bug spray in a place: one hit for each bee and
    one more for every point of armor, which bounds the hits of 10 the
    loop can still deal. *)
Definition spray_work (w : World) (q : PlaceId) : nat :=
  sum_list_with (fun b => S (Z.to_nat (getArmor w (BeeRef b))))
                (Place_getBees w q).

(** * Properties *)

(** ** Reading the store after a write *)

Lemma getAntObj_setAntObj (a a' : AntId) (o : Ant) (w : World) :
  getAntObj (setAntObj a o w) a' = if decide (a = a') then o else getAntObj w a'.
Proof.
  unfold getAntObj, setAntObj; simpl. case_decide.
  - subst. apply lookup_total_insert_eq.
  - by apply lookup_total_insert_ne.
Qed.

Lemma getBeeObj_setBeeObj (b b' : BeeId) (o : Bee) (w : World) :
  getBeeObj (setBeeObj b o w) b' = if decide (b = b') then o else getBeeObj w b'.
Proof.
  unfold getBeeObj, setBeeObj; simpl. case_decide.
  - subst. apply lookup_total_insert_eq.
  - by apply lookup_total_insert_ne.
Qed.

Lemma getPlaceObj_setPlaceObj (p p' : PlaceId) (o : Place) (w : World) :
  getPlaceObj (setPlaceObj p o w) p'
  = if decide (p = p') then o else getPlaceObj w p'.
Proof.
  unfold getPlaceObj, setPlaceObj; simpl. case_decide.
  - subst. apply lookup_total_insert_eq.
  - by apply lookup_total_insert_ne.
Qed.

Lemma getAntObj_setBeeObj b o w a : getAntObj (setBeeObj b o w) a = getAntObj w a.
Proof. reflexivity. Qed.
Lemma getAntObj_setPlaceObj p o w a : getAntObj (setPlaceObj p o w) a = getAntObj w a.
Proof. reflexivity. Qed.
Lemma getAntObj_setFood f w a : getAntObj (setFood f w) a = getAntObj w a.
Proof. reflexivity. Qed.
Lemma getBeeObj_setAntObj a o w b : getBeeObj (setAntObj a o w) b = getBeeObj w b.
Proof. reflexivity. Qed.
Lemma getBeeObj_setPlaceObj p o w b : getBeeObj (setPlaceObj p o w) b = getBeeObj w b.
Proof. reflexivity. Qed.
Lemma getPlaceObj_setAntObj a o w p : getPlaceObj (setAntObj a o w) p = getPlaceObj w p.
Proof. reflexivity. Qed.
Lemma getPlaceObj_setBeeObj b o w p : getPlaceObj (setBeeObj b o w) p = getPlaceObj w p.
Proof. reflexivity. Qed.
Lemma getPlaceObj_setFood f w p : getPlaceObj (setFood f w) p = getPlaceObj w p.
Proof. reflexivity. Qed.

Create Rewrite HintDb store.
#[global] Hint Rewrite getAntObj_setAntObj getBeeObj_setBeeObj
  getPlaceObj_setPlaceObj getAntObj_setBeeObj getAntObj_setPlaceObj
  getAntObj_setFood getBeeObj_setAntObj getBeeObj_setPlaceObj
  getPlaceObj_setAntObj getPlaceObj_setBeeObj getPlaceObj_setFood : store.

(** Unfold the field accessors down to the three stores and rewrite the
    reads after writes. *)
Ltac unfold_fields :=
  unfold setPlace, setArmor, setInsect, setStatus, setBoost, setTurnsEating,
    setVariant, setBees, setAntSlot, setGuardSlot, getArmor, getPlace,
    getInsect, isGuardAnt, turnsEating_of, stomach_of, Place_getAnt,
    Place_getGuardedAnt, Place_getBees in *.

Ltac store_simpl :=
  repeat (progress (unfold_fields; simpl in *;
                    autorewrite with store in *; simpl in *)).

(** Run a computation one step: unfold the monad operations. *)
Ltac run :=
  repeat (progress
    (unfold mbind, M_bind, mret, M_ret, gets, modify, deref, throw, try_catch
       in *;
     cbv beta iota in *)).

(** ** The board the examples run on *)

Lemma board_layout :
  places board = [[1; 2; 3]%nat]
  /\ beeEntrances board = [3%nat]
  /\ queenPlace board = 0%nat
  /\ hive board = 4%nat
  /\ food board = 5
  /\ boosts board !! "FlyingLeaf" = Some 1
  /\ boosts board !! "StickyLeaf" = Some 1
  /\ boosts board !! "IcyLeaf" = Some 1
  /\ boosts board !! "BugSpray" = Some 0
  /\ size (boosts board) = 4%nat
  /\ getPlaceObj board 0
     = mkPlace "Ant Queen" false None (Some 1%nat) None None []
  /\ getPlaceObj board 1
     = mkPlace "tunnel[0,0]" false (Some 0%nat) (Some 2%nat) None None []
  /\ getPlaceObj board 2
     = mkPlace "tunnel[0,1]" false (Some 1%nat) (Some 3%nat) None None []
  /\ getPlaceObj board 3
     = mkPlace "tunnel[0,2]" false (Some 2%nat) None None None []
  /\ getPlaceObj board 4 = mkPlace "Hive" false None None None None [].
Proof. repeat split; by vm_compute. Qed.

(** ** Ranged targeting: [Place.getClosestBee] *)

(** [Place.addBee] pushes at the end: the order of [bees] is the order of
    insertion. *)
Lemma Place_addBee_appends (w : World) (p : PlaceId) (b : BeeId) :
  exists w', Place_addBee p b w = Ok tt w'
             /\ Place_getBees w' p = Place_getBees w p ++ [b].
Proof.
  eexists. split; [reflexivity|].
  store_simpl. by rewrite decide_True.
Qed.

Section ClosestBee.

Variable w : World.
Variables maxDistance minDistance : Z.

(** More fuel than the hop counter can use changes nothing. *)
Lemma getClosestBee_loop_fuel (fuel fuel' : nat) (p : option PlaceId)
    (dist : Z) :
  maxDistance + 1 - dist <= Z.of_nat fuel ->
  maxDistance + 1 - dist <= Z.of_nat fuel' ->
  getClosestBee_loop w fuel p dist maxDistance minDistance
  = getClosestBee_loop w fuel' p dist maxDistance minDistance.
Proof.
  revert fuel' p dist.
  induction fuel as [|fuel IH]; intros fuel' p dist Hf Hf'.
  - destruct fuel' as [|fuel']; [done|]. simpl.
    destruct p as [q|]; [|done].
    destruct (Z.leb_spec dist maxDistance); [lia|done].
  - destruct fuel' as [|fuel']; simpl.
    + destruct p as [q|]; [|done].
      destruct (Z.leb_spec dist maxDistance); [lia|done].
    + destruct p as [q|]; [|done].
      destruct (Z.leb_spec dist maxDistance); [|done].
      destruct (_ && _); [done|].
      apply IH; lia.
Qed.

Lemma visible_from_S (k n : nat) (q : PlaceId) :
  visible_from w minDistance k (S n) q
  = (if decide (minDistance <= Z.of_nat k) then Place_getBees w q else [])
    ++ match entrance (getPlaceObj w q) with
       | Some q' => visible_from w minDistance (S k) n q'
       | None => []
       end.
Proof.
  unfold visible_from. simpl seq. simpl flat_map.
  rewrite Nat.add_0_r. f_equal.
  rewrite <- seq_shift, flat_map_concat_map, map_map, <- flat_map_concat_map.
  unfold attackers_at. simpl hop.
  destruct (entrance (getPlaceObj w q)) as [q'|].
  - apply flat_map_ext. intros d. by rewrite Nat.add_succ_r.
  - induction (seq 0 n) as [|d l IHl]; [done|].
    simpl. rewrite IHl. by destruct (decide _).
Qed.

Lemma getClosestBee_loop_visible (n k : nat) (q : PlaceId) :
  Z.of_nat k + Z.of_nat n = maxDistance + 1 ->
  getClosestBee_loop w n (Some q) (Z.of_nat k) maxDistance minDistance
  = head (visible_from w minDistance k n q).
Proof.
  revert k q. induction n as [|n IH]; intros k q Hk; [done|].
  rewrite visible_from_S. simpl.
  destruct (Z.leb_spec (Z.of_nat k) maxDistance); [|lia].
  destruct (decide (minDistance <= Z.of_nat k)) as [Hmin|Hmin].
  - destruct (Z.leb_spec minDistance (Z.of_nat k)); [|lia].
    destruct (Place_getBees w q) as [|b l] eqn:Hb; simpl.
    + destruct (entrance (getPlaceObj w q)) as [q'|].
      * replace (Z.of_nat k + 1) with (Z.of_nat (S k)) by lia.
        apply IH. lia.
      * by destruct n.
    + done.
  - destruct (Z.leb_spec minDistance (Z.of_nat k)); [lia|]. simpl.
    destruct (entrance (getPlaceObj w q)) as [q'|].
    + replace (Z.of_nat k + 1) with (Z.of_nat (S k)) by lia.
      apply IH. lia.
    + by destruct n.
Qed.

Lemma visible_from_0 (n : nat) (q : PlaceId) :
  visible_from w minDistance 0 n q
  = flat_map (attackers_at w q)
             (filter (fun d => minDistance <= Z.of_nat d) (seq 0 n)).
Proof.
  unfold visible_from. induction (seq 0 n) as [|d l IHl]; [done|].
  rewrite filter_cons. simpl in IHl |- *. rewrite IHl.
  destruct (decide (minDistance <= Z.of_nat d)); done.
Qed.

(** What the loop finds is the first attacker of the nearest cell in
    range that holds one. *)
Lemma getClosestBee_loop_Some (n k : nat) (q : PlaceId) (b : BeeId) :
  Z.of_nat k + Z.of_nat n = maxDistance + 1 ->
  getClosestBee_loop w n (Some q) (Z.of_nat k) maxDistance minDistance
  = Some b ->
  exists (d : nat) (q' : PlaceId),
    (d < n)%nat
    /\ minDistance <= Z.of_nat (k + d)
    /\ hop w d q = Some q'
    /\ Place_getBees w q' !! 0%nat = Some b
    /\ forall d' : nat, (d' < d)%nat -> minDistance <= Z.of_nat (k + d') ->
                        attackers_at w q d' = [].
Proof.
  revert k q. induction n as [|n IH]; intros k q Hk; [done|]. simpl.
  destruct (Z.leb_spec (Z.of_nat k) maxDistance); [|lia].
  destruct (Z.leb_spec minDistance (Z.of_nat k)) as [Hmin|Hmin];
    destruct (Place_getBees w q) as [|x l] eqn:Hb; simpl.
  2:{ intros [= ->]. exists O, q. rewrite Nat.add_0_r, Hb.
      repeat split; try done; try lia. }
  all: destruct (entrance (getPlaceObj w q)) as [q1|] eqn:He;
    [|by destruct n].
  all: replace (Z.of_nat k + 1) with (Z.of_nat (S k)) by lia.
  all: intros Hloop;
    destruct (IH (S k) q1 ltac:(lia) Hloop) as (d & q' & Hd & Hm & Hh & Hq & Hn).
  all: exists (S d), q'; simpl; rewrite He.
  all: repeat split; try done; try lia.
  all: intros [|d'] Hd' Hm'; unfold attackers_at; simpl; rewrite ?He, ?Hb;
    try done; try lia.
  all: apply (Hn d'); lia.
Qed.

Lemma getClosestBee_loop_None (n k : nat) (q : PlaceId) :
  Z.of_nat k + Z.of_nat n = maxDistance + 1 ->
  getClosestBee_loop w n (Some q) (Z.of_nat k) maxDistance minDistance = None ->
  forall d : nat, (d < n)%nat -> minDistance <= Z.of_nat (k + d) ->
                  attackers_at w q d = [].
Proof.
  revert k q. induction n as [|n IH]; intros k q Hk; [intros; lia|]. simpl.
  destruct (Z.leb_spec (Z.of_nat k) maxDistance); [|lia].
  destruct (Z.leb_spec minDistance (Z.of_nat k)) as [Hmin|Hmin];
    destruct (Place_getBees w q) as [|x l] eqn:Hb; simpl; try done.
  all: destruct (entrance (getPlaceObj w q)) as [q1|] eqn:He.
  all: intros Hloop [|d] Hd Hm; unfold attackers_at; simpl;
    rewrite ?He, ?Hb; try done; try lia.
  all: replace (Z.of_nat k + 1) with (Z.of_nat (S k)) in Hloop by lia.
  all: apply (IH (S k) q1 ltac:(lia) Hloop d); lia.
Qed.

End ClosestBee.

(** Distance 0 is the cell itself: with both bounds at 0 the answer is the
    first attacker of the cell. *)
Lemma getClosestBee_same_cell (w : World) (p : PlaceId) :
  Place_getClosestBee w p 0 0 = Place_getBees w p !! 0%nat.
Proof.
  unfold Place_getClosestBee. simpl.
  destruct (Place_getBees w p) as [|b l]; simpl; [|done].
  by destruct (entrance (getPlaceObj w p)).
Qed.

(** C4. [closest-attacker(maxHops, minHops)] returns the first attacker in
    the ordering by hop distance ascending (hop 0 at the cell itself,
    walking the forward link) and by insertion order within a cell, among
    the attackers at a distance within [[minHops, maxHops]], and none when
    there is no such attacker: its answer is the head of
    [attackers_in_range]; an attacker it returns is the first of a cell at
    a distance [d] within the bounds such that no cell at a smaller
    distance within the bounds holds one; and when it returns none, no
    cell at a distance within the bounds holds one. *)
Theorem getClosestBee_first_in_range (w : World) (p : PlaceId)
    (maxHops minHops : Z) :
  Place_getClosestBee w p maxHops minHops
  = head (attackers_in_range w p minHops maxHops)
  /\ (forall b : BeeId,
        Place_getClosestBee w p maxHops minHops = Some b ->
        exists (d : nat) (q : PlaceId),
          minHops <= Z.of_nat d <= maxHops
          /\ hop w d p = Some q
          /\ Place_getBees w q !! 0%nat = Some b
          /\ forall d' : nat, (d' < d)%nat -> minHops <= Z.of_nat d' ->
                              attackers_at w p d' = [])
  /\ (Place_getClosestBee w p maxHops minHops = None ->
      forall d : nat, minHops <= Z.of_nat d <= maxHops ->
                      attackers_at w p d = []).
Proof.
  unfold Place_getClosestBee, attackers_in_range.
  rewrite <- visible_from_0.
  destruct (Z.le_gt_cases 0 (maxHops + 1)) as [Hm|Hm].
  - assert (Z.of_nat 0 + Z.of_nat (Z.to_nat (maxHops + 1)) = maxHops + 1)
      as Hfuel by lia.
    split; [|split].
    + by apply (getClosestBee_loop_visible w maxHops minHops _ 0 p).
    + intros b Hb.
      destruct (getClosestBee_loop_Some w maxHops minHops _ 0 p b Hfuel Hb)
        as (d & q & Hd & Hmin & Hh & Hq & Hn).
      exists d, q. simpl in *. repeat split; try done; try lia.
    + intros Hnone d [Hd1 Hd2].
      apply (getClosestBee_loop_None w maxHops minHops _ 0 p Hfuel Hnone d);
        simpl; lia.
  - replace (Z.to_nat (maxHops + 1)) with O by lia.
    split; [done|]. split; [done|]. intros _ d Hd. lia.
Qed.

(** ** Deployment: [Place.addAnt] and [AntColony.deployAnt] *)

(** [Place.addAnt] refuses exactly when the slot is taken, and then
    changes nothing. *)
Lemma Place_addAnt_taken (w : World) (p : PlaceId) (a : AntId) :
  slot_taken w p a -> Place_addAnt p a w = Ok false w.
Proof.
  unfold slot_taken, Place_addAnt.
  destruct (isGuardAnt w a).
  - destruct (guard (getPlaceObj w p)); [done|congruence].
  - destruct (ant (getPlaceObj w p)); [done|congruence].
Qed.

Lemma Place_addAnt_free (w : World) (p : PlaceId) (a : AntId) :
  ~ slot_taken w p a ->
  exists w', Place_addAnt p a w = Ok true w'
    /\ (if isGuardAnt w a
        then guard (getPlaceObj w' p) = Some a
             /\ ant (getPlaceObj w' p) = ant (getPlaceObj w p)
        else ant (getPlaceObj w' p) = Some a
             /\ guard (getPlaceObj w' p) = guard (getPlaceObj w p))
    /\ getPlace w' (AntRef a) = Some p
    /\ foodCost (getAntObj w' a) = foodCost (getAntObj w a)
    /\ food w' = food w.
Proof.
  unfold slot_taken, Place_addAnt.
  destruct (isGuardAnt w a).
  - destruct (guard (getPlaceObj w p)) eqn:Hg; [intros []; done|].
    intros _. eexists. split; [reflexivity|].
    store_simpl. rewrite !decide_True by done. done.
  - destruct (ant (getPlaceObj w p)) eqn:Ha; [intros []; done|].
    intros _. eexists. split; [reflexivity|].
    store_simpl. rewrite !decide_True by done. done.
Qed.

(** C6. [Colony.deploy] fails with the insufficient-resource token
    (["not enough food"]) if and only if food < cost; when food suffices
    and the cell rejects the placement it fails with the
    location-occupied token (["tunnel already occupied"]); on success it
    decreases food by exactly the cost and places the defender; on every
    failure the state (food and board) is left as it was. *)
Theorem deployAnt_resource_arithmetic (w : World) (a : AntId) (p : PlaceId) :
  exists (r : option string) (w' : World),
    AntColony_deployAnt a (Some p) w = Ok r w'
    /\ (r = Some "not enough food" <-> food w < foodCost (getAntObj w a))
    /\ (foodCost (getAntObj w a) <= food w -> slot_taken w p a ->
        r = Some "tunnel already occupied")
    /\ (r <> None -> w' = w)
    /\ (foodCost (getAntObj w a) <= food w -> ~ slot_taken w p a ->
        r = None
        /\ food w' = food w - foodCost (getAntObj w a)
        /\ (if isGuardAnt w a
            then guard (getPlaceObj w' p) = Some a
                 /\ ant (getPlaceObj w' p) = ant (getPlaceObj w p)
            else ant (getPlaceObj w' p) = Some a
                 /\ guard (getPlaceObj w' p) = guard (getPlaceObj w p))
        /\ getPlace w' (AntRef a) = Some p).
Proof.
  unfold AntColony_deployAnt. run.
  destruct (Z.leb_spec (foodCost (getAntObj w a)) (food w)) as [Hc|Hc].
  - destruct (decide (slot_taken w p a)) as [Ht|Ht].
    + rewrite (Place_addAnt_taken _ _ _ Ht).
      eexists _, _. split; [reflexivity|].
      repeat split; try done; try lia.
    + destruct (Place_addAnt_free _ _ _ Ht) as (w1 & -> & Hslot & Hpl & Hcost & Hfood).
      eexists _, _. split; [reflexivity|].
      split; [split; [done|lia]|].
      split; [done|]. split; [done|]. intros _ _.
      split; [done|]. split; [simpl; lia|].
      split; [|done].
      destruct (isGuardAnt w a); exact Hslot.
  - eexists _, _. split; [reflexivity|].
    repeat split; try done; try lia.
Qed.

(** ** The win condition: [AntGame.gameIsWon] *)

Lemma getAllBees_nil_iff (w : World) :
  AntColony_getAllBees w = [] <-> grid_clear w.
Proof.
  unfold AntColony_getAllBees, grid_clear.
  induction (places w) as [|row rows IH]; simpl.
  - split; [constructor|done].
  - rewrite Forall_cons, <- IH. clear IH.
    split.
    + intros [Hrow Hrows]%app_eq_nil. split; [|done].
      induction row as [|p row IHrow]; [constructor|].
      simpl in Hrow. apply app_eq_nil in Hrow as [Hp Hrow].
      constructor; [done|by apply IHrow].
    + intros [Hrow ->]. rewrite app_nil_r.
      induction Hrow as [|p row Hp _ IHrow]; [done|].
      simpl. by rewrite Hp, IHrow.
Qed.

Lemma length_zero_iff_nil_Z {A : Type} (l : list A) :
  Z.of_nat (length l) = 0 <-> l = [].
Proof. destruct l; simpl; split; intros; (done || lia). Qed.

(** C7. The win-condition query is tri-state: [false] (loss) exactly when
    an attacker occupies the goal cell, whatever else holds; [true] (win)
    exactly when there is none there, none in the grid and none in the
    spawner's reservoir; unresolved in every other state. *)
Theorem gameIsWon_tri_state (w : World) :
  (AntGame_gameIsWon w = Some false
   <-> Place_getBees w (queenPlace w) <> [])
  /\ (AntGame_gameIsWon w = Some true
      <-> Place_getBees w (queenPlace w) = []
          /\ grid_clear w /\ Place_getBees w (hive w) = [])
  /\ (AntGame_gameIsWon w = None
      <-> Place_getBees w (queenPlace w) = []
          /\ ~ (grid_clear w /\ Place_getBees w (hive w) = [])).
Proof.
  unfold AntGame_gameIsWon, AntColony_queenHasBees.
  rewrite <- getAllBees_nil_iff.
  destruct (Place_getBees w (queenPlace w)) as [|b l] eqn:Hq; simpl.
  - destruct (Z.eqb_spec
                (Z.of_nat (length (AntColony_getAllBees w))
                 + Z.of_nat (length (Place_getBees w (hive w)))) 0) as [H0|H0].
    + assert (AntColony_getAllBees w = [] /\ Place_getBees w (hive w) = [])
        as [Hg Hh].
      { split; apply length_zero_iff_nil_Z; lia. }
      repeat split; try done. intros [_ Hn]. by destruct Hn.
    + repeat split; try done.
      * intros (_ & Hg & Hh). rewrite Hg, Hh in H0. done.
      * intros [Hg Hh]. rewrite Hg, Hh in H0. done.
  - repeat split; try done; by intros [? _].
Qed.

(** ** The combat primitive: [Insect.reduceArmor] *)

Lemma getArmor_setArmor (r : InsectRef) (v : Z) (w : World) :
  getArmor (setArmor r v w) r = v.
Proof. destruct r; store_simpl; by rewrite decide_True. Qed.

Lemma getPlace_setArmor (r : InsectRef) (v : Z) (w : World) :
  getPlace (setArmor r v w) r = getPlace w r.
Proof. destruct r; store_simpl; by rewrite decide_True. Qed.

Lemma Insect_reduceArmor_survives (r : InsectRef) (amount : Z) (w : World) :
  0 < getArmor w r - amount ->
  Insect_reduceArmor r amount w
  = Ok false (setArmor r (getArmor w r - amount) w).
Proof.
  intros H. unfold Insect_reduceArmor. run.
  rewrite getArmor_setArmor.
  by destruct (Z.leb_spec (getArmor w r - amount) 0); [lia|].
Qed.

Lemma Insect_reduceArmor_expires (r : InsectRef) (amount : Z) (w : World)
    (q : PlaceId) :
  getArmor w r - amount <= 0 ->
  getPlace w r = Some q ->
  Insect_reduceArmor r amount w
  = match Place_removeInsect q r (setArmor r (getArmor w r - amount) w) with
    | Ok _ w' => Ok true w'
    | TypeError w' => TypeError w'
    end.
Proof.
  intros H Hq. unfold Insect_reduceArmor. run.
  rewrite getArmor_setArmor.
  destruct (Z.leb_spec (getArmor w r - amount) 0); [|lia].
  run. rewrite getPlace_setArmor, Hq. by run.
Qed.

Lemma Insect_reduceArmor_no_place (r : InsectRef) (amount : Z) (w : World) :
  getArmor w r - amount <= 0 ->
  getPlace w r = None ->
  Insect_reduceArmor r amount w
  = TypeError (setArmor r (getArmor w r - amount) w).
Proof.
  intros H Hq. unfold Insect_reduceArmor. run.
  rewrite getArmor_setArmor.
  destruct (Z.leb_spec (getArmor w r - amount) 0); [|lia].
  run. rewrite getPlace_setArmor, Hq. by run.
Qed.

(** The eater's override raises as well when its back-reference is
    cleared and the hit is lethal. *)
Lemma EaterAnt_reduceArmor_no_place (e : AntId) (amount : Z) (w : World) :
  getArmor w (AntRef e) - amount <= 0 ->
  0 <= amount ->
  getPlace w (AntRef e) = None ->
  exists w', EaterAnt_reduceArmor e amount w = TypeError w'.
Proof.
  intros H Ham Hq. unfold EaterAnt_reduceArmor. run.
  rewrite getArmor_setArmor.
  set (w1 := setArmor (AntRef e) (getArmor w (AntRef e) - amount) w).
  assert (getPlace w1 (AntRef e) = None) as Hq1.
  { unfold w1. by rewrite getPlace_setArmor. }
  assert (getArmor w1 (AntRef e) - amount <= 0) as H1.
  { unfold w1. rewrite getArmor_setArmor. lia. }
  destruct (Z.ltb_spec 0 (getArmor w (AntRef e) - amount)); [lia|].
  destruct (Z.leb_spec (getArmor w (AntRef e) - amount) 0); [|lia].
  destruct ((0 <? turnsEating_of w1 e) && (turnsEating_of w1 e <=? 2)).
  - unfold EaterAnt_coughUp. run.
    destruct (Place_getBees w1 (stomach_of w1 e) !! 0%nat) as [b|]; [|eauto].
    unfold Place_removeBee.
    destruct (indexOf b _); run.
    + change (getPlace (setPlace (BeeRef b) None (setBees _ _ w1)) (AntRef e))
        with (getPlace w1 (AntRef e)).
      rewrite Hq1. eauto.
    + rewrite Hq1. eauto.
  - rewrite (Insect_reduceArmor_no_place _ _ _ H1 Hq1). eauto.
Qed.

(** C9, as the code has it.  On an insect whose back-reference is cleared
    and whose armor is already at or below zero, [reduceArmor] with a
    non-negative amount writes the decremented armor and then goes
    through the back-reference once more for the detachment, which raises
    a [TypeError]. *)
Theorem reduceArmor_detached_raises (w : World) (r : InsectRef) (amount : Z) :
  getPlace w r = None ->
  getArmor w r <= 0 ->
  0 <= amount ->
  Insect_reduceArmor r amount w
  = TypeError (setArmor r (getArmor w r - amount) w)
  /\ exists w', reduceArmor r amount w = TypeError w'.
Proof.
  intros Hq Ha Ham.
  assert (getArmor w r - amount <= 0) as H by lia.
  split; [by apply Insect_reduceArmor_no_place|].
  destruct r as [a|b]; simpl.
  - unfold Ant_reduceArmor.
    destruct (variant (getAntObj w a));
      try (rewrite Insect_reduceArmor_no_place by done; eauto).
    by apply EaterAnt_reduceArmor_no_place.
  - rewrite Insect_reduceArmor_no_place by done. eauto.
Qed.

Lemma reduceArmor_detached_raises_witness :
  Insect_reduceArmor (BeeRef 0) 1 expired_bee
  = TypeError (setArmor (BeeRef 0) (getArmor expired_bee (BeeRef 0) - 1)
                        expired_bee)
  /\ exists w', reduceArmor (BeeRef 0) 1 expired_bee = TypeError w'.
Proof.
  apply (reduceArmor_detached_raises expired_bee (BeeRef 0) 1).
  - reflexivity.
  - apply Z.leb_le. reflexivity.
  - lia.
Defined.

(** The claim of C9 takes a further [reduceArmor] on a detached insect to
    return.  [expired_bee] holds a bee that lost its last point of armor
    and was detached; one more hit of 1 writes its armor and raises. *)
Lemma reduceArmor_detached_counterexample :
  getPlace expired_bee (BeeRef 0) = None
  /\ getArmor expired_bee (BeeRef 0) = 0
  /\ (forall (r : bool) (w' : World),
        reduceArmor (BeeRef 0) 1 expired_bee <> Ok r w')
  /\ exists w', reduceArmor (BeeRef 0) 1 expired_bee = TypeError w'
                /\ getArmor w' (BeeRef 0) = -1.
Proof.
  split; [reflexivity|]. split; [reflexivity|]. split.
  - intros r w'. vm_compute. discriminate.
  - eexists. split; [vm_compute; reflexivity|]. reflexivity.
Qed.

(** ** Bees entering and leaving places *)

Lemma indexOf_head (b : BeeId) (l : list BeeId) : indexOf b (b :: l) = Some O.
Proof. simpl. by rewrite decide_True. Qed.

Lemma Place_removeBee_head (p : PlaceId) (b : BeeId) (l : list BeeId)
    (w : World) :
  Place_getBees w p = b :: l ->
  Place_removeBee p b w = Ok tt (setPlace (BeeRef b) None (setBees p l w)).
Proof.
  intros Hb. unfold Place_removeBee. by rewrite Hb, indexOf_head.
Qed.

(** With a bee in the stomach the shared block of [EaterAnt.reduceArmor]
    moves the first one back to the eater's place. *)
Lemma EaterAnt_coughUp_moves (e : AntId) (st q : PlaceId) (b : BeeId)
    (l : list BeeId) (w : World) :
  stomach_of w e = st ->
  getPlace w (AntRef e) = Some q ->
  Place_getBees w st = b :: l ->
  EaterAnt_coughUp e w
  = Place_addBee q b (setPlace (BeeRef b) None (setBees st l w)).
Proof.
  intros Hst Hq Hb. unfold EaterAnt_coughUp. run.
  rewrite Hst, Hb. simpl. rewrite (Place_removeBee_head _ _ _ _ Hb).
  change (getPlace (setPlace (BeeRef b) None (setBees st l w)) (AntRef e))
    with (getPlace w (AntRef e)).
  by rewrite Hq.
Qed.

(** ** The eater's override of [reduceArmor] *)

(** C10. When a [reduceArmor] call on an eater is lethal (armor minus the
    damage amount is at or below zero), the amount is subtracted twice,
    once by the override and once by the routine of [Insect] it delegates
    to: the armor afterwards is the prior armor minus two times the
    amount.  The call returns [true] and detaches once: one
    [Place.removeAnt] on the eater's place, which empties the guard slot
    if there is a guard and the ant slot otherwise.  The eater is taken
    to stand in a place, to hold a bee whenever its counter is 1 or 2,
    and the damage amount to be non-negative. *)
Theorem eater_lethal_subtracts_twice (w : World) (e : AntId) (t : Z)
    (st q : PlaceId) (amount : Z) :
  variant (getAntObj w e) = EaterAnt t st ->
  getPlace w (AntRef e) = Some q ->
  (0 < t <= 2 -> Place_getBees w st <> []) ->
  0 <= amount ->
  getArmor w (AntRef e) - amount <= 0 ->
  exists w',
    reduceArmor (AntRef e) amount w = Ok true w'
    /\ getArmor w' (AntRef e) = getArmor w (AntRef e) - 2 * amount
    /\ guard (getPlaceObj w' q) = None
    /\ ant (getPlaceObj w' q)
       = match guard (getPlaceObj w q) with
         | Some _ => ant (getPlaceObj w q)
         | None => None
         end.
Proof.
  intros Hv Hq Hst Ham Hle.
  unfold reduceArmor, Ant_reduceArmor. rewrite Hv.
  unfold EaterAnt_reduceArmor. run.
  rewrite getArmor_setArmor.
  destruct (Z.ltb_spec 0 (getArmor w (AntRef e) - amount)); [lia|].
  destruct (Z.leb_spec (getArmor w (AntRef e) - amount) 0); [|lia].
  set (w1 := setArmor (AntRef e) (getArmor w (AntRef e) - amount) w).
  assert (variant (getAntObj w1 e) = EaterAnt t st) as Hv1.
  { unfold w1. store_simpl. by rewrite decide_True. }
  assert (getPlace w1 (AntRef e) = Some q) as Hq1.
  { unfold w1. by rewrite getPlace_setArmor. }
  assert (getArmor w1 (AntRef e) = getArmor w (AntRef e) - amount) as Ha1.
  { unfold w1. by rewrite getArmor_setArmor. }
  assert (forall p, getPlaceObj w1 p = getPlaceObj w p) as Hp1 by done.
  assert (turnsEating_of w1 e = t) as ->
    by (unfold turnsEating_of; by rewrite Hv1).
  clearbody w1.
  destruct ((0 <? t) && (t <=? 2)) eqn:Hc.
  - apply andb_true_iff in Hc as [Hc1%Z.ltb_lt Hc2%Z.leb_le].
    destruct (Place_getBees w st) as [|b l] eqn:Hb; [by destruct Hst|].
    rewrite (EaterAnt_coughUp_moves e st q b l);
      [|by unfold stomach_of; rewrite Hv1|done
       |by unfold Place_getBees; rewrite Hp1].
    unfold Place_addBee.
    rewrite (Insect_reduceArmor_expires _ _ _ q).
    + unfold Place_removeInsect, Place_removeAnt. run.
      match goal with |- context [guard (getPlaceObj ?x q)] =>
        replace (guard (getPlaceObj x q)) with (guard (getPlaceObj w q)) end.
      2:{ store_simpl. repeat case_decide; subst; simpl; by rewrite ?Hp1. }
      destruct (guard (getPlaceObj w q)) eqn:Hg; run.
      all: eexists; split; [reflexivity|].
      all: store_simpl; repeat case_decide; subst; simpl; rewrite ?Hp1;
        try done.
      all: repeat split; try done; lia.
    + store_simpl. lia.
    + store_simpl. done.
  - rewrite (Insect_reduceArmor_expires _ _ _ q); [|lia|done].
    unfold Place_removeInsect, Place_removeAnt. run.
    match goal with |- context [guard (getPlaceObj ?x q)] =>
      replace (guard (getPlaceObj x q)) with (guard (getPlaceObj w q)) end.
    2:{ store_simpl. repeat case_decide; subst; simpl; by rewrite ?Hp1. }
    destruct (guard (getPlaceObj w q)) eqn:Hg; run.
    all: eexists; split; [reflexivity|].
    all: store_simpl; repeat case_decide; subst; simpl; rewrite ?Hp1;
      try done.
    all: repeat split; try done; lia.
Qed.

Lemma eater_lethal_subtracts_twice_witness :
  exists w',
    reduceArmor (AntRef 0) 2 eater_holds_bee = Ok true w'
    /\ getArmor w' (AntRef 0) = getArmor eater_holds_bee (AntRef 0) - 2 * 2
    /\ guard (getPlaceObj w' 3) = None
    /\ ant (getPlaceObj w' 3)
       = match guard (getPlaceObj eater_holds_bee 3) with
         | Some _ => ant (getPlaceObj eater_holds_bee 3)
         | None => None
         end.
Proof.
  apply (eater_lethal_subtracts_twice eater_holds_bee 0 1 5 3 2).
  - reflexivity.
  - reflexivity.
  - intros _. vm_compute. discriminate.
  - lia.
  - apply Z.leb_le. reflexivity.
Defined.

(** ** Guard and base defender in one cell *)

(** What holds of the pair: a bee sees the guard, and [Place.removeAnt]
    takes the guard and leaves the base defender. *)
Lemma getAnt_sees_guard (w : World) (q : PlaceId) (g : AntId) :
  guard (getPlaceObj w q) = Some g -> Place_getAnt w q = Some g.
Proof. unfold Place_getAnt. by intros ->. Qed.

Lemma removeAnt_takes_guard (w : World) (q : PlaceId) (g : AntId) :
  guard (getPlaceObj w q) = Some g ->
  exists w', Place_removeAnt q w = Ok (Some g) w'
    /\ guard (getPlaceObj w' q) = None
    /\ ant (getPlaceObj w' q) = ant (getPlaceObj w q)
    /\ antStore w' = antStore w.
Proof.
  intros Hg. unfold Place_removeAnt. rewrite Hg.
  eexists. split; [reflexivity|].
  store_simpl. by rewrite !decide_True.
Qed.

(** When the armor of the guard reaches zero or less, the guard is
    removed and the base defender stays. *)
Lemma guard_expiry_leaves_base (w : World) (g : AntId) (q : PlaceId)
    (amount : Z) :
  getPlace w (AntRef g) = Some q ->
  guard (getPlaceObj w q) = Some g ->
  getArmor w (AntRef g) - amount <= 0 ->
  exists w',
    Insect_reduceArmor (AntRef g) amount w = Ok true w'
    /\ guard (getPlaceObj w' q) = None
    /\ ant (getPlaceObj w' q) = ant (getPlaceObj w q).
Proof.
  intros Hq Hg Hle.
  rewrite (Insect_reduceArmor_expires _ _ _ q Hle Hq).
  unfold Place_removeInsect. run.
  destruct (removeAnt_takes_guard
              (setArmor (AntRef g) (getArmor w (AntRef g) - amount) w) q g Hg)
    as (w' & -> & Hg' & Ha' & _).
  exists w'. split; [done|]. split; [done|]. by rewrite Ha'.
Qed.

(** C3, as the code has it.  When the armor of the base defender of a
    guarded cell reaches zero or less, the detachment is
    [Place.removeInsect], which for an ant calls [Place.removeAnt]
    without looking at its argument: the guard slot is emptied and the
    expired base defender stays in its slot. *)
Theorem base_defender_expiry_removes_guard (w : World) (a g : AntId)
    (q : PlaceId) (amount : Z) :
  getPlace w (AntRef a) = Some q ->
  ant (getPlaceObj w q) = Some a ->
  guard (getPlaceObj w q) = Some g ->
  getArmor w (AntRef a) - amount <= 0 ->
  exists w',
    Insect_reduceArmor (AntRef a) amount w = Ok true w'
    /\ guard (getPlaceObj w' q) = None
    /\ ant (getPlaceObj w' q) = Some a.
Proof.
  intros Hq Ha Hg Hle.
  rewrite (Insect_reduceArmor_expires _ _ _ q Hle Hq).
  unfold Place_removeInsect. run.
  destruct (removeAnt_takes_guard
              (setArmor (AntRef a) (getArmor w (AntRef a) - amount) w) q g Hg)
    as (w' & -> & Hg' & Ha' & _).
  exists w'. split; [done|]. split; [done|]. by rewrite Ha'.
Qed.

Lemma base_defender_expiry_removes_guard_witness :
  exists w',
    Insect_reduceArmor (AntRef 0) 10 guarded_sprayer = Ok true w'
    /\ guard (getPlaceObj w' 3) = None
    /\ ant (getPlaceObj w' 3) = Some 0%nat.
Proof.
  apply (base_defender_expiry_removes_guard guarded_sprayer 0 1 3 10).
  - reflexivity.
  - reflexivity.
  - reflexivity.
  - apply Z.leb_le. reflexivity.
Defined.

(** The same failure reached through the game: the guarded thrower of
    [guarded_sprayer] acts, sprays and expires by its own spray; the cell
    is left with the expired thrower and without its guard. *)
Lemma bugSpray_under_guard (fuel : nat) :
  exists w',
    ThrowerAnt_act fuel 0 guarded_sprayer = Ok true w'
    /\ Place_getAnt guarded_sprayer 3 = Some 1%nat
    /\ getArmor w' (AntRef 0) = -9
    /\ guard (getPlaceObj w' 3) = None
    /\ ant (getPlaceObj w' 3) = Some 0%nat
    /\ getArmor w' (AntRef 1) = 2.
Proof.
  destruct fuel;
    (eexists; split; [vm_compute; reflexivity|]; vm_compute; done).
Qed.

(** ** Boosts: [AntColony.applyBoost] *)

(** The three outcomes of [applyBoost] on a place. *)
Lemma applyBoost_cases (om : string -> bool) (b : string) (p : PlaceId)
    (w : World) :
  AntColony_applyBoost om b (Some p) w
  = if boost_missing om w b then Ok (Some "no such boost") w
    else match Place_getAnt w p with
         | None => Ok (Some "no Ant at location") w
         | Some a => Ok None (setBoost a (Some b) w)
         end.
Proof.
  unfold AntColony_applyBoost. run.
  destruct (boost_missing om w b); [done|].
  by destruct (Place_getAnt w p).
Qed.

(** No path of [applyBoost] writes the inventory. *)
Lemma applyBoost_inventory_unchanged (om : string -> bool) (b : string)
    (target : option PlaceId) (w : World) :
  boosts (state_of (AntColony_applyBoost om b target w)) = boosts w.
Proof.
  unfold AntColony_applyBoost. run.
  destruct (boost_missing om w b); [done|].
  destruct target as [p|]; [|done]. run.
  by destruct (Place_getAnt w p).
Qed.

Lemma boost_setBoost (a : AntId) (s : option string) (w : World) :
  boost (getAntObj (setBoost a s w) a) = s.
Proof. store_simpl. by rewrite decide_True. Qed.

(** C1, as the code has it, for a boost name that is not one of the
    names every object carries.  [applyBoost] fails with ["no such boost"]
    exactly when the boost is not available: the inventory has no count
    for it, or its count is below 1.  It fails with ["no Ant at location"]
    when the boost is available and the place shows no occupant (the guard
    if there is one, else the ant).  Both failures leave the state as it
    was.  Otherwise it succeeds and assigns the boost to that occupant;
    the inventory is the same after as before: no count is decremented. *)
Theorem applyBoost_tags_occupant (om : string -> bool) (b : string)
    (p : PlaceId) (w : World) :
  om b = false ->
  (boost_missing om w b = true
   <-> match boosts w !! b with
       | Some n => n < 1
       | None => True
       end)
  /\ (boost_missing om w b = true ->
      AntColony_applyBoost om b (Some p) w = Ok (Some "no such boost") w)
  /\ (boost_missing om w b = false -> Place_getAnt w p = None ->
      AntColony_applyBoost om b (Some p) w = Ok (Some "no Ant at location") w)
  /\ (forall a : AntId,
        boost_missing om w b = false -> Place_getAnt w p = Some a ->
        exists w',
          AntColony_applyBoost om b (Some p) w = Ok None w'
          /\ boost (getAntObj w' a) = Some b
          /\ boosts w' = boosts w).
Proof.
  intros Hom. rewrite applyBoost_cases.
  split; [|split; [|split]].
  - unfold boost_missing. destruct (boosts w !! b) as [n|].
    + by rewrite Z.ltb_lt.
    + by rewrite Hom.
  - by intros ->.
  - by intros -> ->.
  - intros a -> ->. eexists. split; [reflexivity|].
    split; [apply boost_setBoost|done].
Qed.

Lemma applyBoost_tags_occupant_witness :
  some_object_members "FlyingLeaf" = false
  /\ exists w',
       AntColony_applyBoost some_object_members "FlyingLeaf" (Some 3%nat)
                            thrower_board
       = Ok None w'
       /\ boost (getAntObj w' 0) = Some "FlyingLeaf"
       /\ boosts w' = boosts thrower_board.
Proof.
  split; [reflexivity|].
  destruct (applyBoost_tags_occupant some_object_members "FlyingLeaf"
                                     3%nat thrower_board eq_refl)
    as (_ & _ & _ & H).
  apply (H 0%nat); reflexivity.
Defined.

(** The claim of C1 has a successful [applyBoost] take one unit from the
    inventory.  On [thrower_board] the inventory holds one ["FlyingLeaf"];
    the command [boost FlyingLeaf 0,2] succeeds and tags the thrower, and
    the inventory still holds one ["FlyingLeaf"], which the same command
    then applies again. *)
Lemma applyBoost_keeps_inventory :
  boosts thrower_board !! "FlyingLeaf" = Some 1
  /\ Place_getAnt thrower_board 3 = Some 0%nat
  /\ (exists w',
        AntGame_boostAnt some_array_members some_object_members
                         "FlyingLeaf" "0,2" thrower_board = Ok None w'
        /\ boost (getAntObj w' 0) = Some "FlyingLeaf"
        /\ boosts w' !! "FlyingLeaf" = Some 1
        /\ boosts w' !! "FlyingLeaf" <> Some (1 - 1)
        /\ result_of (AntGame_boostAnt some_array_members
                         some_object_members "FlyingLeaf" "0,2" w')
           = Some None).
Proof.
  split; [by vm_compute|]. split; [by vm_compute|].
  eexists. split; [vm_compute; reflexivity|].
  vm_compute. done.
Qed.

(** ** The attacker's turn: [Bee.act] *)

Lemma status_setStatus (b : BeeId) (s : option string) (w : World) :
  status (getBeeObj (setStatus b s w) b) = s.
Proof. store_simpl. by rewrite decide_True. Qed.

(** [Bee.act] is one of its branches followed by [this.status = undefined]. *)
Lemma Bee_act_resets_status (b : BeeId) (w w' : World) :
  Bee_act b w = Ok tt w' -> status (getBeeObj w' b) = None.
Proof.
  unfold Bee_act. run.
  destruct (Bee_isBlocked b w) as [blocked w0|]; [|done].
  match goal with
  | |- match ?c with _ => _ end = _ -> _ => destruct c as [u w1|]; [|done]
  end.
  intros [= <-]. apply status_setStatus.
Qed.

Lemma Bee_isBlocked_at (b : BeeId) (p : PlaceId) (w : World) :
  getPlace w (BeeRef b) = Some p ->
  Bee_isBlocked b w = Ok (bool_decide (Place_getAnt w p <> None)) w.
Proof. intros Hp. unfold Bee_isBlocked. run. rewrite Hp. by run. Qed.

(** Leaving by the exit: the bee is taken out of the bees of [p] and
    pushed at the end of those of [q]. *)
Lemma Place_exitBee_moves (p q : PlaceId) (b : BeeId) (w : World) :
  exit (getPlaceObj w p) = Some q ->
  p <> q ->
  exists w1,
    Place_exitBee p b w = Ok tt w1
    /\ getPlace w1 (BeeRef b) = Some q
    /\ Place_getBees w1 q = Place_getBees w q ++ [b]
    /\ Place_getBees w1 p
       = match indexOf b (Place_getBees w p) with
         | Some i => delete i (Place_getBees w p)
         | None => Place_getBees w p
         end.
Proof.
  intros He Hpq. unfold Place_exitBee, Place_removeBee. run.
  destruct (indexOf b (Place_getBees w p)) as [i|] eqn:Hi; run.
  - change (exit (getPlaceObj (setPlace (BeeRef b) None (setBees p _ w)) p))
      with (exit (getPlaceObj (setBees p (delete i (Place_getBees w p)) w) p)).
    assert (exit (getPlaceObj (setBees p (delete i (Place_getBees w p)) w) p)
            = Some q) as ->.
    { store_simpl. by rewrite decide_True. }
    run. unfold Place_addBee. eexists. split; [reflexivity|].
    store_simpl. repeat case_decide; try done.
  - rewrite He. run. unfold Place_addBee. eexists. split; [reflexivity|].
    store_simpl. repeat case_decide; try done.
Qed.

(** C8, as the code has it.  On its turn an attacker that stands in a
    place does exactly one of the following.  Blocked (its place shows an
    occupant, the guard if there is one) and not ["cold"]: it stings that
    occupant, which is the occupant's [reduceArmor] with the bee's damage.
    Blocked and ["cold"]: nothing.  Not blocked, with armor above zero and
    not ["stuck"]: it leaves its place and enters the place behind the
    exit.  Not blocked, with no armor left or ["stuck"]: nothing.
    Whenever the turn returns, the status has been reset. *)
Theorem Bee_act_turn (w : World) (b : BeeId) (p : PlaceId) :
  getPlace w (BeeRef b) = Some p ->
  (forall a, Place_getAnt w p = Some a ->
             status (getBeeObj w b) <> Some "cold" ->
     Bee_act b w
     = match reduceArmor (AntRef a) (damage (getBeeObj w b)) w with
       | Ok _ w1 => Ok tt (setStatus b None w1)
       | TypeError w1 => TypeError w1
       end)
  /\ (Place_getAnt w p <> None -> status (getBeeObj w b) = Some "cold" ->
      Bee_act b w = Ok tt (setStatus b None w))
  /\ (forall q, Place_getAnt w p = None ->
                0 < getArmor w (BeeRef b) ->
                status (getBeeObj w b) <> Some "stuck" ->
                exit (getPlaceObj w p) = Some q ->
                p <> q ->
      exists w1,
        Bee_act b w = Ok tt (setStatus b None w1)
        /\ Place_exitBee p b w = Ok tt w1
        /\ getPlace w1 (BeeRef b) = Some q
        /\ Place_getBees w1 q = Place_getBees w q ++ [b]
        /\ Place_getBees w1 p
           = match indexOf b (Place_getBees w p) with
             | Some i => delete i (Place_getBees w p)
             | None => Place_getBees w p
             end)
  /\ (Place_getAnt w p = None ->
      getArmor w (BeeRef b) <= 0 \/ status (getBeeObj w b) = Some "stuck" ->
      Bee_act b w = Ok tt (setStatus b None w))
  /\ (forall w', Bee_act b w = Ok tt w' -> status (getBeeObj w' b) = None).
Proof.
  intros Hp.
  assert (forall blocked : bool, blocked = bool_decide (Place_getAnt w p <> None) ->
          Bee_isBlocked b w = Ok blocked w) as Hblocked.
  { intros ? ->. by apply Bee_isBlocked_at. }
  repeat split.
  - intros a Ha Hs. unfold Bee_act. run.
    rewrite (Hblocked true) by (rewrite Ha; by rewrite bool_decide_true).
    rewrite decide_True by done. run. rewrite Hp. run. rewrite Ha. run.
    unfold Bee_sting. run. simpl.
    by destruct (Ant_reduceArmor a (damage (getBeeObj w b)) w).
  - intros Ha Hs. unfold Bee_act. run.
    rewrite (Hblocked true) by (by rewrite bool_decide_true).
    rewrite decide_False; [by run|]. intros Hn. by apply Hn.
  - intros q Ha Harm Hs He Hpq. unfold Bee_act. run.
    rewrite (Hblocked false) by (rewrite Ha; reflexivity).
    destruct (Z.ltb_spec 0 (getArmor w (BeeRef b))); [|lia].
    rewrite decide_True by done. run. rewrite Hp. run.
    destruct (Place_exitBee_moves p q b w He Hpq) as (w1 & Hex & H1 & H2 & H3).
    exists w1. rewrite Hex. done.
  - intros Ha Hor. unfold Bee_act. run.
    rewrite (Hblocked false) by (rewrite Ha; reflexivity).
    destruct (Z.ltb_spec 0 (getArmor w (BeeRef b))); [|done].
    destruct Hor as [Hor|Hor]; [lia|].
    rewrite decide_False; [by run|]. intros Hn. by apply Hn.
  - apply Bee_act_resets_status.
Qed.

Lemma Bee_act_turn_witness :
  exists w1,
    Bee_act 0 (with_bee 3 1 3 board) = Ok tt (setStatus 0%nat None w1)
    /\ Place_exitBee 3 0 (with_bee 3 1 3 board) = Ok tt w1
    /\ getPlace w1 (BeeRef 0) = Some 2%nat
    /\ Place_getBees w1 2 = Place_getBees (with_bee 3 1 3 board) 2 ++ [0%nat]
    /\ Place_getBees w1 3
       = match indexOf 0 (Place_getBees (with_bee 3 1 3 board) 3) with
         | Some i => delete i (Place_getBees (with_bee 3 1 3 board) 3)
         | None => Place_getBees (with_bee 3 1 3 board) 3
         end.
Proof.
  assert (getPlace (with_bee 3 1 3 board) (BeeRef 0) = Some 3%nat) as Hp
    by reflexivity.
  pose proof (Bee_act_turn (with_bee 3 1 3 board) 0 3 Hp)
    as (_ & _ & Hmove & _).
  apply (Hmove 2%nat).
  - reflexivity.
  - apply Z.ltb_lt. reflexivity.
  - vm_compute. discriminate.
  - reflexivity.
  - lia.
Defined.

(** The claim of C8 says that an attacker that is not blocked and not
    immobilized advances.  [spent_bee] holds such an attacker, with no
    armor left: its turn leaves it where it is. *)
Lemma Bee_act_spent_stays :
  getPlace spent_bee (BeeRef 0) = Some 3%nat
  /\ Place_getAnt spent_bee 3 = None
  /\ status (getBeeObj spent_bee 0) <> Some "stuck"
  /\ exit (getPlaceObj spent_bee 3) = Some 2%nat
  /\ exists w',
       Bee_act 0 spent_bee = Ok tt w'
       /\ getPlace w' (BeeRef 0) = Some 3%nat
       /\ Place_getBees w' 3 = [0%nat]
       /\ Place_getBees w' 2 = [].
Proof.
  repeat split; try (by vm_compute).
  eexists. split; [vm_compute; reflexivity|]. by vm_compute.
Qed.

(** ** The eater's digestion: [EaterAnt.act] and [EaterAnt.reduceArmor] *)

Lemma variant_setTurnsEating (e : AntId) (t t' : Z) (st : PlaceId)
    (w : World) :
  variant (getAntObj w e) = EaterAnt t st ->
  variant (getAntObj (setTurnsEating e t' w) e) = EaterAnt t' st.
Proof.
  intros Hv. unfold setTurnsEating. rewrite Hv.
  store_simpl. by rewrite decide_True.
Qed.

Lemma getBees_setTurnsEating (e : AntId) (t : Z) (p : PlaceId) (w : World) :
  Place_getBees (setTurnsEating e t w) p = Place_getBees w p.
Proof. unfold setTurnsEating. by destruct (variant (getAntObj w e)). Qed.

(** Idle: the eater captures the first bee of its place. *)
Lemma EaterAnt_act_captures (e : AntId) (st q : PlaceId) (b : BeeId)
    (l : list BeeId) (w : World) :
  variant (getAntObj w e) = EaterAnt 0 st ->
  getPlace w (AntRef e) = Some q ->
  Place_getBees w q = b :: l ->
  EaterAnt_act e w
  = Ok tt (setTurnsEating e 1
             (state_of (Place_addBee st b
                          (setPlace (BeeRef b) None (setBees q l w))))).
Proof.
  intros Hv Hq Hb. unfold EaterAnt_act. run.
  unfold turnsEating_of at 1. rewrite Hv. simpl.
  rewrite Hq. run. rewrite getClosestBee_same_cell, Hb. simpl.
  rewrite (Place_removeBee_head _ _ _ _ Hb).
  change (stomach_of (setPlace (BeeRef b) None (setBees q l w)) e)
    with (stomach_of w e).
  unfold stomach_of. rewrite Hv. done.
Qed.

(** Digesting: counters 1, 2 and 3 only count on. *)
Lemma EaterAnt_act_digests (e : AntId) (t : Z) (st : PlaceId) (w : World) :
  variant (getAntObj w e) = EaterAnt t st ->
  1 <= t <= 3 ->
  EaterAnt_act e w = Ok tt (setTurnsEating e (t + 1) w).
Proof.
  intros Hv Ht. unfold EaterAnt_act. run.
  unfold turnsEating_of. rewrite Hv.
  destruct (Z.eqb_spec t 0); [lia|].
  destruct (Z.ltb_spec 3 t); [lia|]. done.
Qed.

(** Counter above 3: the first bee of the stomach is removed from it and
    the counter returns to 0. *)
Lemma EaterAnt_act_releases (e : AntId) (t : Z) (st : PlaceId) (w : World) :
  variant (getAntObj w e) = EaterAnt t st ->
  3 < t ->
  EaterAnt_act e w
  = Ok tt (setTurnsEating e 0
             match Place_getBees w st with
             | b :: l => setPlace (BeeRef b) None (setBees st l w)
             | [] => w
             end).
Proof.
  intros Hv Ht. unfold EaterAnt_act. run.
  unfold turnsEating_of, stomach_of. rewrite Hv.
  destruct (Z.eqb_spec t 0); [lia|].
  destruct (Z.ltb_spec 3 t); [|lia]. run. rewrite ?Hv.
  destruct (Place_getBees w st) as [|b l] eqn:Hb; simpl; [done|].
  by rewrite (Place_removeBee_head _ _ _ _ Hb).
Qed.

(** The state of the digestion after [n] cycles that started with the
    counter at [t], between 1 and 4. *)
Lemma cycles_digest (e : AntId) (st : PlaceId) (n : nat) :
  forall (t : Z) (w w' : World),
    variant (getAntObj w e) = EaterAnt t st ->
    1 <= t <= 4 ->
    t + Z.of_nat n <= 5 ->
    cycles e n w w' ->
    variant (getAntObj w' e)
    = EaterAnt (if decide (t + Z.of_nat n <= 4) then t + Z.of_nat n else 0) st
    /\ Place_getBees w' st
       = (if decide (t + Z.of_nat n <= 4)
          then Place_getBees w st else tail (Place_getBees w st)).
Proof.
  induction n as [|n IH]; intros t w w' Hv Ht Hn Hc.
  - inversion Hc; subst. change (Z.of_nat 0) with 0. rewrite Z.add_0_r.
    rewrite !decide_True by lia. done.
  - inversion Hc as [|n' w0 w1 w2 w3 [Hk1 Hk2] Hact Hrest]; subst.
    assert (variant (getAntObj w1 e) = EaterAnt t st) as Hv1
      by (by rewrite Hk1).
    assert (Place_getBees w1 st = Place_getBees w st) as Hl1.
    { unfold stomach_of in Hk2. by rewrite Hv in Hk2. }
    destruct (decide (t <= 3)) as [H3|H3].
    + rewrite (EaterAnt_act_digests e t st w1 Hv1) in Hact by lia.
      injection Hact as <-.
      destruct (IH (t + 1) _ w' (variant_setTurnsEating e t (t + 1) st w1 Hv1)
                   ltac:(lia) ltac:(lia) Hrest) as [Hv' Hl'].
      rewrite getBees_setTurnsEating, Hl1 in Hl'.
      replace (t + 1 + Z.of_nat n) with (t + Z.of_nat (S n)) in * by lia.
      done.
    + assert (n = O) as -> by lia.
      rewrite (EaterAnt_act_releases e t st w1 Hv1) in Hact by lia.
      injection Hact as <-. inversion Hrest; subst.
      rewrite !decide_False by lia. split.
      * apply (variant_setTurnsEating e t 0 st).
        by destruct (Place_getBees w1 st).
      * rewrite getBees_setTurnsEating.
        rewrite <- Hl1.
        destruct (Place_getBees w1 st) as [|b l'] eqn:Hb; [done|].
        store_simpl. by rewrite decide_True.
Qed.

(** Cycles can be run: with nothing happening in between, [n] successive
    actions of a digesting eater all return. *)
Lemma cycles_run (e : AntId) (st : PlaceId) (n : nat) :
  forall (t : Z) (w : World),
    variant (getAntObj w e) = EaterAnt t st ->
    1 <= t <= 4 ->
    t + Z.of_nat n <= 5 ->
    exists w', cycles e n w w'.
Proof.
  induction n as [|n IH]; intros t w Hv Ht Hn.
  - exists w. constructor.
  - destruct (decide (t <= 3)) as [H3|H3].
    + destruct (IH (t + 1) _ (variant_setTurnsEating e t (t + 1) st w Hv)
                   ltac:(lia) ltac:(lia)) as [w' Hc].
      exists w'.
      apply (cycles_S e n w w (setTurnsEating e (t + 1) w) w'); [done| |done].
      apply (EaterAnt_act_digests e t st w Hv). lia.
    + assert (n = O) as -> by lia.
      eexists. eapply (cycles_S e 0 w w); [done| |constructor].
      apply (EaterAnt_act_releases e t st w Hv). lia.
Qed.

(** A digesting eater's cycle always returns. *)
Lemma EaterAnt_act_digesting_returns (e : AntId) (t : Z) (st : PlaceId)
    (w : World) :
  variant (getAntObj w e) = EaterAnt t st ->
  1 <= t ->
  exists w', EaterAnt_act e w = Ok tt w'.
Proof.
  intros Hv Ht. destruct (decide (t <= 3)).
  - rewrite (EaterAnt_act_digests e t st w Hv) by lia. eauto.
  - rewrite (EaterAnt_act_releases e t st w Hv) by lia. eauto.
Qed.

(** A hit the eater survives while its counter is 1. *)
Lemma EaterAnt_reduceArmor_regurgitates (e : AntId) (st q : PlaceId)
    (b : BeeId) (l : list BeeId) (amount : Z) (w : World) :
  variant (getAntObj w e) = EaterAnt 1 st ->
  getPlace w (AntRef e) = Some q ->
  Place_getBees w st = b :: l ->
  st <> q ->
  0 < getArmor w (AntRef e) - amount ->
  exists w',
    EaterAnt_reduceArmor e amount w = Ok false w'
    /\ turnsEating_of w' e = 3
    /\ Place_getBees w' q = Place_getBees w q ++ [b]
    /\ Place_getBees w' st = l
    /\ getPlace w' (BeeRef b) = Some q
    /\ getArmor w' (AntRef e) = getArmor w (AntRef e) - amount.
Proof.
  intros Hv Hq Hb Hne Harm.
  unfold EaterAnt_reduceArmor. run.
  rewrite getArmor_setArmor.
  destruct (Z.ltb_spec 0 (getArmor w (AntRef e) - amount)); [|lia].
  set (w1 := setArmor (AntRef e) (getArmor w (AntRef e) - amount) w).
  assert (variant (getAntObj w1 e) = EaterAnt 1 st) as Hv1.
  { unfold w1. store_simpl. by rewrite decide_True. }
  assert (getPlace w1 (AntRef e) = Some q) as Hq1.
  { unfold w1. by rewrite getPlace_setArmor. }
  assert (getArmor w1 (AntRef e) = getArmor w (AntRef e) - amount) as Ha1.
  { unfold w1. by rewrite getArmor_setArmor. }
  assert (forall p, getPlaceObj w1 p = getPlaceObj w p) as Hp1 by done.
  assert (turnsEating_of w1 e = 1) as ->
    by (unfold turnsEating_of; by rewrite Hv1).
  clearbody w1. simpl.
  rewrite (EaterAnt_coughUp_moves e st q b l);
    [|by unfold stomach_of; rewrite Hv1|done
     |by unfold Place_getBees; rewrite Hp1].
  unfold Place_addBee. run.
  eexists. split; [reflexivity|].
  unfold setTurnsEating.
  match goal with |- context [variant (getAntObj ?x e)] =>
    change (variant (getAntObj x e)) with (variant (getAntObj w1 e)) end.
  rewrite Hv1.
  store_simpl. repeat case_decide; subst; simpl; rewrite ?Hp1; try done.
Qed.

(** C5.  An eater that stands in a place with an empty stomach and finds
    an attacker in its cell captures it: the counter goes from 0 to 1 and
    the attacker is held in the stomach.  With no [reduceArmor] call
    afterwards, the attacker is still held after each of the next three
    action-cycles, while the counter counts 2, 3, 4, and the fourth cycle
    after the capture removes it from the stomach for good and resets the
    counter to 0; each of these cycles returns.  A hit that the eater
    survives while the counter is 1 moves the held attacker back to the end
    of the bees of the eater's cell and sets the counter to 3. *)
Theorem eater_digestion_cycle (w : World) (e : AntId) (st q : PlaceId)
    (b : BeeId) :
  variant (getAntObj w e) = EaterAnt 0 st ->
  getPlace w (AntRef e) = Some q ->
  st <> q ->
  Place_getBees w st = [] ->
  Place_getClosestBee w q 0 0 = Some b ->
  exists w1,
    EaterAnt_act e w = Ok tt w1
    /\ turnsEating_of w1 e = 1
    /\ Place_getBees w1 st = [b]
    /\ getPlace w1 (BeeRef b) = Some st
    /\ (forall (n : nat) (w' : World),
          (n <= 3)%nat -> cycles e n w1 w' ->
          turnsEating_of w' e = 1 + Z.of_nat n
          /\ Place_getBees w' st = [b]
          /\ forall w'', eater_kept e w' w'' ->
                         exists w3, EaterAnt_act e w'' = Ok tt w3)
    /\ (exists w' : World, cycles e 4 w1 w')
    /\ (forall w' : World,
          cycles e 4 w1 w' ->
          turnsEating_of w' e = 0 /\ Place_getBees w' st = [])
    /\ (forall amount : Z,
          0 < getArmor w1 (AntRef e) - amount ->
          exists w2,
            reduceArmor (AntRef e) amount w1 = Ok false w2
            /\ turnsEating_of w2 e = 3
            /\ Place_getBees w2 q = Place_getBees w1 q ++ [b]
            /\ Place_getBees w2 st = []
            /\ getPlace w2 (BeeRef b) = Some q
            /\ getArmor w2 (AntRef e) = getArmor w1 (AntRef e) - amount).
Proof.
  intros Hv Hq Hne Hst Hb.
  rewrite getClosestBee_same_cell in Hb.
  destruct (Place_getBees w q) as [|b' l] eqn:Hbq; [done|].
  injection Hb as ->.
  rewrite (EaterAnt_act_captures e st q b l w Hv Hq Hbq).
  eexists. split; [reflexivity|].
  match goal with |- context [turnsEating_of ?x e = 1] => set (w1 := x) end.
  assert (variant (getAntObj w1 e) = EaterAnt 1 st) as Hv1.
  { unfold w1. apply (variant_setTurnsEating e 0). exact Hv. }
  assert (Place_getBees w1 st = [b]) as Hst1.
  { unfold w1. rewrite getBees_setTurnsEating.
    store_simpl. repeat case_decide; subst; simpl; try done.
    by rewrite Hst. }
  assert (getPlace w1 (AntRef e) = Some q) as Hq1.
  { unfold w1, setTurnsEating.
    change (variant (getAntObj _ e)) with (variant (getAntObj w e)).
    rewrite Hv. store_simpl. by rewrite decide_True. }
  assert (getPlace w1 (BeeRef b) = Some st) as Hb1.
  { unfold w1, setTurnsEating.
    change (variant (getAntObj _ e)) with (variant (getAntObj w e)).
    rewrite Hv. store_simpl. by rewrite decide_True. }
  clearbody w1.
  split; [by unfold turnsEating_of; rewrite Hv1|].
  split; [done|]. split; [done|].
  split; [|split; [|split]].
  - intros n w' Hn Hc.
    destruct (cycles_digest e st n 1 w1 w' Hv1 ltac:(lia) ltac:(lia) Hc)
      as [Hv' Hl'].
    rewrite decide_True in Hv' by lia. rewrite decide_True in Hl' by lia.
    rewrite Hst1 in Hl'.
    split; [by unfold turnsEating_of; rewrite Hv'|].
    split; [done|].
    intros w'' [Hk _].
    apply (EaterAnt_act_digesting_returns e (1 + Z.of_nat n) st).
    + by rewrite Hk.
    + lia.
  - apply (cycles_run e st 4 1 w1 Hv1); lia.
  - intros w' Hc.
    destruct (cycles_digest e st 4 1 w1 w' Hv1 ltac:(lia) ltac:(lia) Hc)
      as [Hv' Hl'].
    rewrite decide_False in Hv' by lia. rewrite decide_False in Hl' by lia.
    rewrite Hst1 in Hl'.
    split; [by unfold turnsEating_of; rewrite Hv'|done].
  - intros amount Harm. simpl. unfold Ant_reduceArmor. rewrite Hv1.
    by apply (EaterAnt_reduceArmor_regurgitates e st q b [] amount w1).
Qed.

Lemma eater_digestion_cycle_witness :
  exists w1,
    EaterAnt_act 0 eater_meets_bee = Ok tt w1
    /\ turnsEating_of w1 0 = 1
    /\ Place_getBees w1 5 = [0%nat]
    /\ (exists w', cycles 0 4 w1 w')
    /\ (forall w', cycles 0 4 w1 w' ->
                   turnsEating_of w' 0 = 0 /\ Place_getBees w' 5 = []).
Proof.
  destruct (eater_digestion_cycle eater_meets_bee 0 5 3 0)
    as (w1 & H1 & H2 & H3 & _ & _ & H5 & H6 & _);
    [reflexivity|reflexivity|lia|reflexivity|reflexivity|].
  exists w1. repeat split; assumption || apply H6; assumption.
Defined.

(** ** The command surface: coordinates *)

Lemma split_cons (c : ascii) (s : string) :
  exists x xs, split c s = x :: xs.
Proof.
  destruct s as [|a s]; simpl; [eauto|].
  destruct (Ascii.eqb a c); [eauto|].
  destruct (split c s); eauto.
Qed.

Lemma array_index_undefined : array_index "undefined" = None.
Proof. reflexivity. Qed.

Section Commands.

Variable am : string -> bool.
Variable om : string -> bool.

Lemma array_get_Element {A : Type} (xs : list A) (key : string) (x : A) :
  array_get am xs key = Element x
  <-> exists i, array_index key = Some i /\ xs !! i = Some x.
Proof.
  unfold array_get. destruct (array_index key) as [i|].
  - destruct (xs !! i) as [y|] eqn:Hy.
    + split; [intros [= ->]; eauto|]. intros (j & [= <-] & Hj). congruence.
    + split; [done|]. intros (j & [= <-] & Hj). congruence.
  - destruct (am key); split; try done; by intros (j & ? & _).
Qed.

(** A coordinate that names a cell resolves to it. *)
Lemma lookupPlace_cell (w : World) (s : string) (p : PlaceId) :
  coordinate_cell w s = Some p -> lookupPlace am s w = Ok (Some p) w.
Proof.
  unfold coordinate_cell, lookupPlace. run.
  destruct (split "," s) as [|lane [|step rest]]; try done. simpl.
  destruct (array_index lane) as [i|] eqn:Hi; [|done]. simpl.
  destruct (array_index step) as [j|] eqn:Hj; [|done]. simpl.
  destruct (places w !! i) as [row|] eqn:Hrow; [|done]. simpl.
  intros Hp. unfold array_get. by rewrite Hi, Hrow, Hj, Hp.
Qed.

(** A coordinate that names no cell raises when the lane field reads as
    [undefined], and otherwise gives a value that is not a place. *)
Lemma lookupPlace_no_cell (w : World) (s : string) :
  coordinate_cell w s = None ->
  lookupPlace am s w
  = match array_get am (places w) (lane_key s) with
    | Undefined => TypeError w
    | _ => Ok None w
    end.
Proof.
  unfold coordinate_cell, lookupPlace, lane_key. run.
  destruct (split_cons "," s) as (lane & rest & ->). simpl.
  destruct (array_get am (places w) lane) as [|row|] eqn:Hrow; try done.
  apply array_get_Element in Hrow as (i & Hi & Hrow).
  destruct rest as [|step rest]; simpl.
  - intros _. unfold array_get. rewrite array_index_undefined.
    by destruct (am "undefined").
  - rewrite Hi. simpl. rewrite Hrow. simpl.
    destruct (array_get am row step) as [|p|] eqn:Hp; try done.
    apply array_get_Element in Hp as (j & Hj & Hp).
    rewrite Hj. simpl. congruence.
Qed.

(** The constructors return an ant of the cost of its type and leave
    the colony's own fields alone. *)
Lemma antConstructor_new (antType : string) (w : World) :
  match antConstructor antType, foodCost_of_type antType with
  | Some construct, Some c =>
      exists a w1, construct w = Ok a w1
                   /\ foodCost (getAntObj w1 a) = c
                   /\ places w1 = places w
                   /\ food w1 = food w
                   /\ boosts w1 = boosts w
  | None, None => True
  | _, _ => False
  end.
Proof.
  unfold antConstructor, foodCost_of_type.
  repeat (destruct (String.eqb _ _);
          [eexists _, _; split; [reflexivity|]; store_simpl;
           by rewrite decide_True|]).
  done.
Qed.

(** [AntColony.deployAnt] on a value that is not a place. *)
Lemma deployAnt_not_a_place (a : AntId) (w : World) :
  AntColony_deployAnt a None w
  = if foodCost (getAntObj w a) <=? food w
    then TypeError w else Ok (Some "not enough food") w.
Proof.
  unfold AntColony_deployAnt. run.
  by destruct (foodCost (getAntObj w a) <=? food w).
Qed.

(** [AntColony.applyBoost] on a value that is not a place. *)
Lemma applyBoost_not_a_place (b : string) (w : World) :
  AntColony_applyBoost om b None w
  = if boost_missing om w b
    then Ok (Some "no such boost") w else TypeError w.
Proof.
  unfold AntColony_applyBoost. run.
  by destruct (boost_missing om w b).
Qed.

(** None of the three commands lets an exception out. *)
Lemma commands_never_raise (w : World) (t b s : string) :
  (exists r w', AntGame_deployAnt am t s w = Ok r w')
  /\ (exists r w', AntGame_removeAnt am s w = Ok r w')
  /\ (exists r w', AntGame_boostAnt am om b s w = Ok r w').
Proof.
  split; [|split].
  - unfold AntGame_deployAnt.
    pose proof (antConstructor_new t w) as Hc.
    destruct (antConstructor t) as [construct|]; [|eauto].
    destruct (foodCost_of_type t); [|done].
    destruct Hc as (a & w1 & Hc & _). run. rewrite Hc.
    match goal with |- context [match ?c with _ => _ end] => destruct c end;
      eauto.
  - unfold AntGame_removeAnt. run.
    match goal with |- context [match ?c with _ => _ end] => destruct c end;
      eauto.
  - unfold AntGame_boostAnt. run.
    match goal with |- context [match ?c with _ => _ end] => destruct c end;
      eauto.
Qed.

(** C2, as the code has it.  Let the first two fields of a coordinate
    string name no cell of the grid.  Then [remove] answers
    ["illegal location"] and changes nothing.  [deploy] answers
    ["unknown ant type"] when the type name selects no variant;
    otherwise it answers ["illegal location"] provided the lane field
    reads as [undefined] or the food covers the cost of the variant.
    [boost] answers ["illegal location"] provided the lane field reads
    as [undefined] or the boost is available.  None of the three
    commands raises. *)
Theorem illegal_location (w : World) (s : string) :
  coordinate_cell w s = None ->
  AntGame_removeAnt am s w = Ok (Some "illegal location") w
  /\ (forall t, foodCost_of_type t = None ->
        AntGame_deployAnt am t s w = Ok (Some "unknown ant type") w)
  /\ (forall t c, foodCost_of_type t = Some c ->
        array_get am (places w) (lane_key s) = Undefined \/ c <= food w ->
        result_of (AntGame_deployAnt am t s w)
        = Some (Some "illegal location"))
  /\ (forall b,
        array_get am (places w) (lane_key s) = Undefined
        \/ boost_missing om w b = false ->
        AntGame_boostAnt am om b s w = Ok (Some "illegal location") w)
  /\ (forall t b,
        (exists r w', AntGame_deployAnt am t s w = Ok r w')
        /\ (exists r w', AntGame_boostAnt am om b s w = Ok r w')).
Proof.
  intros Hs. pose proof (lookupPlace_no_cell w s Hs) as Hl.
  split; [|split; [|split; [|split]]].
  - unfold AntGame_removeAnt. run. rewrite Hl.
    by destruct (array_get am (places w) (lane_key s)).
  - intros t Ht. unfold AntGame_deployAnt.
    pose proof (antConstructor_new t w) as Hc. rewrite Ht in Hc.
    by destruct (antConstructor t).
  - intros t c Ht Hor. unfold AntGame_deployAnt.
    pose proof (antConstructor_new t w) as Hc. rewrite Ht in Hc.
    destruct (antConstructor t) as [construct|]; [|done].
    destruct Hc as (a & w1 & Hc & Hcost & Hpl & Hfood & _).
    run. rewrite Hc.
    assert (coordinate_cell w1 s = None) as Hs1
      by (unfold coordinate_cell in *; by rewrite Hpl).
    rewrite (lookupPlace_no_cell w1 s Hs1), Hpl.
    destruct (array_get am (places w) (lane_key s)) eqn:Hlane; try done.
    + destruct Hor as [|Hor]; [done|].
      rewrite deployAnt_not_a_place, Hcost, Hfood.
      by destruct (Z.leb_spec c (food w)); [|lia].
    + destruct Hor as [|Hor]; [done|].
      rewrite deployAnt_not_a_place, Hcost, Hfood.
      by destruct (Z.leb_spec c (food w)); [|lia].
  - intros b Hor. unfold AntGame_boostAnt. run. rewrite Hl.
    destruct (array_get am (places w) (lane_key s)) eqn:Hlane; try done.
    + destruct Hor as [|Hor]; [done|].
      by rewrite applyBoost_not_a_place, Hor.
    + destruct Hor as [|Hor]; [done|].
      by rewrite applyBoost_not_a_place, Hor.
  - intros t b.
    destruct (commands_never_raise w t b s) as (Hd & _ & Hb). done.
Qed.

End Commands.

Lemma illegal_location_witness :
  AntGame_removeAnt some_array_members "0,99" board
  = Ok (Some "illegal location") board
  /\ result_of (AntGame_deployAnt some_array_members "Thrower" "0,99" board)
     = Some (Some "illegal location")
  /\ AntGame_boostAnt some_array_members some_object_members
                      "IcyLeaf" "0,99" board
     = Ok (Some "illegal location") board.
Proof.
  destruct (illegal_location some_array_members some_object_members
                             board "0,99" eq_refl)
    as (Hr & _ & Hd & Hb & _).
  split; [exact Hr|]. split.
  - apply (Hd "Thrower" 4); [reflexivity|]. right.
    apply Z.leb_le. reflexivity.
  - apply Hb. right. reflexivity.
Defined.

(** The claim of C2 asks for ["illegal location"] on every coordinate
    string that is not a pair of an in-range lane and step, whatever the
    other arguments.  On the board of one lane of three steps: with no
    food, deploying at ["0,99"] answers ["not enough food"]; boosting at
    ["0,99"] with a boost the colony does not have answers
    ["no such boost"]; deploying an unknown type at ["7,7"] answers
    ["unknown ant type"]; and removing at ["0,1,2"], which has three
    fields, succeeds. *)
Lemma illegal_location_counterexample :
  coordinate_cell (setFood 0 board) "0,99" = None
  /\ result_of (AntGame_deployAnt some_array_members "thrower" "0,99"
                                  (setFood 0 board))
     <> Some (Some "illegal location")
  /\ result_of (AntGame_deployAnt some_array_members "thrower" "0,99"
                                  (setFood 0 board))
     = Some (Some "not enough food")
  /\ result_of (AntGame_boostAnt some_array_members some_object_members
                                 "Honey" "0,99" board)
     = Some (Some "no such boost")
  /\ coordinate_cell board "7,7" = None
  /\ result_of (AntGame_deployAnt some_array_members "wizard" "7,7" board)
     = Some (Some "unknown ant type")
  /\ split "," "0,1,2" = ["0"; "1"; "2"]
  /\ result_of (AntGame_removeAnt some_array_members "0,1,2" board)
     = Some None.
Proof.
  repeat split; try (by vm_compute).
Qed.

(** * Further properties of the code *)

(** ** What the writes leave alone *)

Lemma getBees_setBees (p p' : PlaceId) (l : list BeeId) (w : World) :
  Place_getBees (setBees p l w) p'
  = if decide (p = p') then l else Place_getBees w p'.
Proof. store_simpl. by case_decide. Qed.

Lemma getBees_setPlace (r : InsectRef) (x : option PlaceId) (w : World)
    (p : PlaceId) :
  Place_getBees (setPlace r x w) p = Place_getBees w p.
Proof. by destruct r. Qed.

Lemma getBees_setArmor (r : InsectRef) (v : Z) (w : World) (p : PlaceId) :
  Place_getBees (setArmor r v w) p = Place_getBees w p.
Proof. by destruct r. Qed.

Lemma getBees_setAntSlot (q : PlaceId) (a : option AntId) (w : World)
    (p : PlaceId) :
  Place_getBees (setAntSlot q a w) p = Place_getBees w p.
Proof. store_simpl. by case_decide; subst. Qed.

Lemma getBees_setGuardSlot (q : PlaceId) (a : option AntId) (w : World)
    (p : PlaceId) :
  Place_getBees (setGuardSlot q a w) p = Place_getBees w p.
Proof. store_simpl. by case_decide; subst. Qed.

Lemma getPlace_bee_setPlace (b b' : BeeId) (x : option PlaceId) (w : World) :
  getPlace (setPlace (BeeRef b) x w) (BeeRef b')
  = if decide (b = b') then x else getPlace w (BeeRef b').
Proof. store_simpl. by case_decide. Qed.

Lemma getPlace_bee_setArmor (r : InsectRef) (v : Z) (w : World) (b : BeeId) :
  getPlace (setArmor r v w) (BeeRef b) = getPlace w (BeeRef b).
Proof. destruct r; store_simpl; [done|]. by case_decide; subst. Qed.

Lemma getArmor_bee_setPlace (r : InsectRef) (x : option PlaceId) (w : World)
    (b : BeeId) :
  getArmor (setPlace r x w) (BeeRef b) = getArmor w (BeeRef b).
Proof. destruct r; store_simpl; [done|]. by case_decide; subst. Qed.

Lemma getArmor_setArmor_other (r r' : InsectRef) (v : Z) (w : World) :
  r <> r' -> getArmor (setArmor r v w) r' = getArmor w r'.
Proof.
  intros Hne. destruct r, r'; store_simpl; try done.
  all: case_decide; subst; done.
Qed.

(** ** [indexOf] and [splice] *)

Lemma indexOf_None (b : BeeId) (l : list BeeId) :
  indexOf b l = None <-> b ∉ l.
Proof.
  induction l as [|x l IH]; simpl.
  - split; [intros _; apply not_elem_of_nil|done].
  - rewrite not_elem_of_cons. case_decide as Hx.
    + split; [done|]. intros [Hn _]. by subst.
    + rewrite fmap_None, IH. split; [by intros; split|by intros [_ ?]].
Qed.

Lemma indexOf_Some (b : BeeId) (l : list BeeId) (i : nat) :
  indexOf b l = Some i -> l !! i = Some b /\ b ∉ take i l.
Proof.
  revert i. induction l as [|x l IH]; intros i; simpl; [done|].
  case_decide as Hx.
  - intros [= <-]. subst. split; [done|]. apply not_elem_of_nil.
  - destruct (indexOf b l) as [j|]; [|done]. intros [= <-].
    destruct (IH j eq_refl) as [Hj Hn]. split; [done|].
    simpl. rewrite not_elem_of_cons. split; [congruence|done].
Qed.

Lemma elem_of_delete_inv (l : list BeeId) (i : nat) (x : BeeId) :
  x ∈ delete i l -> x ∈ l.
Proof.
  revert i. induction l as [|y l IH]; intros [|i]; simpl; try done.
  - intros. by right.
  - rewrite !elem_of_cons. intros [->|H]; [by left|right; by apply (IH i)].
Qed.

Lemma NoDup_delete (l : list BeeId) (i : nat) : NoDup l -> NoDup (delete i l).
Proof.
  revert i. induction l as [|y l IH]; intros [|i]; simpl; try done.
  - by intros [_ ?]%NoDup_cons.
  - intros [Hy Hl]%NoDup_cons. apply NoDup_cons. split; [|by apply IH].
    intros Hin. by apply Hy, (elem_of_delete_inv l i).
Qed.

Lemma not_elem_of_delete_NoDup (l : list BeeId) (i : nat) (b : BeeId) :
  NoDup l -> l !! i = Some b -> b ∉ delete i l.
Proof.
  revert i. induction l as [|y l IH]; intros [|i]; simpl; try done.
  - intros [Hy _]%NoDup_cons [= ->]. done.
  - intros [Hy Hl]%NoDup_cons Hi. rewrite not_elem_of_cons. split.
    + intros ->. apply Hy. by apply list_elem_of_lookup_2 in Hi.
    + by apply IH.
Qed.

Lemma elem_of_delete_other (l : list BeeId) (i : nat) (b x : BeeId) :
  l !! i = Some b -> x <> b -> x ∈ l -> x ∈ delete i l.
Proof.
  revert i. induction l as [|y l IH]; intros [|i]; simpl; try done.
  - intros [= ->] Hne. rewrite elem_of_cons. by intros [?|?].
  - intros Hi Hne. rewrite !elem_of_cons.
    intros [->|Hin]; [by left|right; by apply (IH i)].
Qed.

(** ** The two cases of [Place.removeAnt] *)

Lemma Place_removeAnt_guard (w : World) (p : PlaceId) (g : AntId) :
  guard (getPlaceObj w p) = Some g ->
  Place_removeAnt p w = Ok (Some g) (setGuardSlot p None w).
Proof. unfold Place_removeAnt. by intros ->. Qed.

Lemma Place_removeAnt_no_guard (w : World) (p : PlaceId) :
  guard (getPlaceObj w p) = None ->
  Place_removeAnt p w = Ok (ant (getPlaceObj w p)) (setAntSlot p None w).
Proof. unfold Place_removeAnt. by intros ->. Qed.

(** ** The hazard rule: [Place.act] and [AntColony.placesAct] *)

(** What one [Place.act] does, for the use of the lemmas on the grid. *)
Lemma Place_act_effect (w : World) (p : PlaceId) :
  exists w',
    Place_act p w = Ok tt w'
    /\ (water (getPlaceObj w p) = false -> w' = w)
    /\ (water (getPlaceObj w p) = true ->
        guard (getPlaceObj w' p) = None
        /\ ant (getPlaceObj w' p)
           = if isScubaAnt w (ant (getPlaceObj w p))
             then ant (getPlaceObj w p) else None)
    /\ (forall p', p' <> p -> getPlaceObj w' p' = getPlaceObj w p')
    /\ antStore w' = antStore w
    /\ beeStore w' = beeStore w
    /\ (forall p', Place_getBees w' p' = Place_getBees w p')
    /\ water (getPlaceObj w' p) = water (getPlaceObj w p)
    /\ places w' = places w.
Proof.
  unfold Place_act. run.
  destruct (water (getPlaceObj w p)) eqn:Hw.
  2:{ exists w. repeat split; done. }
  destruct (guard (getPlaceObj w p)) as [g|] eqn:Hg; run.
  - rewrite (Place_removeAnt_guard w p g Hg). run.
    assert (ant (getPlaceObj (setGuardSlot p None w) p) = ant (getPlaceObj w p))
      as Ha by (store_simpl; by rewrite decide_True).
    assert (guard (getPlaceObj (setGuardSlot p None w) p) = None)
      as Hg' by (store_simpl; by rewrite decide_True).
    rewrite Ha.
    change (isScubaAnt (setGuardSlot p None w) (ant (getPlaceObj w p)))
      with (isScubaAnt w (ant (getPlaceObj w p))).
    destruct (isScubaAnt w (ant (getPlaceObj w p))); run.
    + eexists. split; [reflexivity|].
      repeat split; intros; store_simpl; repeat case_decide; subst; simpl;
        rewrite ?Hg; try done.
    + rewrite (Place_removeAnt_no_guard _ p Hg'). run.
      eexists. split; [reflexivity|].
      repeat split; intros; store_simpl; repeat case_decide; subst; simpl;
        rewrite ?Hg; try done.
  - destruct (isScubaAnt w (ant (getPlaceObj w p))); run.
    + exists w. rewrite Hw. repeat split; done.
    + rewrite (Place_removeAnt_no_guard w p Hg). run.
      eexists. split; [reflexivity|].
      repeat split; intros; store_simpl; repeat case_decide; subst; simpl;
        rewrite ?Hg; try done.
Qed.

(** X1.  [Place.act] does nothing on a place that is not water.  On water
    it returns with the guard slot empty and with the ant slot holding
    what it held if that is a scuba ant, and nothing otherwise; whether
    the ant is under a guard makes no difference.  No other place, no
    insect and no bee list is written: the expelled ants keep their
    fields, back-reference included. *)
Theorem Place_act_hazard (w : World) (p : PlaceId) :
  exists w',
    Place_act p w = Ok tt w'
    /\ (water (getPlaceObj w p) = false -> w' = w)
    /\ (water (getPlaceObj w p) = true ->
        guard (getPlaceObj w' p) = None
        /\ ant (getPlaceObj w' p)
           = if isScubaAnt w (ant (getPlaceObj w p))
             then ant (getPlaceObj w p) else None)
    /\ (forall p', p' <> p -> getPlaceObj w' p' = getPlaceObj w p')
    /\ antStore w' = antStore w
    /\ beeStore w' = beeStore w
    /\ (forall p', Place_getBees w' p' = Place_getBees w p').
Proof.
  destruct (Place_act_effect w p) as (w' & H1 & H2 & H3 & H4 & H5 & H6 & H7 & _).
  exists w'. repeat split; try done; by apply H3.
Qed.

Lemma isScubaAnt_antStore (w w' : World) (a : option AntId) :
  antStore w' = antStore w -> isScubaAnt w' a = isScubaAnt w a.
Proof.
  intros H. destruct a as [x|]; [|done]. unfold isScubaAnt, getAntObj.
  by rewrite H.
Qed.

Lemma Place_act_keeps_hazard_free (w : World) (q p : PlaceId) :
  exists w',
    Place_act q w = Ok tt w'
    /\ hazard_free w' q
    /\ (hazard_free w p -> hazard_free w' p)
    /\ (q <> p -> getPlaceObj w' p = getPlaceObj w p).
Proof.
  destruct (Place_act_effect w q)
    as (w' & H1 & H2 & H3 & H4 & H5 & H6 & H7 & H8 & H9).
  exists w'. split; [done|].
  assert (hazard_free w' q) as Hq.
  { unfold hazard_free. rewrite H8. intros Hw.
    destruct (H3 Hw) as [Hg Ha]. split; [done|]. rewrite Ha.
    rewrite (isScubaAnt_antStore w w') by done.
    destruct (isScubaAnt w (ant (getPlaceObj w q))) eqn:Hs; [by right|by left]. }
  split; [done|]. split; [|intros Hne; apply H4; congruence].
  destruct (decide (q = p)) as [->|Hne]; [done|].
  unfold hazard_free. rewrite (H4 p) by congruence.
  by rewrite (isScubaAnt_antStore w w').
Qed.

Lemma forEach_Place_act (l : list PlaceId) :
  forall w : World,
    exists w',
      forEach Place_act l w = Ok tt w'
      /\ (forall x, x ∈ l -> hazard_free w' x)
      /\ (forall x, hazard_free w x -> hazard_free w' x)
      /\ (forall x, x ∉ l -> getPlaceObj w' x = getPlaceObj w x)
      /\ places w' = places w.
Proof.
  induction l as [|q l IH]; intros w.
  - exists w. split; [done|]. split; [|done].
    intros x Hx. by apply elem_of_nil in Hx.
  - simpl. run.
    destruct (Place_act_effect w q)
      as (w1 & H1 & _ & _ & _ & _ & _ & _ & _ & Hpl).
    rewrite H1.
    destruct (IH w1) as (w' & Hrun & Hin & Hkeep & Hout & Hpl').
    exists w'. split; [done|]. split; [|split; [|split]].
    + intros x [->|Hx]%elem_of_cons; [|by apply Hin].
      apply Hkeep.
      destruct (Place_act_keeps_hazard_free w q q) as (w2 & H2 & Hq & _).
      rewrite H1 in H2. by injection H2 as ->.
    + intros x Hx. apply Hkeep.
      destruct (Place_act_keeps_hazard_free w q x) as (w2 & H2 & _ & Hk & _).
      rewrite H1 in H2. injection H2 as ->. by apply Hk.
    + intros x [Hne Hx]%not_elem_of_cons. rewrite (Hout x Hx).
      destruct (Place_act_keeps_hazard_free w q x) as (w2 & H2 & _ & _ & Hf).
      rewrite H1 in H2. injection H2 as ->. apply Hf. congruence.
    + congruence.
Qed.

Lemma forEach_rows_Place_act (rows : list (list PlaceId)) :
  forall w : World,
    exists w',
      forEach (fun row => forEach Place_act row) rows w = Ok tt w'
      /\ (forall row x, row ∈ rows -> x ∈ row -> hazard_free w' x)
      /\ (forall x, hazard_free w x -> hazard_free w' x)
      /\ (forall x, (forall row, row ∈ rows -> x ∉ row) ->
                    getPlaceObj w' x = getPlaceObj w x)
      /\ places w' = places w.
Proof.
  induction rows as [|row rows IH]; intros w.
  - exists w. split; [done|]. split; [|done].
    intros row x Hr. by apply elem_of_nil in Hr.
  - simpl. run.
    destruct (forEach_Place_act row w) as (w1 & H1 & Hin & Hkeep & Hout & Hpl).
    rewrite H1.
    destruct (IH w1) as (w' & Hrun & Hin' & Hkeep' & Hout' & Hpl').
    exists w'. split; [done|]. split; [|split; [|split]].
    + intros r x [->|Hr]%elem_of_cons Hx; [|by apply (Hin' r)].
      by apply Hkeep', Hin.
    + intros x Hx. by apply Hkeep', Hkeep.
    + intros x Hx. rewrite Hout'.
      * apply Hout. apply Hx. by left.
      * intros r Hr. apply Hx. by right.
    + congruence.
Qed.

(** X2.  [AntColony.placesAct] always returns, and afterwards every water
    cell of the grid is free of the hazard: no guard stands in it, and its
    ant slot is empty or holds a scuba ant.  Places outside the grid are
    left as they were. *)
Theorem placesAct_clears_water (w : World) :
  exists w',
    AntColony_placesAct w = Ok tt w'
    /\ (forall row p, row ∈ places w -> p ∈ row -> hazard_free w' p)
    /\ (forall p, (forall row, row ∈ places w -> p ∉ row) ->
                  getPlaceObj w' p = getPlaceObj w p)
    /\ places w' = places w.
Proof.
  unfold AntColony_placesAct. run.
  destruct (forEach_rows_Place_act (places w) w)
    as (w' & Hrun & Hin & _ & Hout & Hpl).
  exists w'. done.
Qed.

(** ** Bees and the places that list them *)

Lemma resident_check_sound (w : World) :
  resident_check w = true -> resident_inv w.
Proof.
  unfold resident_check. intros H%bool_decide_eq_true.
  assert (forall p, NoDup (Place_getBees w p)
                    /\ Forall (fun b => getPlace w (BeeRef b) = Some p)
                              (Place_getBees w p)) as Hall.
  { intros p. unfold Place_getBees, getPlaceObj.
    rewrite lookup_total_alt.
    destruct (placeStore w !! p) as [o|] eqn:Ho; simpl.
    - apply (H p o Ho).
    - split; constructor. }
  split.
  - intros p b Hb. destruct (Hall p) as [_ Hf].
    rewrite Forall_forall in Hf. by apply Hf.
  - intros p. apply Hall.
Qed.

Lemma same_residence_inv (w w' : World) :
  same_residence w w' -> resident_inv w -> resident_inv w'.
Proof.
  intros [Hb Hp] [H1 H2]. split.
  - intros p b. rewrite Hb, Hp. apply H1.
  - intros p. rewrite Hb. apply H2.
Qed.

Lemma same_residence_refl (w : World) : same_residence w w.
Proof. by split. Qed.

Lemma same_residence_trans (w1 w2 w3 : World) :
  same_residence w1 w2 -> same_residence w2 w3 -> same_residence w1 w3.
Proof.
  intros [H1 H2] [H3 H4]. split; intros; [rewrite H3|rewrite H4]; done.
Qed.

(** What [Place.removeBee] does to the lists and the back-references. *)
Lemma Place_removeBee_view (p : PlaceId) (b : BeeId) (w : World) :
  exists w',
    Place_removeBee p b w = Ok tt w'
    /\ (forall p', Place_getBees w' p'
                   = if decide (p = p')
                     then match indexOf b (Place_getBees w p) with
                          | Some i => delete i (Place_getBees w p)
                          | None => Place_getBees w p
                          end
                     else Place_getBees w p')
    /\ (forall b', getPlace w' (BeeRef b')
                   = if decide (b = b' /\ b ∈ Place_getBees w p)
                     then None else getPlace w (BeeRef b'))
    /\ antStore w' = antStore w
    /\ (forall b', getArmor w' (BeeRef b') = getArmor w (BeeRef b'))
    /\ (forall b', status (getBeeObj w' b') = status (getBeeObj w b'))
    /\ (forall b', damage (getBeeObj w' b') = damage (getBeeObj w b')).
Proof.
  unfold Place_removeBee.
  destruct (indexOf b (Place_getBees w p)) as [i|] eqn:Hi.
  - eexists. split; [reflexivity|].
    apply indexOf_Some in Hi as [Hi _].
    apply list_elem_of_lookup_2 in Hi.
    repeat split; intros; store_simpl; repeat case_decide; subst; simpl;
      try done; try tauto.
  - exists w. split; [done|].
    apply indexOf_None in Hi.
    repeat split; intros; repeat case_decide; subst; try done; try tauto.
Qed.

(** What [Place.addBee] does to the lists and the back-references. *)
Lemma Place_addBee_view (q : PlaceId) (b : BeeId) (w : World) :
  exists w',
    Place_addBee q b w = Ok tt w'
    /\ (forall p', Place_getBees w' p'
                   = if decide (q = p') then Place_getBees w q ++ [b]
                     else Place_getBees w p')
    /\ (forall b', getPlace w' (BeeRef b')
                   = if decide (b = b') then Some q else getPlace w (BeeRef b'))
    /\ antStore w' = antStore w
    /\ (forall b', getArmor w' (BeeRef b') = getArmor w (BeeRef b'))
    /\ (forall b', status (getBeeObj w' b') = status (getBeeObj w b'))
    /\ (forall b', damage (getBeeObj w' b') = damage (getBeeObj w b')).
Proof.
  unfold Place_addBee. eexists. split; [reflexivity|].
  repeat split; intros; store_simpl; repeat case_decide; subst; simpl;
    try done.
Qed.

(** Removing a bee from the place it refers to, or from a place that lists
    it, leaves it listed nowhere. *)
Lemma removeBee_residents (p : PlaceId) (b : BeeId) (w w' : World) :
  resident_inv w ->
  getPlace w (BeeRef b) = Some p \/ b ∈ Place_getBees w p ->
  Place_removeBee p b w = Ok tt w' ->
  resident_inv w' /\ forall p', b ∉ Place_getBees w' p'.
Proof.
  intros [H1 H2] Hor Hrun.
  destruct (Place_removeBee_view p b w) as (w1 & Hrun1 & Hb & Hp & _).
  rewrite Hrun in Hrun1. injection Hrun1 as <-.
  assert (forall p', b ∈ Place_getBees w p' -> p' = p) as Honly.
  { intros p' Hin. destruct Hor as [Hor|Hor].
    - apply H1 in Hin. congruence.
    - apply H1 in Hin. apply H1 in Hor. congruence. }
  assert (forall p', b ∉ Place_getBees w' p') as Hnowhere.
  { intros p'. rewrite Hb. destruct (decide (p = p')) as [Hpp|Hpp].
    - subst p'. destruct (indexOf b (Place_getBees w p)) as [i|] eqn:Hi.
      + apply indexOf_Some in Hi as [Hi _].
        by apply not_elem_of_delete_NoDup.
      + by apply indexOf_None.
    - intros Hin. apply Hpp. symmetry. by apply Honly. }
  split; [|done]. split.
  - intros p' b' Hin.
    assert (b' <> b) as Hne by (intros ->; by apply (Hnowhere p')).
    rewrite Hp. rewrite decide_False by (intros [? _]; congruence).
    apply H1. rewrite Hb in Hin.
    destruct (decide (p = p')); [|done]. subst p'.
    destruct (indexOf b (Place_getBees w p)) as [i|]; [|done].
    by apply (elem_of_delete_inv _ i).
  - intros p'. rewrite Hb. destruct (decide (p = p')); [|done].
    destruct (indexOf b (Place_getBees w p)) as [i|]; [|done].
    by apply NoDup_delete.
Qed.

(** Adding a bee that no place lists keeps the residence. *)
Lemma addBee_residents (q : PlaceId) (b : BeeId) (w w' : World) :
  resident_inv w ->
  (forall p', b ∉ Place_getBees w p') ->
  Place_addBee q b w = Ok tt w' ->
  resident_inv w'.
Proof.
  intros [H1 H2] Hno Hrun.
  destruct (Place_addBee_view q b w) as (w1 & Hrun1 & Hb & Hp & _).
  rewrite Hrun in Hrun1. injection Hrun1 as <-.
  split.
  - intros p' b'. rewrite Hb, Hp. destruct (decide (q = p')) as [Hq|Hq].
    + subst p'. rewrite elem_of_app, list_elem_of_singleton.
      intros [Hin| ->].
      * rewrite decide_False; [by apply H1|].
        intros <-. by apply (Hno q).
      * by rewrite decide_True.
    + intros Hin. rewrite decide_False; [by apply H1|].
      intros <-. by apply (Hno p').
  - intros p'. rewrite Hb. destruct (decide (q = p')); [|done].
    apply NoDup_app. split; [done|]. split.
    + intros x Hx ->%list_elem_of_singleton. by apply (Hno q).
    + apply NoDup_singleton.
Qed.

(** Moving a bee: out of the place it refers to (or that lists it), into
    any place. *)
Lemma moveBee_residents (p q : PlaceId) (b : BeeId) (w w1 w2 : World) :
  resident_inv w ->
  getPlace w (BeeRef b) = Some p \/ b ∈ Place_getBees w p ->
  Place_removeBee p b w = Ok tt w1 ->
  Place_addBee q b w1 = Ok tt w2 ->
  resident_inv w2.
Proof.
  intros Hinv Hor H1 H2.
  destruct (removeBee_residents p b w w1 Hinv Hor H1) as [Hinv1 Hno].
  by apply (addBee_residents q b w1 w2).
Qed.

(** X3.  [Place.removeBee] of a bee that the place does not list changes
    nothing, the bee's back-reference included.  For such a bee, [addBee]
    followed by [removeBee] on the same place gives back the list of the
    place, and leaves the bee with a cleared back-reference, whatever it
    referred to before. *)
Theorem removeBee_addBee_round_trip (w : World) (p : PlaceId) (b : BeeId) :
  b ∉ Place_getBees w p ->
  Place_removeBee p b w = Ok tt w
  /\ exists w1 w2,
       Place_addBee p b w = Ok tt w1
       /\ Place_removeBee p b w1 = Ok tt w2
       /\ Place_getBees w1 p = Place_getBees w p ++ [b]
       /\ getPlace w1 (BeeRef b) = Some p
       /\ Place_getBees w2 p = Place_getBees w p
       /\ getPlace w2 (BeeRef b) = None.
Proof.
  intros Hno. split.
  - unfold Place_removeBee.
    apply indexOf_None in Hno. by rewrite Hno.
  - destruct (Place_addBee_view p b w) as (w1 & H1 & Hb1 & Hp1 & _).
    destruct (Place_removeBee_view p b w1) as (w2 & H2 & Hb2 & Hp2 & _).
    exists w1, w2. split; [done|]. split; [done|].
    assert (Place_getBees w1 p = Place_getBees w p ++ [b]) as Hl
      by (rewrite Hb1; by rewrite decide_True).
    split; [done|]. split; [by rewrite Hp1, decide_True|].
    split.
    + rewrite Hb2, decide_True by done. rewrite Hl.
      assert (indexOf b (Place_getBees w p ++ [b])
              = Some (length (Place_getBees w p))) as ->.
      { clear -Hno. induction (Place_getBees w p) as [|x l IH]; simpl.
        - by rewrite decide_True.
        - apply not_elem_of_cons in Hno as [Hne Hno].
          rewrite decide_False by congruence. by rewrite (IH Hno). }
      clear. induction (Place_getBees w p) as [|x l IH]; simpl; [done|].
      by rewrite IH.
    + rewrite Hp2, decide_True; [done|]. split; [done|].
      rewrite Hl. apply elem_of_app. right. by apply list_elem_of_singleton.
Qed.

Lemma removeBee_addBee_round_trip_witness :
  Place_removeBee 3 0 expired_bee = Ok tt expired_bee
  /\ exists w1 w2,
       Place_addBee 3 0 expired_bee = Ok tt w1
       /\ Place_removeBee 3 0 w1 = Ok tt w2
       /\ Place_getBees w1 3 = Place_getBees expired_bee 3 ++ [0%nat]
       /\ getPlace w1 (BeeRef 0) = Some 3%nat
       /\ Place_getBees w2 3 = Place_getBees expired_bee 3
       /\ getPlace w2 (BeeRef 0) = None.
Proof.
  apply (removeBee_addBee_round_trip expired_bee 3 0).
  vm_compute. apply not_elem_of_nil.
Defined.

(** ** The residence is kept by combat *)

(** Reads the final state off a returned result, without unfolding it. *)
Ltac returned :=
  let H := fresh "Hret" in
  intros H;
  match type of H with
  | Ok _ ?w1 = Ok _ ?w2 =>
      assert (w2 = w1) as -> by congruence; clear H
  end.

Lemma same_residence_setArmor (r : InsectRef) (v : Z) (w : World) :
  same_residence w (setArmor r v w).
Proof.
  split; intros.
  - apply getBees_setArmor.
  - apply getPlace_bee_setArmor.
Qed.

Lemma same_residence_setGuardSlot (q : PlaceId) (a : option AntId)
    (w : World) :
  same_residence w (setGuardSlot q a w).
Proof. split; intros; [apply getBees_setGuardSlot|done]. Qed.

Lemma same_residence_setAntSlot (q : PlaceId) (a : option AntId) (w : World) :
  same_residence w (setAntSlot q a w).
Proof. split; intros; [apply getBees_setAntSlot|done]. Qed.

Lemma same_residence_setTurnsEating (e : AntId) (t : Z) (w : World) :
  same_residence w (setTurnsEating e t w).
Proof.
  unfold setTurnsEating.
  destruct (variant (getAntObj w e)); try apply same_residence_refl.
  by split.
Qed.

Lemma same_residence_setBoost (a : AntId) (s : option string) (w : World) :
  same_residence w (setBoost a s w).
Proof. by split. Qed.

Lemma same_residence_setStatus (b : BeeId) (s : option string) (w : World) :
  same_residence w (setStatus b s w).
Proof.
  split; intros; [done|].
  store_simpl. destruct (decide (b = b0)); subst; done.
Qed.

Lemma Place_removeAnt_same_residence (q : PlaceId) (w w' : World)
    (o : option AntId) :
  Place_removeAnt q w = Ok o w' -> same_residence w w'.
Proof.
  unfold Place_removeAnt.
  destruct (guard (getPlaceObj w q)); returned.
  - apply same_residence_setGuardSlot.
  - apply same_residence_setAntSlot.
Qed.

(** The routine of [Insect] on an ant moves no bee. *)
Lemma Insect_reduceArmor_ant_same_residence (a : AntId) (amount : Z)
    (w w' : World) (t : bool) :
  Insect_reduceArmor (AntRef a) amount w = Ok t w' -> same_residence w w'.
Proof.
  destruct (Z.lt_ge_cases 0 (getArmor w (AntRef a) - amount)) as [Hs|Hs].
  - rewrite Insect_reduceArmor_survives by done. returned.
    apply same_residence_setArmor.
  - destruct (getPlace w (AntRef a)) as [q|] eqn:Hq.
    + rewrite (Insect_reduceArmor_expires _ _ _ q) by (done || lia).
      unfold Place_removeInsect. run.
      destruct (Place_removeAnt q _) as [o w1|] eqn:Hr; [|done].
      returned.
      eapply same_residence_trans; [apply same_residence_setArmor|].
      by apply (Place_removeAnt_same_residence q _ _ o).
    + rewrite Insect_reduceArmor_no_place by (done || lia). done.
Qed.

(** The routine of [Insect] on a bee takes the bee out of the place it
    refers to. *)
Lemma Insect_reduceArmor_bee_residents (b : BeeId) (amount : Z)
    (w w' : World) (t : bool) :
  resident_inv w ->
  Insect_reduceArmor (BeeRef b) amount w = Ok t w' ->
  resident_inv w'.
Proof.
  intros Hinv.
  destruct (Z.lt_ge_cases 0 (getArmor w (BeeRef b) - amount)) as [Hs|Hs].
  - rewrite Insect_reduceArmor_survives by done. returned.
    apply (same_residence_inv w); [apply same_residence_setArmor|done].
  - destruct (getPlace w (BeeRef b)) as [q|] eqn:Hq.
    + rewrite (Insect_reduceArmor_expires _ _ _ q) by (done || lia).
      unfold Place_removeInsect.
      destruct (Place_removeBee q b _) as [[] w1|] eqn:Hr; [|done].
      returned.
      eapply (removeBee_residents q b); [| |exact Hr].
      * apply (same_residence_inv w); [apply same_residence_setArmor|done].
      * left. by rewrite getPlace_bee_setArmor.
    + rewrite Insect_reduceArmor_no_place by (done || lia). done.
Qed.

(** The shared block of the eater's [reduceArmor] moves the first bee of
    the stomach. *)
Lemma EaterAnt_coughUp_residents (e : AntId) (w w' : World) :
  resident_inv w ->
  EaterAnt_coughUp e w = Ok tt w' ->
  resident_inv w'.
Proof.
  intros Hinv. unfold EaterAnt_coughUp. run.
  destruct (Place_getBees w (stomach_of w e) !! 0%nat) as [b|] eqn:Hb;
    [|done].
  destruct (Place_removeBee (stomach_of w e) b w) as [[] w1|] eqn:Hr; [|done].
  run.
  destruct (getPlace w1 (AntRef e)) as [q|]; [|done]. run.
  intros Hadd.
  apply (moveBee_residents (stomach_of w e) q b w w1 w'); try done.
  right. by apply list_elem_of_lookup_2 in Hb.
Qed.

Lemma EaterAnt_reduceArmor_residents (e : AntId) (amount : Z)
    (w w' : World) (t : bool) :
  resident_inv w ->
  EaterAnt_reduceArmor e amount w = Ok t w' ->
  resident_inv w'.
Proof.
  intros Hinv. unfold EaterAnt_reduceArmor. run.
  set (w1 := setArmor (AntRef e) (getArmor w (AntRef e) - amount) w).
  assert (resident_inv w1) as Hinv1
    by (apply (same_residence_inv w); [apply same_residence_setArmor|done]).
  clearbody w1.
  destruct (0 <? getArmor w1 (AntRef e)).
  - destruct (turnsEating_of w1 e =? 1); run.
    + destruct (EaterAnt_coughUp e w1) as [[] w2|] eqn:Hc; [|done].
      returned.
      apply (same_residence_inv w2); [apply same_residence_setTurnsEating|].
      by apply (EaterAnt_coughUp_residents e w1).
    + by returned.
  - destruct (getArmor w1 (AntRef e) <=? 0); [|by returned].
    destruct ((0 <? turnsEating_of w1 e) && (turnsEating_of w1 e <=? 2)); run.
    + destruct (EaterAnt_coughUp e w1) as [[] w2|] eqn:Hc; [|done].
      intros Hr.
      apply (same_residence_inv w2);
        [by apply (Insect_reduceArmor_ant_same_residence e amount _ _ t)|].
      by apply (EaterAnt_coughUp_residents e w1).
    + intros Hr.
      apply (same_residence_inv w1);
        [by apply (Insect_reduceArmor_ant_same_residence e amount _ _ t)|done].
Qed.

Lemma reduceArmor_residents (r : InsectRef) (amount : Z) (w w' : World)
    (t : bool) :
  resident_inv w ->
  reduceArmor r amount w = Ok t w' ->
  resident_inv w'.
Proof.
  intros Hinv. destruct r as [a|b]; simpl.
  - unfold Ant_reduceArmor.
    destruct (variant (getAntObj w a));
      try (intros Hr; apply (same_residence_inv w);
           [by apply (Insect_reduceArmor_ant_same_residence a amount _ _ t)
           |done]).
    by apply EaterAnt_reduceArmor_residents.
  - by apply Insect_reduceArmor_bee_residents.
Qed.

(** X4.  Whatever insect [reduceArmor] is called on and whatever the
    amount, when the call returns the residence still holds: every listed
    bee refers to the place that lists it and is listed once.  (A bee
    that expires is taken off the list of its place; an eater that
    regurgitates moves the bee from its stomach to its cell; an ant that
    expires moves no bee.) *)
Theorem reduceArmor_keeps_residence (r : InsectRef) (amount : Z)
    (w w' : World) (t : bool) :
  resident_inv w ->
  reduceArmor r amount w = Ok t w' ->
  resident_inv w'.
Proof. apply reduceArmor_residents. Qed.

Lemma reduceArmor_keeps_residence_witness :
  resident_inv (state_of (reduceArmor (AntRef 0) 1 eater_holds_bee)).
Proof.
  apply (reduceArmor_keeps_residence (AntRef 0) 1 eater_holds_bee _ false).
  - apply resident_check_sound. vm_compute. reflexivity.
  - vm_compute. reflexivity.
Defined.

(** ** A round of the bees *)

Lemma Place_exitBee_residents (q : PlaceId) (b : BeeId) (w w' : World) :
  resident_inv w ->
  getPlace w (BeeRef b) = Some q ->
  Place_exitBee q b w = Ok tt w' ->
  resident_inv w'.
Proof.
  intros Hinv Hq. unfold Place_exitBee. run.
  destruct (Place_removeBee q b w) as [[] w1|] eqn:Hr; [|done].
  destruct (exit (getPlaceObj w1 q)) as [e|]; [|done]. run.
  intros Hadd.
  apply (moveBee_residents q e b w w1 w'); auto.
Qed.

Lemma Bee_act_residents (b : BeeId) (w w' : World) :
  resident_inv w ->
  Bee_act b w = Ok tt w' ->
  resident_inv w'.
Proof.
  intros Hinv. unfold Bee_act.
  destruct (getPlace w (BeeRef b)) as [q|] eqn:Hq;
    [|unfold Bee_isBlocked; run; rewrite Hq; by run].
  run. rewrite (Bee_isBlocked_at b q) by done.
  destruct (bool_decide (Place_getAnt w q <> None)).
  - destruct (decide (status (getBeeObj w b) <> Some "cold")); run.
    + rewrite Hq. run.
      destruct (Place_getAnt w q) as [target|]; [|done]. run.
      unfold Bee_sting. run.
      destruct (Ant_reduceArmor target (damage (getBeeObj w b)) w)
        as [t w1|] eqn:Hr; [|done].
      returned.
      apply (same_residence_inv w1); [apply same_residence_setStatus|].
      by apply (reduceArmor_residents (AntRef target)
                 (damage (getBeeObj w b)) w w1 t).
    + returned.
      apply (same_residence_inv w); [apply same_residence_setStatus|done].
  - destruct (0 <? getArmor w (BeeRef b)); run.
    + destruct (decide (status (getBeeObj w b) <> Some "stuck")); run.
      * rewrite Hq. run.
        destruct (Place_exitBee q b w) as [[] w1|] eqn:He; [|done].
        returned.
        apply (same_residence_inv w1); [apply same_residence_setStatus|].
        by apply (Place_exitBee_residents q b w).
      * returned.
        apply (same_residence_inv w); [apply same_residence_setStatus|done].
    + returned.
      apply (same_residence_inv w); [apply same_residence_setStatus|done].
Qed.

Lemma forEach_residents {A : Type} (f : A -> M unit) (l : list A) :
  (forall x w w', resident_inv w -> f x w = Ok tt w' -> resident_inv w') ->
  forall w w',
    resident_inv w -> forEach f l w = Ok tt w' -> resident_inv w'.
Proof.
  intros Hf. induction l as [|x l IH]; intros w w' Hinv; simpl.
  - run. by returned.
  - run. destruct (f x w) as [[] w1|] eqn:Hx; [|done].
    apply IH. by apply (Hf x w).
Qed.

(** *** Only [Bee.act] and the leaves write a status *)

Lemma same_status_refl (w : World) : same_status w w.
Proof. done. Qed.

Lemma same_status_trans (w1 w2 w3 : World) :
  same_status w1 w2 -> same_status w2 w3 -> same_status w1 w3.
Proof. intros H1 H2 b. by rewrite H2, H1. Qed.

Lemma same_status_setArmor (r : InsectRef) (v : Z) (w : World) :
  same_status w (setArmor r v w).
Proof.
  intros b. destruct r as [a|b']; store_simpl; [done|].
  by destruct (decide (b' = b)); subst.
Qed.

Lemma same_status_setPlace (r : InsectRef) (x : option PlaceId) (w : World) :
  same_status w (setPlace r x w).
Proof.
  intros b. destruct r as [a|b']; store_simpl; [done|].
  by destruct (decide (b' = b)); subst.
Qed.

Lemma same_status_setBees (p : PlaceId) (l : list BeeId) (w : World) :
  same_status w (setBees p l w).
Proof. intros b. by store_simpl. Qed.

Lemma same_status_setAntSlot (p : PlaceId) (a : option AntId) (w : World) :
  same_status w (setAntSlot p a w).
Proof. intros b. by store_simpl. Qed.

Lemma same_status_setGuardSlot (p : PlaceId) (a : option AntId) (w : World) :
  same_status w (setGuardSlot p a w).
Proof. intros b. by store_simpl. Qed.

Lemma same_status_setTurnsEating (e : AntId) (t : Z) (w : World) :
  same_status w (setTurnsEating e t w).
Proof.
  intros b. unfold setTurnsEating.
  destruct (variant (getAntObj w e)); by store_simpl.
Qed.

Lemma Place_removeBee_same_status (p : PlaceId) (b : BeeId) (w w' : World) :
  Place_removeBee p b w = Ok tt w' -> same_status w w'.
Proof.
  unfold Place_removeBee.
  destruct (indexOf b (Place_getBees w p)); returned.
  - eapply same_status_trans;
      [apply same_status_setBees|apply same_status_setPlace].
  - apply same_status_refl.
Qed.

Lemma Place_addBee_same_status (p : PlaceId) (b : BeeId) (w w' : World) :
  Place_addBee p b w = Ok tt w' -> same_status w w'.
Proof.
  unfold Place_addBee. returned.
  eapply same_status_trans;
    [apply same_status_setBees|apply same_status_setPlace].
Qed.

Lemma Place_removeAnt_same_status (q : PlaceId) (w w' : World)
    (o : option AntId) :
  Place_removeAnt q w = Ok o w' -> same_status w w'.
Proof.
  unfold Place_removeAnt.
  destruct (guard (getPlaceObj w q)); returned.
  - apply same_status_setGuardSlot.
  - apply same_status_setAntSlot.
Qed.

Lemma Insect_reduceArmor_same_status (r : InsectRef) (amount : Z)
    (w w' : World) (t : bool) :
  Insect_reduceArmor r amount w = Ok t w' -> same_status w w'.
Proof.
  destruct (Z.lt_ge_cases 0 (getArmor w r - amount)) as [Hs|Hs].
  - rewrite Insect_reduceArmor_survives by done. returned.
    apply same_status_setArmor.
  - destruct (getPlace w r) as [q|] eqn:Hq.
    + rewrite (Insect_reduceArmor_expires _ _ _ q) by (done || lia).
      destruct (Place_removeInsect q r _) as [[] w1|] eqn:Hr; [|done].
      returned.
      eapply same_status_trans; [apply same_status_setArmor|].
      revert Hr. unfold Place_removeInsect. destruct r as [a|b].
      * run. destruct (Place_removeAnt q _) as [o w2|] eqn:Hr; [|done].
        returned. by apply (Place_removeAnt_same_status q _ _ o).
      * apply Place_removeBee_same_status.
    + rewrite Insect_reduceArmor_no_place by (done || lia). done.
Qed.

Lemma EaterAnt_coughUp_same_status (e : AntId) (w w' : World) :
  EaterAnt_coughUp e w = Ok tt w' -> same_status w w'.
Proof.
  unfold EaterAnt_coughUp. run.
  destruct (Place_getBees w (stomach_of w e) !! 0%nat) as [b|]; [|done].
  destruct (Place_removeBee (stomach_of w e) b w) as [[] w1|] eqn:Hr; [|done].
  run.
  destruct (getPlace w1 (AntRef e)) as [q|]; [|done]. run.
  intros Hadd.
  eapply same_status_trans;
    [by apply (Place_removeBee_same_status (stomach_of w e) b)
    |by apply (Place_addBee_same_status q b)].
Qed.

Lemma EaterAnt_reduceArmor_same_status (e : AntId) (amount : Z)
    (w w' : World) (t : bool) :
  EaterAnt_reduceArmor e amount w = Ok t w' -> same_status w w'.
Proof.
  unfold EaterAnt_reduceArmor. run.
  set (w1 := setArmor (AntRef e) (getArmor w (AntRef e) - amount) w).
  assert (same_status w w1) as H1 by apply same_status_setArmor.
  clearbody w1.
  destruct (0 <? getArmor w1 (AntRef e)).
  - destruct (turnsEating_of w1 e =? 1); run.
    + destruct (EaterAnt_coughUp e w1) as [[] w2|] eqn:Hc; [|done].
      returned.
      eapply same_status_trans; [exact H1|].
      eapply same_status_trans; [by apply (EaterAnt_coughUp_same_status e)|].
      apply same_status_setTurnsEating.
    + by returned.
  - destruct (getArmor w1 (AntRef e) <=? 0); [|by returned].
    destruct ((0 <? turnsEating_of w1 e) && (turnsEating_of w1 e <=? 2)); run.
    + destruct (EaterAnt_coughUp e w1) as [[] w2|] eqn:Hc; [|done].
      intros Hr.
      eapply same_status_trans; [exact H1|].
      eapply same_status_trans; [by apply (EaterAnt_coughUp_same_status e)|].
      by apply (Insect_reduceArmor_same_status (AntRef e) amount _ _ t).
    + intros Hr.
      eapply same_status_trans; [exact H1|].
      by apply (Insect_reduceArmor_same_status (AntRef e) amount _ _ t).
Qed.

Lemma Ant_reduceArmor_same_status (a : AntId) (amount : Z) (w w' : World)
    (t : bool) :
  Ant_reduceArmor a amount w = Ok t w' -> same_status w w'.
Proof.
  unfold Ant_reduceArmor.
  destruct (variant (getAntObj w a));
    try apply Insect_reduceArmor_same_status.
  apply EaterAnt_reduceArmor_same_status.
Qed.

Lemma status_setStatus_other (b b' : BeeId) (s : option string) (w : World) :
  b <> b' ->
  status (getBeeObj (setStatus b s w) b') = status (getBeeObj w b').
Proof. intros Hne. store_simpl. by rewrite decide_False. Qed.

(** A bee's action writes no status but its own. *)
Lemma Bee_act_status_frame (b b' : BeeId) (w w' : World) :
  b <> b' ->
  Bee_act b w = Ok tt w' ->
  status (getBeeObj w' b') = status (getBeeObj w b').
Proof.
  intros Hne. unfold Bee_act.
  destruct (getPlace w (BeeRef b)) as [q|] eqn:Hq;
    [|unfold Bee_isBlocked; run; rewrite Hq; by run].
  run. rewrite (Bee_isBlocked_at b q) by done.
  destruct (bool_decide (Place_getAnt w q <> None)).
  - destruct (decide (status (getBeeObj w b) <> Some "cold")); run.
    + rewrite Hq. run.
      destruct (Place_getAnt w q) as [target|]; [|done]. run.
      unfold Bee_sting. run.
      destruct (Ant_reduceArmor target (damage (getBeeObj w b)) w)
        as [t w1|] eqn:Hr; [|done].
      returned. rewrite status_setStatus_other by done.
      exact (Ant_reduceArmor_same_status target _ w w1 t Hr b').
    + returned. by apply status_setStatus_other.
  - destruct (0 <? getArmor w (BeeRef b)); run.
    + destruct (decide (status (getBeeObj w b) <> Some "stuck")); run.
      * rewrite Hq. run.
        destruct (Place_exitBee q b w) as [[] w1|] eqn:He; [|done].
        returned. rewrite status_setStatus_other by done.
        revert He. unfold Place_exitBee. run.
        destruct (Place_removeBee q b w) as [[] w2|] eqn:Hr; [|done].
        destruct (exit (getPlaceObj w2 q)) as [e|]; [|done]. run.
        intros Hadd.
        rewrite (Place_addBee_same_status e b w2 w1 Hadd b').
        exact (Place_removeBee_same_status q b w w2 Hr b').
      * returned. by apply status_setStatus_other.
    + returned. by apply status_setStatus_other.
Qed.

Lemma forEach_Bee_act_frame (l : list BeeId) (b' : BeeId) (w w' : World) :
  b' ∉ l ->
  forEach Bee_act l w = Ok tt w' ->
  status (getBeeObj w' b') = status (getBeeObj w b').
Proof.
  revert w. induction l as [|x l IH]; intros w Hno; simpl; run.
  - by returned.
  - apply not_elem_of_cons in Hno as [Hne Hno].
    destruct (Bee_act x w) as [[] w1|] eqn:Hx; [|done].
    intros Hrest. rewrite (IH w1 Hno Hrest).
    by apply (Bee_act_status_frame x b').
Qed.

Lemma forEach_Bee_act_clears (l : list BeeId) (b : BeeId) (w w' : World) :
  b ∈ l ->
  forEach Bee_act l w = Ok tt w' ->
  status (getBeeObj w' b) = None.
Proof.
  revert w. induction l as [|x l IH]; intros w Hin; simpl; run.
  - by apply elem_of_nil in Hin.
  - destruct (Bee_act x w) as [[] w1|] eqn:Hx; [|done].
    intros Hrest.
    destruct (decide (b ∈ l)) as [Hl|Hl]; [by apply (IH w1)|].
    apply elem_of_cons in Hin as [->|Hin]; [|done].
    rewrite (forEach_Bee_act_frame l x w1 w' Hl Hrest).
    by apply (Bee_act_resets_status x w).
Qed.

(** X5.  A round of the bees ([AntColony.beesAct]: every bee of the
    tunnels, in the order the places list them, stings or moves) that
    returns keeps the residence, and leaves every bee that took part with
    no status: a sticky or icy leaf holds a bee for one round. *)
Theorem beesAct_keeps_residence (w w' : World) :
  resident_inv w ->
  AntColony_beesAct w = Ok tt w' ->
  resident_inv w'
  /\ forall b : BeeId,
       b ∈ AntColony_getAllBees w -> status (getBeeObj w' b) = None.
Proof.
  intros Hinv. unfold AntColony_beesAct. run. intros Hrun. split.
  - apply (forEach_residents Bee_act (AntColony_getAllBees w)
             Bee_act_residents w w' Hinv Hrun).
  - intros b Hb.
    exact (forEach_Bee_act_clears _ b w w' Hb Hrun).
Qed.

Lemma beesAct_keeps_residence_witness :
  resident_inv (state_of (AntColony_beesAct eater_meets_bee))
  /\ forall b : BeeId,
       b ∈ AntColony_getAllBees eater_meets_bee ->
       status (getBeeObj (state_of (AntColony_beesAct eater_meets_bee)) b)
       = None.
Proof.
  apply (beesAct_keeps_residence eater_meets_bee).
  - apply resident_check_sound. vm_compute. reflexivity.
  - vm_compute. reflexivity.
Defined.

(** ** The ants' actions and the residence *)

Lemma EaterAnt_act_residents (e : AntId) (w w' : World) :
  resident_inv w ->
  EaterAnt_act e w = Ok tt w' ->
  resident_inv w'.
Proof.
  intros Hinv. unfold EaterAnt_act. run.
  destruct (turnsEating_of w e =? 0).
  - destruct (getPlace w (AntRef e)) as [q|]; [|done]. run.
    rewrite getClosestBee_same_cell.
    destruct (Place_getBees w q !! 0%nat) as [b|] eqn:Hb; [|by run; returned].
    run.
    destruct (Place_removeBee q b w) as [[] w1|] eqn:Hr; [|done]. run.
    destruct (Place_addBee (stomach_of w1 e) b w1) as [[] w2|] eqn:Ha; [|done].
    returned.
    apply (same_residence_inv w2); [apply same_residence_setTurnsEating|].
    apply (moveBee_residents q (stomach_of w1 e) b w w1 w2); try done.
    right. by apply list_elem_of_lookup_2 in Hb.
  - destruct (3 <? turnsEating_of w e); run.
    + destruct (Place_getBees w (stomach_of w e) !! 0%nat) as [b|] eqn:Hb.
      * destruct (Place_removeBee (stomach_of w e) b w) as [[] w1|] eqn:Hr;
          [|done].
        returned.
        apply (same_residence_inv w1); [apply same_residence_setTurnsEating|].
        apply (removeBee_residents (stomach_of w e) b w w1); try done.
        right. by apply list_elem_of_lookup_2 in Hb.
      * run. returned.
        apply (same_residence_inv w); [apply same_residence_setTurnsEating|done].
    + returned.
      apply (same_residence_inv w); [apply same_residence_setTurnsEating|done].
Qed.

Lemma bugSpray_loop_residents (fuel : nat) (a : AntId) :
  forall (target : option BeeId) (w w' : World) (t : bool),
    resident_inv w ->
    bugSpray_loop fuel a target w = Ok t w' ->
    resident_inv w'.
Proof.
  induction fuel as [|fuel IH]; intros target w w' t Hinv;
    destruct target as [b|]; simpl; run; try by returned.
  destruct (Insect_reduceArmor (BeeRef b) 10 w) as [u w1|] eqn:Hr; [|done].
  destruct (getPlace w1 (AntRef a)) as [q|]; [|done]. run.
  apply IH. by apply (Insect_reduceArmor_bee_residents b 10 w w1 u).
Qed.

Lemma ThrowerAnt_act_residents (fuel : nat) (a : AntId) (w w' : World)
    (t : bool) :
  resident_inv w ->
  ThrowerAnt_act fuel a w = Ok t w' ->
  resident_inv w'.
Proof.
  intros Hinv. unfold ThrowerAnt_act. run.
  destruct (getPlace w (AntRef a)) as [q|]; [|done]. run.
  destruct (decide (boost (getAntObj w a) <> Some "BugSpray")); run.
  - generalize (if decide (boost (getAntObj w a) = Some "FlyingLeaf")
                then Place_getClosestBee w q 5 0
                else Place_getClosestBee w q 3 0).
    intros [b|]; [|by returned].
    destruct (Insect_reduceArmor (BeeRef b) 1 w) as [u w1|] eqn:Hr; [|done].
    apply (Insect_reduceArmor_bee_residents b 1 w w1 u) in Hr; [|done].
    destruct (decide (boost (getAntObj w a) = Some "StickyLeaf"));
      destruct (decide (boost (getAntObj w a) = Some "IcyLeaf"));
      run; returned;
      repeat first
        [ done
        | apply (same_residence_inv _ _ (same_residence_setBoost _ _ _))
        | apply (same_residence_inv _ _ (same_residence_setStatus _ _ _)) ].
  - destruct (bugSpray_loop fuel a _ w) as [finished w1|] eqn:Hl; [|done].
    apply (bugSpray_loop_residents fuel a _ w w1 finished) in Hl; [|done].
    destruct finished; [|by returned].
    destruct (Insect_reduceArmor (AntRef a) 10 w1) as [u w2|] eqn:Hr; [|done].
    returned.
    apply (same_residence_inv w1); [|done].
    by apply (Insect_reduceArmor_ant_same_residence a 10 w1 w2 u).
Qed.

(** X6.  The actions of the ants that touch bees keep the residence
    whenever they return: an eater's turn (capture, digestion, release)
    and a thrower's or scuba ant's turn (a leaf, boosted or not, and the
    bug spray with its loop). *)
Theorem ants_act_keep_residence (w : World) :
  resident_inv w ->
  (forall (e : AntId) (w' : World),
      EaterAnt_act e w = Ok tt w' -> resident_inv w')
  /\ (forall (fuel : nat) (a : AntId) (t : bool) (w' : World),
        ThrowerAnt_act fuel a w = Ok t w' -> resident_inv w').
Proof.
  intros Hinv. split.
  - intros e w'. by apply EaterAnt_act_residents.
  - intros fuel a t w'. by apply ThrowerAnt_act_residents.
Qed.

Lemma ants_act_keep_residence_witness :
  resident_inv (state_of (EaterAnt_act 0 eater_meets_bee))
  /\ resident_inv (state_of (ThrowerAnt_act 1 0 thrower_meets_bee)).
Proof.
  split.
  - destruct (ants_act_keep_residence eater_meets_bee) as [H _].
    + apply resident_check_sound. vm_compute. reflexivity.
    + apply (H 0%nat). vm_compute. reflexivity.
  - destruct (ants_act_keep_residence thrower_meets_bee) as [_ H].
    + apply resident_check_sound. vm_compute. reflexivity.
    + apply (H 1%nat 0%nat true). vm_compute. reflexivity.
Defined.

(** X7.  The last step of the digestion.  When an eater whose counter is
    above 3 acts with a bee in its stomach, the turn returns, the counter
    is back at 0, and the bee is gone from the game without having been
    hit: no place lists it, its back-reference is cleared, and its armor
    is what it was. *)
Theorem eater_release_discards (e : AntId) (t : Z) (st : PlaceId)
    (b : BeeId) (w : World) :
  resident_inv w ->
  variant (getAntObj w e) = EaterAnt t st ->
  3 < t ->
  Place_getBees w st !! 0%nat = Some b ->
  exists w',
    EaterAnt_act e w = Ok tt w'
    /\ turnsEating_of w' e = 0
    /\ getPlace w' (BeeRef b) = None
    /\ (forall p : PlaceId, b ∉ Place_getBees w' p)
    /\ getArmor w' (BeeRef b) = getArmor w (BeeRef b).
Proof.
  intros Hinv Hv Ht Hb.
  destruct (Place_getBees w st) as [|b0 l] eqn:Hl; [done|].
  injection Hb as ->.
  rewrite (EaterAnt_act_releases e t st w Hv Ht), Hl.
  eexists. split; [reflexivity|].
  set (w1 := setPlace (BeeRef b) None (setBees st l w)).
  assert (Place_removeBee st b w = Ok tt w1) as Hr
    by apply (Place_removeBee_head _ _ _ _ Hl).
  destruct (removeBee_residents st b w w1 Hinv) as [_ Hno]; [|done|].
  { right. rewrite Hl. apply elem_of_cons. by left. }
  assert (variant (getAntObj w1 e) = EaterAnt t st) as Hv1 by done.
  split; [|split; [|split]].
  - unfold turnsEating_of.
    by rewrite (variant_setTurnsEating e t 0 st w1 Hv1).
  - destruct (same_residence_setTurnsEating e 0 w1) as [_ Hp].
    rewrite Hp. unfold w1. by rewrite getPlace_bee_setPlace, decide_True.
  - intros p. rewrite getBees_setTurnsEating. apply Hno.
  - unfold setTurnsEating. rewrite Hv1.
    change (getArmor (setVariant e (EaterAnt 0 st) w1) (BeeRef b))
      with (getArmor w1 (BeeRef b)).
    unfold w1. rewrite getArmor_bee_setPlace. done.
Qed.

Lemma eater_release_discards_witness :
  exists w',
    EaterAnt_act 0 eater_digested_bee = Ok tt w'
    /\ turnsEating_of w' 0 = 0
    /\ getPlace w' (BeeRef 0) = None
    /\ (forall p : PlaceId, 0%nat ∉ Place_getBees w' p)
    /\ getArmor w' (BeeRef 0) = getArmor eater_digested_bee (BeeRef 0).
Proof.
  apply (eater_release_discards 0 4 5 0 eater_digested_bee).
  - apply resident_check_sound. vm_compute. reflexivity.
  - vm_compute. reflexivity.
  - reflexivity.
  - vm_compute. reflexivity.
Defined.

(** ** The constructor of the colony *)

Lemma with_placeStore_id (w : World) : with_placeStore (placeStore w) w = w.
Proof. by destruct w. Qed.

Lemma with_entrance_id (o : Place) : with_entrance o (entrance o) = o.
Proof. by destruct o. Qed.

Lemma is_moat_water (moatFrequency step : nat) :
  String.eqb (if negb (moatFrequency =? 0)%nat
                 && ((step + 1) mod moatFrequency =? 0)%nat
              then "water" else "tunnel") "water"
  = is_moat moatFrequency step.
Proof. unfold is_moat. by destruct (_ && _). Qed.

(** One tunnel: the new cells are fresh and chained, the place the tunnel
    starts from gets the first of them as its forward link, and nothing
    else changes. *)
Lemma newTunnel_spec (moatFrequency tunnel : nat) (steps : list nat) :
  forall (curr : PlaceId) (row : list PlaceId) (w : World),
    curr ∈ dom (placeStore w) ->
    exists (cells : list PlaceId) (m : gmap nat Place),
      newTunnel moatFrequency tunnel steps curr row w
      = Ok (default curr (last cells), row ++ cells) (with_placeStore m w)
      /\ length cells = length steps
      /\ NoDup cells
      /\ (forall p, p ∈ cells -> (p ∉ dom (placeStore w)) /\ (p ∈ dom m))
      /\ dom (placeStore w) ⊆ dom m
      /\ (forall p, p ∉ cells -> p <> curr -> m !!! p = placeStore w !!! p)
      /\ m !!! curr
         = with_entrance (placeStore w !!! curr)
             (match cells !! 0%nat with
              | Some c => Some c
              | None => entrance (placeStore w !!! curr)
              end)
      /\ (forall (k : nat) (p : PlaceId) (step : nat),
            cells !! k = Some p -> steps !! k = Some step ->
            m !!! p = built_cell moatFrequency tunnel step
                        (match k with
                         | O => Some curr
                         | S k' => cells !! k'
                         end)
                        (cells !! S k)).
Proof.
  induction steps as [|step steps IH]; intros curr row w Hcurr.
  - exists [], (placeStore w). simpl. unfold mret, M_ret.
    rewrite with_placeStore_id, app_nil_r, with_entrance_id.
    repeat split; try done.
    + apply NoDup_nil_2.
    + by apply elem_of_nil in H.
    + by apply elem_of_nil in H.
  - simpl. run. unfold newPlace.
    set (next := fresh (dom (placeStore w))).
    assert (next ∉ dom (placeStore w)) as Hfresh by apply is_fresh.
    assert (next <> curr) as Hnc by (intros ->; done).
    set (o := mkPlace _ _ (Some curr) None None None []).
    set (w2 := setEntrance curr (Some next) (setPlaceObj next o w)).
    assert (placeStore w2
            = <[curr := with_entrance (placeStore w !!! curr) (Some next)]>
                (<[next := o]> (placeStore w))) as Hst.
    { unfold w2, setEntrance, getPlaceObj, with_entrance. simpl.
      by rewrite lookup_total_insert_ne. }
    assert (forall p, p ∈ dom (placeStore w2)
                      <-> p = curr \/ p = next \/ p ∈ dom (placeStore w))
      as Hdom2.
    { intros p.
      by rewrite Hst, !dom_insert_L, !elem_of_union, !elem_of_singleton. }
    destruct (IH next (row ++ [next]) w2) as
      (cells & m & Hrun & Hlen & Hnd & Hnew & Hdom & Hold & Hnext & Hcells).
    { apply Hdom2. auto. }
    exists (next :: cells), m.
    split; [|split; [|split; [|split; [|split; [|split; [|split]]]]]].
    + rewrite Hrun, <- app_assoc.
      assert (default next (last cells) = default curr (last (next :: cells)))
        as ->.
      { destruct cells as [|c cells]; [done|]. rewrite last_cons_cons.
        destruct (last (c :: cells)) eqn:Hl; [done|].
        by apply last_None in Hl. }
      done.
    + simpl. by rewrite Hlen.
    + apply NoDup_cons. split; [|done].
      intros Hin. apply Hnew in Hin as [Hin _]. apply Hin, Hdom2. auto.
    + intros p [->|Hin]%elem_of_cons.
      * split; [done|]. apply Hdom, Hdom2. auto.
      * apply Hnew in Hin as [Hin Hm]. split; [|done].
        intros Hp. apply Hin, Hdom2. auto.
    + intros p Hp. apply Hdom, Hdom2. auto.
    + intros p Hp Hpc. apply not_elem_of_cons in Hp as [Hpn Hp].
      rewrite Hold by done. rewrite Hst.
      by rewrite !lookup_total_insert_ne.
    + simpl.
      assert (curr ∉ cells) as Hcc.
      { intros Hin. apply Hnew in Hin as [Hin _]. apply Hin, Hdom2. auto. }
      rewrite (Hold curr Hcc (not_eq_sym Hnc)), Hst.
      by rewrite lookup_total_insert_eq.
    + intros [|k] p s Hp Hs; simpl in Hp, Hs.
      * injection Hp as <-. injection Hs as <-.
        rewrite Hnext, Hst.
        rewrite lookup_total_insert_ne, lookup_total_insert_eq by done.
        unfold with_entrance, built_cell, o. simpl.
        rewrite is_moat_water.
        f_equal. by destruct (cells !! 0%nat).
      * by rewrite (Hcells k p s Hp Hs).
Qed.

(** All the tunnels: every one starts again at the queen's place, whose
    forward link is therefore written once for each tunnel. *)
Lemma newTunnels_spec (moatFrequency tunnelLength : nat) (tunnels : list nat) :
  forall (w : World),
    queenPlace w ∈ dom (placeStore w) ->
    exists (rows : list (list PlaceId)) (m : gmap nat Place),
      newTunnels moatFrequency tunnelLength tunnels w
      = Ok tt (setBeeEntrances
                 (beeEntrances w
                  ++ map (fun row => default (queenPlace w) (last row)) rows)
                 (setPlaces (places w ++ rows) (with_placeStore m w)))
      /\ length rows = length tunnels
      /\ Forall (fun row => length row = tunnelLength) rows
      /\ NoDup (concat rows)
      /\ (forall p, p ∈ concat rows
                    -> (p ∉ dom (placeStore w)) /\ (p ∈ dom m))
      /\ dom (placeStore w) ⊆ dom m
      /\ (forall p, p ∉ concat rows -> p <> queenPlace w ->
                    m !!! p = placeStore w !!! p)
      /\ m !!! queenPlace w
         = with_entrance (placeStore w !!! queenPlace w)
             (match last rows ≫= head with
              | Some c => Some c
              | None => entrance (placeStore w !!! queenPlace w)
              end)
      /\ (forall (i : nat) (row : list PlaceId) (tunnel j : nat)
                 (p : PlaceId),
            rows !! i = Some row -> tunnels !! i = Some tunnel ->
            row !! j = Some p ->
            m !!! p = built_cell moatFrequency tunnel j
                        (match j with
                         | O => Some (queenPlace w)
                         | S j' => row !! j'
                         end)
                        (row !! S j)).
Proof.
  induction tunnels as [|tunnel tunnels IH]; intros w Hq.
  - exists [], (placeStore w). simpl. unfold mret, M_ret.
    rewrite !app_nil_r, with_entrance_id.
    split; [by destruct w|].
    repeat split; try done.
    + apply NoDup_nil_2.
    + by apply elem_of_nil in H.
    + by apply elem_of_nil in H.
  - simpl. run.
    destruct (newTunnel_spec moatFrequency tunnel (seq 0 tunnelLength)
                (queenPlace w) [] w Hq)
      as (cells & m1 & Hrun1 & Hlen1 & Hnd1 & Hnew1 & Hdom1 & Hold1 & Hq1
          & Hcells1).
    rewrite Hrun1. rewrite length_seq in Hlen1. simpl.
    set (w2 := setBeeEntrances _ _).
    destruct (IH w2) as
      (rows & m & Hrun & Hlen & Hall & Hnd & Hnew & Hdom & Hold & Hqm
       & Hcells).
    { apply Hdom1, Hq. }
    change (queenPlace w2) with (queenPlace w) in *.
    change (placeStore w2) with m1 in *.
    exists (cells :: rows), m.
    assert (forall p, p ∈ cells -> p ∉ concat rows) as Hdisj.
    { intros p Hp Hin. apply Hnew in Hin as [Hin _].
      by apply Hnew1 in Hp as [_ Hp]. }
    assert (forall p, p ∈ cells -> p <> queenPlace w) as Hcq.
    { intros p Hp ->. by apply Hnew1 in Hp as [Hp _]. }
    split; [|split; [|split; [|split; [|split; [|split; [|split; [|split]]]]]]].
    + rewrite Hrun. unfold w2. simpl.
      unfold setBeeEntrances, setPlaces, with_placeStore. simpl.
      by rewrite <- !app_assoc.
    + simpl. by rewrite Hlen.
    + by apply Forall_cons.
    + simpl. apply NoDup_app. split; [done|]. split; [|done]. apply Hdisj.
    + simpl. intros p [Hp|Hp]%elem_of_app.
      * apply Hnew1 in Hp as [Hp Hp1]. split; [done|]. by apply Hdom.
      * apply Hnew in Hp as [Hp Hpm]. split; [|done].
        intros Hw. by apply Hp, Hdom1.
    + by etrans.
    + simpl. intros p Hp Hpq. apply not_elem_of_app in Hp as [Hp1 Hp2].
      rewrite Hold by done. by apply Hold1.
    + rewrite Hqm, Hq1. unfold with_entrance. simpl. f_equal.
      rewrite <- head_lookup.
      destruct rows as [|r rs]; [simpl; by destruct (head cells)|].
      rewrite last_cons_cons.
      destruct (last (r :: rs)) as [r'|] eqn:Hl; [|by apply last_None in Hl].
      simpl. destruct r' as [|c r']; [|done]. simpl.
      apply last_Some_elem_of in Hl.
      rewrite Forall_forall in Hall. apply Hall in Hl. simpl in Hl.
      destruct cells; [done|]. simpl in Hlen1. lia.
    + intros [|i] row tn j p Hrow Htn Hp; simpl in Hrow, Htn.
      * injection Hrow as <-. injection Htn as <-.
        assert (p ∈ cells) as Hin by (by apply list_elem_of_lookup_2 in Hp).
        rewrite Hold; [|by apply Hdisj|by apply Hcq].
        apply Hcells1; [done|].
        apply lookup_lt_Some in Hp. rewrite Hlen1 in Hp.
        by rewrite lookup_seq_lt.
      * by apply (Hcells i row tn j p).
Qed.

(** X8.  [new AntColony(startingFood, numTunnels, tunnelLength,
    moatFrequency)] always returns, whatever objects exist already, and
    leaves these untouched.  The grid has [numTunnels] rows of
    [tunnelLength] cells, all new, distinct, and distinct from the
    queen's place.  The cell at [(i, j)] is named after its coordinates,
    is water exactly when [moatFrequency] is not 0 and divides [j + 1],
    holds nobody, has the next cell of its row as forward link (none for
    the last) and the previous cell as exit (the queen's place for the
    first).  The bee entrance of a row is its last cell, or the queen's
    place when [tunnelLength] is 0.  The queen's place is shared by all
    rows and its forward link is the first cell of the last row. *)
Theorem new_AntColony_builds_grid (startingFood : Z)
    (numTunnels tunnelLength moatFrequency : nat) (w0 : World) :
  exists w : World,
    new_AntColony startingFood numTunnels tunnelLength moatFrequency w0
    = Ok tt w
    /\ food w = startingFood
    /\ length (places w) = numTunnels
    /\ Forall (fun row => length row = tunnelLength) (places w)
    /\ beeEntrances w
       = map (fun row => default (queenPlace w) (last row)) (places w)
    /\ NoDup (queenPlace w :: concat (places w))
    /\ getPlaceObj w (queenPlace w)
       = mkPlace "Ant Queen" false None (last (places w) ≫= head)
                 None None []
    /\ (forall (i j : nat) (row : list PlaceId) (p : PlaceId),
          places w !! i = Some row -> row !! j = Some p ->
          getPlaceObj w p
          = built_cell moatFrequency i j
              (match j with
               | O => Some (queenPlace w)
               | S j' => row !! j'
               end)
              (row !! S j))
    /\ (forall p : PlaceId,
          p ∈ dom (placeStore w0) -> getPlaceObj w p = getPlaceObj w0 p).
Proof.
  unfold new_AntColony. run. unfold newPlace.
  set (q := fresh (dom (placeStore w0))).
  assert (q ∉ dom (placeStore w0)) as Hfresh by apply is_fresh.
  set (w1 := setFood _ _).
  assert (placeStore w1
          = <[q := mkPlace "Ant Queen" false None None None None []]>
              (placeStore w0)) as Hst by done.
  destruct (newTunnels_spec moatFrequency tunnelLength (seq 0 numTunnels) w1)
    as (rows & m & Hrun & Hlen & Hall & Hnd & Hnew & Hdom & Hold & Hqm
        & Hcells).
  { change (queenPlace w1) with q. rewrite Hst, dom_insert_L.
    apply elem_of_union_l. by apply elem_of_singleton. }
  change (queenPlace w1) with q in *.
  change (places w1) with (@nil (list PlaceId)) in Hrun.
  change (beeEntrances w1) with (@nil PlaceId) in Hrun.
  rewrite Hrun. eexists. split; [reflexivity|].
  unfold getPlaceObj. simpl.
  assert (forall p, p ∈ concat rows -> p <> q /\ p ∉ dom (placeStore w0))
    as Hout.
  { intros p Hp. apply Hnew in Hp as [Hp _].
    rewrite Hst, dom_insert_L, not_elem_of_union, not_elem_of_singleton in Hp.
    done. }
  split; [done|]. split; [by rewrite Hlen, length_seq|]. split; [done|].
  split; [done|]. split; [|split; [|split]].
  - apply NoDup_cons. split; [|done].
    intros Hin. by apply Hout in Hin as [Hin _].
  - rewrite Hqm, Hst, lookup_total_insert_eq. unfold with_entrance. simpl.
    f_equal. by destruct (last rows) as [[|c r]|].
  - intros i j row p Hrow Hp.
    apply (Hcells i row i j p); [done| |done].
    apply lookup_lt_Some in Hrow. rewrite Hlen, length_seq in Hrow.
    by rewrite lookup_seq_lt.
  - intros p Hp. rewrite Hold.
    + rewrite Hst. apply lookup_total_insert_ne. by intros ->.
    + intros Hin. by apply Hout in Hin as [_ Hin].
    + by intros ->.
Qed.

(** ** The range of a throw *)

Lemma getClosestBee_loop_wider (w : World) (minDistance maxDistance
    maxDistance' : Z) (b : BeeId) (fuel : nat) :
  maxDistance <= maxDistance' ->
  forall (fuel' : nat) (p : option PlaceId) (dist : Z),
    (fuel <= fuel')%nat ->
    getClosestBee_loop w fuel p dist maxDistance minDistance = Some b ->
    getClosestBee_loop w fuel' p dist maxDistance' minDistance = Some b.
Proof.
  intros Hmax. induction fuel as [|fuel IH]; intros fuel' p dist Hf; [done|].
  destruct fuel' as [|fuel']; [lia|]. simpl.
  destruct p as [q|]; [|done].
  destruct (Z.leb_spec dist maxDistance); [|done].
  destruct (Z.leb_spec dist maxDistance'); [|lia].
  destruct (_ && _); [done|].
  apply IH. lia.
Qed.

(** X9.  A longer reach never changes the target: when
    [getClosestBee(maxDistance, minDistance)] finds a bee, it finds the
    same bee for every larger [maxDistance].  A thrower with the flying
    leaf (reach 5) hits the bee it would hit without (reach 3) whenever
    there is one. *)
Theorem getClosestBee_wider_range (w : World) (p : PlaceId)
    (minDistance maxDistance maxDistance' : Z) (b : BeeId) :
  maxDistance <= maxDistance' ->
  Place_getClosestBee w p maxDistance minDistance = Some b ->
  Place_getClosestBee w p maxDistance' minDistance = Some b.
Proof.
  intros Hmax. unfold Place_getClosestBee.
  apply getClosestBee_loop_wider; [done|lia].
Qed.

Lemma getClosestBee_wider_range_witness :
  Place_getClosestBee bee_at_entrance 1 5 0 = Some 0%nat.
Proof.
  apply (getClosestBee_wider_range bee_at_entrance 1 0 3 5 0).
  - apply Z.leb_le. reflexivity.
  - vm_compute. reflexivity.
Defined.

(** ** Deploying and removing *)

(** X10.  What [removeAnt] undoes of a successful [deployAnt] on the same
    place.  The food stays spent and the ant keeps its back-reference.
    The two slots of the place are as before the deployment when the ant
    is a guard or the place had no guard; when an ant other than a guard
    was deployed under a guard, it is the guard that goes and the new ant
    that stays. *)
Theorem deployAnt_removeAnt (w : World) (a : AntId) (p : PlaceId) :
  foodCost (getAntObj w a) <= food w ->
  ~ slot_taken w p a ->
  exists w1 w2 : World,
    AntColony_deployAnt a (Some p) w = Ok None w1
    /\ AntColony_removeAnt p w1 = Ok tt w2
    /\ food w2 = food w - foodCost (getAntObj w a)
    /\ getPlace w2 (AntRef a) = Some p
    /\ (isGuardAnt w a = true \/ guard (getPlaceObj w p) = None ->
        ant (getPlaceObj w2 p) = ant (getPlaceObj w p)
        /\ guard (getPlaceObj w2 p) = guard (getPlaceObj w p))
    /\ (forall g : AntId,
          isGuardAnt w a = false -> guard (getPlaceObj w p) = Some g ->
          ant (getPlaceObj w2 p) = Some a
          /\ guard (getPlaceObj w2 p) = None).
Proof.
  intros Hc Ht.
  destruct (Place_addAnt_free w p a Ht)
    as (w1 & Hadd & Hslots & Hpl & Hcost & Hfood).
  unfold AntColony_deployAnt, AntColony_removeAnt. run.
  destruct (Z.leb_spec (foodCost (getAntObj w a)) (food w)); [|lia].
  rewrite Hadd.
  set (w1' := setFood (food w1 - foodCost (getAntObj w1 a)) w1).
  assert (getPlaceObj w1' p = getPlaceObj w1 p) as Hp1 by done.
  exists w1'. unfold Place_removeAnt. rewrite Hp1.
  unfold slot_taken in Ht.
  destruct (isGuardAnt w a) eqn:Hg; destruct Hslots as [Hs1 Hs2].
  - assert (guard (getPlaceObj w p) = None) as Hno
      by (by destruct (guard (getPlaceObj w p)); [destruct Ht|]).
    rewrite Hs1. eexists. split; [reflexivity|]. split; [reflexivity|].
    split; [simpl; by rewrite Hcost, Hfood|]. split; [done|].
    store_simpl. rewrite !decide_True by done. simpl.
    split; [by rewrite Hno|]. done.
  - assert (ant (getPlaceObj w p) = None) as Hno
      by (by destruct (ant (getPlaceObj w p)); [destruct Ht|]).
    rewrite Hs2.
    destruct (guard (getPlaceObj w p)) as [g|] eqn:Hgd.
    + eexists. split; [reflexivity|]. split; [reflexivity|].
      split; [simpl; by rewrite Hcost, Hfood|]. split; [done|].
      store_simpl. rewrite !decide_True by done. simpl.
      split; [by intros [|]|]. done.
    + eexists. split; [reflexivity|]. split; [reflexivity|].
      split; [simpl; by rewrite Hcost, Hfood|]. split; [done|].
      store_simpl. rewrite !decide_True by done. simpl.
      split; [by rewrite Hno|]. done.
Qed.

Lemma deployAnt_removeAnt_witness :
  exists w1 w2 : World,
    AntColony_deployAnt 0 (Some 3%nat) thrower_in_hand = Ok None w1
    /\ AntColony_removeAnt 3 w1 = Ok tt w2
    /\ food w2 = food thrower_in_hand
                 - foodCost (getAntObj thrower_in_hand 0)
    /\ getPlace w2 (AntRef 0) = Some 3%nat
    /\ (isGuardAnt thrower_in_hand 0 = true
        \/ guard (getPlaceObj thrower_in_hand 3) = None ->
        ant (getPlaceObj w2 3) = ant (getPlaceObj thrower_in_hand 3)
        /\ guard (getPlaceObj w2 3) = guard (getPlaceObj thrower_in_hand 3))
    /\ (forall g : AntId,
          isGuardAnt thrower_in_hand 0 = false ->
          guard (getPlaceObj thrower_in_hand 3) = Some g ->
          ant (getPlaceObj w2 3) = Some 0%nat
          /\ guard (getPlaceObj w2 3) = None).
Proof.
  apply (deployAnt_removeAnt thrower_in_hand 0 3).
  - apply Z.leb_le. reflexivity.
  - vm_compute. intros H. by apply H.
Defined.

(** ** The hive: waves and invasions *)

Lemma Place_removeBee_colony (p : PlaceId) (b : BeeId) (w w' : World) :
  Place_removeBee p b w = Ok tt w' ->
  hive w' = hive w /\ beeEntrances w' = beeEntrances w.
Proof.
  unfold Place_removeBee.
  destruct (indexOf b (Place_getBees w p)); returned; done.
Qed.

Lemma Place_addBee_colony (p : PlaceId) (b : BeeId) (w w' : World) :
  Place_addBee p b w = Ok tt w' ->
  hive w' = hive w /\ beeEntrances w' = beeEntrances w.
Proof. unfold Place_addBee. returned. done. Qed.

(** Moving one bee leaves the others where they are. *)
Lemma moveBee_others (p q : PlaceId) (b : BeeId) (w w1 w2 : World) :
  Place_removeBee p b w = Ok tt w1 ->
  Place_addBee q b w1 = Ok tt w2 ->
  getPlace w2 (BeeRef b) = Some q
  /\ b ∈ Place_getBees w2 q
  /\ forall b' : BeeId,
       b' <> b ->
       getPlace w2 (BeeRef b') = getPlace w (BeeRef b')
       /\ forall p' : PlaceId,
            b' ∈ Place_getBees w2 p' <-> b' ∈ Place_getBees w p'.
Proof.
  intros H1 H2.
  destruct (Place_removeBee_view p b w) as (w1' & H1' & Hb1 & Hp1 & _).
  rewrite H1 in H1'. injection H1' as <-.
  destruct (Place_addBee_view q b w1) as (w2' & H2' & Hb2 & Hp2 & _).
  rewrite H2 in H2'. injection H2' as <-.
  split; [by rewrite Hp2, decide_True|]. split.
  { rewrite Hb2, decide_True by done. apply elem_of_app. right.
    by apply list_elem_of_singleton. }
  intros b' Hne. split.
  - rewrite Hp2, decide_False by done.
    rewrite Hp1, decide_False; [done|]. by intros [? _].
  - intros p'.
    assert (b' ∈ Place_getBees w1 p' <-> b' ∈ Place_getBees w p') as Hw1.
    { rewrite Hb1. destruct (decide (p = p')) as [<-|]; [|done].
      destruct (indexOf b (Place_getBees w p)) as [i|] eqn:Hi; [|done].
      apply indexOf_Some in Hi as [Hi _]. split.
      - apply elem_of_delete_inv.
      - by apply (elem_of_delete_other _ i b). }
    rewrite Hb2. destruct (decide (q = p')) as [<-|]; [|done].
    rewrite elem_of_app, list_elem_of_singleton, Hw1. tauto.
Qed.

Lemma invade_loop_spec (wave : list BeeId) :
  forall (picks : list nat) (w : World),
    resident_inv w ->
    NoDup wave ->
    (forall b, b ∈ wave -> getPlace w (BeeRef b) = Some (hive w)) ->
    length picks = length wave ->
    Forall (fun k => (k < length (beeEntrances w))%nat) picks ->
    exists w' : World,
      invade_loop wave picks w = Ok tt w'
      /\ resident_inv w'
      /\ hive w' = hive w
      /\ beeEntrances w' = beeEntrances w
      /\ (forall b, b ∉ wave ->
            getPlace w' (BeeRef b) = getPlace w (BeeRef b)
            /\ forall p, b ∈ Place_getBees w' p <-> b ∈ Place_getBees w p)
      /\ (forall (i : nat) (b : BeeId) (k : nat),
            wave !! i = Some b -> picks !! i = Some k ->
            exists e : PlaceId,
              beeEntrances w !! k = Some e
              /\ getPlace w' (BeeRef b) = Some e
              /\ b ∈ Place_getBees w' e).
Proof.
  induction wave as [|b wave IH]; intros picks w Hinv Hnd Hhive Hlen Hpicks.
  - exists w. simpl. do 5 (split; [done|]). by intros i b k Hi.
  - destruct picks as [|k picks]; [done|]. simpl in Hlen.
    apply NoDup_cons in Hnd as [Hb Hnd].
    apply Forall_cons in Hpicks as [Hk Hpicks].
    destruct (lookup_lt_is_Some_2 _ _ Hk) as [e He].
    simpl. run.
    destruct (Place_removeBee_view (hive w) b w) as (w1 & H1 & _).
    rewrite H1.
    destruct (Place_removeBee_colony _ _ _ _ H1) as [Hh1 He1].
    rewrite He1, He. run.
    destruct (Place_addBee_view e b w1) as (w2 & H2 & _).
    rewrite H2.
    destruct (Place_addBee_colony _ _ _ _ H2) as [Hh2 He2].
    destruct (moveBee_others _ _ _ _ _ _ H1 H2) as (Hbp & Hbin & Hothers).
    assert (forall b', b' ∈ wave -> b' <> b) as Hne by (by intros b' ? ->).
    destruct (IH picks w2) as (w' & Hrun & Hinv' & Hh' & He' & Hout & Hin).
    + apply (moveBee_residents (hive w) e b w w1 w2); try done.
      left. apply Hhive. by left.
    + done.
    + intros b' Hb'. destruct (Hothers b' (Hne b' Hb')) as [-> _].
      rewrite Hh2, Hh1. apply Hhive. by right.
    + lia.
    + by rewrite He2, He1.
    + exists w'. split; [done|]. split; [done|].
      split; [by rewrite Hh', Hh2|]. split; [by rewrite He', He2|]. split.
      * intros b0 [Hb0 Hw0]%not_elem_of_cons.
        destruct (Hout b0 Hw0) as [-> Hl].
        destruct (Hothers b0 Hb0) as [-> Hl2].
        split; [done|]. intros p. by rewrite Hl, Hl2.
      * intros [|i] b0 k0 Hi Hki; simpl in Hi, Hki.
        -- injection Hi as <-. injection Hki as <-.
           exists e. split; [done|].
           destruct (Hout b Hb) as [-> Hl]. split; [done|]. by apply Hl.
        -- destruct (Hin i b0 k0 Hi Hki) as (e0 & He0 & ?).
           exists e0. split; [|done]. by rewrite He2, He1 in He0.
Qed.

(** X11.  An invasion.  When the residence holds, the wave recorded for
    the turn consists of distinct bees that are in the hive, and every
    random pick indexes an entrance, [Hive.invade] returns the wave, the
    residence still holds, every bee of the wave stands in the entrance
    picked for it, and every other bee is where it was. *)
Theorem Hive_invade_moves_wave (h : Hive) (currentTurn : Z)
    (picks : list nat) (wave : list BeeId) (w : World) :
  resident_inv w ->
  waves h !! currentTurn = Some wave ->
  NoDup wave ->
  (forall b, b ∈ wave -> getPlace w (BeeRef b) = Some (hive w)) ->
  length picks = length wave ->
  Forall (fun k => (k < length (beeEntrances w))%nat) picks ->
  exists w' : World,
    Hive_invade h currentTurn picks w = Ok wave w'
    /\ resident_inv w'
    /\ (forall (i : nat) (b : BeeId) (k : nat),
          wave !! i = Some b -> picks !! i = Some k ->
          exists e : PlaceId,
            beeEntrances w !! k = Some e
            /\ getPlace w' (BeeRef b) = Some e
            /\ b ∈ Place_getBees w' e)
    /\ (forall b, b ∉ wave ->
          getPlace w' (BeeRef b) = getPlace w (BeeRef b)
          /\ forall p, b ∈ Place_getBees w' p <-> b ∈ Place_getBees w p).
Proof.
  intros Hinv Hw Hnd Hhive Hlen Hpicks.
  destruct (invade_loop_spec wave picks w Hinv Hnd Hhive Hlen Hpicks)
    as (w' & Hrun & Hinv' & _ & _ & Hout & Hin).
  exists w'. unfold Hive_invade. rewrite Hw. run. rewrite Hrun.
  done.
Qed.

Lemma Hive_invade_moves_wave_witness :
  exists w' : World,
    Hive_invade hive_wave 2 [0; 0]%nat board_wave = Ok [0; 1]%nat w'
    /\ resident_inv w'
    /\ (forall (i : nat) (b : BeeId) (k : nat),
          [0; 1]%nat !! i = Some b -> [0; 0]%nat !! i = Some k ->
          exists e : PlaceId,
            beeEntrances board_wave !! k = Some e
            /\ getPlace w' (BeeRef b) = Some e
            /\ b ∈ Place_getBees w' e)
    /\ (forall b, b ∉ [0; 1]%nat ->
          getPlace w' (BeeRef b) = getPlace board_wave (BeeRef b)
          /\ forall p, b ∈ Place_getBees w' p
                       <-> b ∈ Place_getBees board_wave p).
Proof.
  apply (Hive_invade_moves_wave hive_wave 2 [0; 0]%nat [0; 1]%nat board_wave).
  - apply resident_check_sound. vm_compute. reflexivity.
  - vm_compute. reflexivity.
  - apply (bool_decide_unpack _). vm_compute. reflexivity.
  - intros b Hb.
    apply elem_of_cons in Hb as [->|Hb]; [vm_compute; reflexivity|].
    apply list_elem_of_singleton in Hb as ->. vm_compute. reflexivity.
  - reflexivity.
  - repeat apply Forall_cons_2; [vm_compute; lia..|apply Forall_nil_2].
Defined.

(** The loop of [addWave]: the bees it creates are new and distinct, and
    go to the end of the hive's list in the order of their creation. *)
Lemma addWave_loop_spec (h : Hive) (numBees : nat) :
  forall (wave : list BeeId) (w : World),
    exists (news : list BeeId) (w' : World),
      addWave_loop h numBees wave w = Ok (wave ++ news) w'
      /\ length news = numBees
      /\ NoDup news
      /\ (forall b, b ∈ news ->
            (b ∉ dom (beeStore w))
            /\ getBeeObj w' b
               = mkBee (mkInsect (beeArmor h) (Some (hive w)))
                       (beeDamage h) None)
      /\ Place_getBees w' (hive w) = Place_getBees w (hive w) ++ news
      /\ (forall p, p <> hive w -> Place_getBees w' p = Place_getBees w p)
      /\ hive w' = hive w
      /\ (forall b, b ∈ dom (beeStore w) -> getBeeObj w' b = getBeeObj w b)
      /\ (forall b, b ∈ dom (beeStore w) -> b ∈ dom (beeStore w')).
Proof.
  induction numBees as [|n IH]; intros wave w.
  - exists [], w. simpl. rewrite !app_nil_r.
    do 2 (split; [done|]). split; [apply NoDup_nil_2|].
    split; [by intros b Hb%elem_of_nil|]. done.
  - simpl. run. unfold new_Bee, newBee, Place_addBee.
    set (b := fresh (dom (beeStore w))).
    assert (b ∉ dom (beeStore w)) as Hfresh by apply is_fresh.
    set (o := mkBee (mkInsect (beeArmor h) (Some (hive w))) (beeDamage h) None).
    set (w2 := setPlace _ _ _).
    assert (beeStore w2 = <[b := o]> (beeStore w)) as Hst.
    { unfold w2, setPlace, setInsect, getInsect, getBeeObj. simpl.
      rewrite lookup_total_insert_eq. simpl. apply insert_insert_eq. }
    assert (forall p, Place_getBees w2 p
                      = if decide (hive w = p)
                        then Place_getBees w (hive w) ++ [b]
                        else Place_getBees w p) as Hb2.
    { intros p. unfold w2. rewrite getBees_setPlace, getBees_setBees.
      by destruct (decide (hive w = p)). }
    destruct (IH (wave ++ [b]) w2)
      as (news & w' & Hrun & Hlen & Hnd & Hnew & Hl & Hothers & Hh & Hold
          & Hdom).
    change (hive w2) with (hive w) in *.
    assert (b ∈ dom (beeStore w2)) as Hbin.
    { rewrite Hst, dom_insert_L. apply elem_of_union_l.
      by apply elem_of_singleton. }
    assert (forall x, x ∈ dom (beeStore w) -> x ∈ dom (beeStore w2)) as Hsub.
    { intros x Hx. rewrite Hst, dom_insert_L. by apply elem_of_union_r. }
    exists (b :: news), w'.
    split; [by rewrite Hrun, <- app_assoc|].
    split; [simpl; by rewrite Hlen|]. split.
    { apply NoDup_cons. split; [|done].
      intros Hin. by apply Hnew in Hin as [Hin _]. }
    split.
    { intros x [->|Hx]%elem_of_cons.
      - split; [done|]. rewrite (Hold b Hbin).
        unfold getBeeObj. by rewrite Hst, lookup_total_insert_eq.
      - apply Hnew in Hx as [Hx Ho]. split; [|done].
        intros Hw. by apply Hx, Hsub. }
    split.
    { rewrite Hl, Hb2, decide_True by done. by rewrite <- app_assoc. }
    split.
    { intros p Hp. rewrite (Hothers p Hp), Hb2. by rewrite decide_False. }
    split; [done|]. split.
    { intros x Hx. rewrite (Hold x (Hsub x Hx)).
      unfold getBeeObj. rewrite Hst. apply lookup_total_insert_ne.
      by intros ->. }
    intros x Hx. by apply Hdom, Hsub.
Qed.

(** X12.  [Hive.addWave(attackTurn, numBees)] always returns.  It
    creates [numBees] new, distinct bees with the armor and damage of the
    hive, standing in the hive, lists them at the end of the hive's bees
    in the order of their creation, and records them as the wave of
    [attackTurn]; the bees that existed and the other places are as
    before. *)
Theorem Hive_addWave_creates (h : Hive) (attackTurn : Z) (numBees : nat)
    (w : World) :
  exists (wave : list BeeId) (w' : World),
    Hive_addWave h attackTurn numBees w
    = Ok (mkHive (beeArmor h) (beeDamage h) (<[attackTurn := wave]> (waves h)))
         w'
    /\ length wave = numBees
    /\ NoDup wave
    /\ (forall b, b ∈ wave ->
          (b ∉ dom (beeStore w))
          /\ getBeeObj w' b
             = mkBee (mkInsect (beeArmor h) (Some (hive w))) (beeDamage h) None)
    /\ Place_getBees w' (hive w) = Place_getBees w (hive w) ++ wave
    /\ (forall p, p <> hive w -> Place_getBees w' p = Place_getBees w p)
    /\ (forall b, b ∈ dom (beeStore w) -> getBeeObj w' b = getBeeObj w b).
Proof.
  destruct (addWave_loop_spec h numBees [] w)
    as (news & w' & Hrun & Hlen & Hnd & Hnew & Hl & Hothers & _ & Hold & _).
  exists news, w'. unfold Hive_addWave. run. rewrite Hrun. done.
Qed.

(** X13.  Two waves for the same turn.  After [addWave(t, n1)] and
    [addWave(t, n2)] the hive lists the [n1 + n2] new bees, but the wave
    of turn [t] holds the [n2] of the second call only and every other
    turn has the wave it had: the bees of the first call, which are new,
    are in the hive and in no wave of the record. *)
Theorem Hive_addWave_same_turn (h : Hive) (attackTurn : Z) (n1 n2 : nat)
    (w : World) :
  exists (wave1 wave2 : list BeeId) (w' : World),
    (h1 ← Hive_addWave h attackTurn n1 ; Hive_addWave h1 attackTurn n2) w
    = Ok (mkHive (beeArmor h) (beeDamage h) (<[attackTurn := wave2]> (waves h)))
         w'
    /\ length wave1 = n1
    /\ length wave2 = n2
    /\ NoDup (wave1 ++ wave2)
    /\ (forall b, b ∈ wave1 ++ wave2 -> b ∉ dom (beeStore w))
    /\ Place_getBees w' (hive w) = Place_getBees w (hive w) ++ wave1 ++ wave2.
Proof.
  destruct (addWave_loop_spec h n1 [] w)
    as (wave1 & w1 & Hrun1 & Hlen1 & Hnd1 & Hnew1 & Hl1 & _ & Hh1 & _ & Hdom1).
  set (h1 := mkHive (beeArmor h) (beeDamage h)
                    (<[attackTurn := wave1]> (waves h))).
  destruct (addWave_loop_spec h1 n2 [] w1)
    as (wave2 & w2 & Hrun2 & Hlen2 & Hnd2 & Hnew2 & Hl2 & _).
  exists wave1, wave2, w2. unfold Hive_addWave. run.
  rewrite Hrun1. simpl. fold h1. rewrite Hrun2. simpl.
  rewrite insert_insert_eq.
  split; [done|]. split; [done|]. split; [done|].
  assert (forall b, b ∈ wave1 -> b ∈ dom (beeStore w1)) as Hin1.
  { intros b Hb. apply Hnew1 in Hb as [_ Hb].
    unfold getBeeObj in Hb. apply elem_of_dom.
    destruct (beeStore w1 !! b) as [x|] eqn:Hx; [done|].
    rewrite lookup_total_alt, Hx in Hb. done. }
  split; [|split].
  - apply NoDup_app. split; [done|]. split; [|done].
    intros b Hb1 Hb2. apply Hnew2 in Hb2 as [Hb2 _]. by apply Hb2, Hin1.
  - intros b [Hb|Hb]%elem_of_app.
    + by apply Hnew1 in Hb as [Hb _].
    + apply Hnew2 in Hb as [Hb _]. intros Hw. by apply Hb, Hdom1.
  - rewrite Hh1 in Hl2. by rewrite Hl2, Hl1, <- app_assoc.
Qed.

(** ** Coordinates that name a cell *)

Lemma pretty_N_char_digit (d : N) :
  (d < 10)%N ->
  is_digit (pretty_N_char d) = true
  /\ (N_of_ascii (pretty_N_char d) - 48 = d)%N
  /\ (d <> 0%N -> pretty_N_char d <> "0"%char).
Proof.
  intros Hd.
  assert (d = 0 \/ d = 1 \/ d = 2 \/ d = 3 \/ d = 4 \/ d = 5 \/ d = 6
          \/ d = 7 \/ d = 8 \/ d = 9)%N as Hcases by lia.
  repeat destruct Hcases as [->|Hcases]; try subst d;
    (split; [reflexivity|split; [reflexivity|done]]).
Qed.

(** Reading back the digits that [pretty] writes. *)
Lemma digits_value_pretty_N_go (x : N) :
  forall acc : N,
    exists v : N,
      (acc = 0%N -> v = x)
      /\ forall s : string,
           digits_value (pretty_N_go x s) acc = digits_value s v.
Proof.
  induction (N.lt_wf_0 x) as [x _ IH]. intros acc.
  destruct (decide (x = 0%N)) as [->|Hx].
  - exists acc. split; [done|]. intros s. by rewrite pretty_N_go_0.
  - assert (0 < x)%N as Hpos by lia.
    destruct (IH (x `div` 10)%N (N.div_lt x 10 Hpos eq_refl) acc)
      as (v' & Hv' & Hs').
    destruct (pretty_N_char_digit (x `mod` 10)%N) as (Hd & Hn & _).
    { by apply N.mod_lt. }
    exists (10 * v' + x `mod` 10)%N. split.
    + intros ->. rewrite Hv' by done.
      by rewrite <- N.div_mod.
    + intros s. rewrite pretty_N_go_step by done. rewrite Hs'. simpl.
      by rewrite Hd, Hn.
Qed.

Lemma pretty_N_go_head (x : N) :
  forall s : string,
    (0 < x)%N ->
    exists (c : ascii) (rest : string),
      pretty_N_go x s = String c rest /\ c <> "0"%char.
Proof.
  induction (N.lt_wf_0 x) as [x _ IH]. intros s Hpos.
  rewrite pretty_N_go_step by done.
  destruct (decide (x `div` 10 = 0)%N) as [Hz|Hz].
  - rewrite Hz, pretty_N_go_0. eexists _, _. split; [reflexivity|].
    destruct (pretty_N_char_digit (x `mod` 10)%N) as (_ & _ & Hne).
    { by apply N.mod_lt. }
    apply Hne. intros Hm.
    pose proof (N.div_mod x 10 ltac:(done)). lia.
  - apply IH; [by apply N.div_lt|by apply N.neq_0_lt_0].
Qed.

Lemma array_index_digits (c : ascii) (rest : string) :
  c <> "0"%char ->
  array_index (String c rest) = N.to_nat <$> digits_value (String c rest) 0%N.
Proof.
  intros Hc.
  destruct c as [[] [] [] [] [] [] [] []]; try reflexivity.
  by destruct Hc.
Qed.

Lemma array_index_pretty (n : nat) : array_index (pretty n) = Some n.
Proof.
  unfold pretty, pretty_nat, pretty, pretty_N.
  destruct (decide (N.of_nat n = 0%N)) as [Hz|Hz].
  - assert (n = 0%nat) as -> by lia. reflexivity.
  - destruct (pretty_N_go_head (N.of_nat n) EmptyString) as (c & rest & Hs & Hc);
      [lia|].
    destruct (digits_value_pretty_N_go (N.of_nat n) 0%N) as (v & Hv & Hd).
    specialize (Hd EmptyString). rewrite Hs in Hd.
    rewrite Hs, (array_index_digits c rest Hc), Hd. simpl.
    rewrite Hv by done. by rewrite Nat2N.id.
Qed.

Lemma is_digit_not_comma (c : ascii) :
  is_digit c = true -> Ascii.eqb c "," = false.
Proof.
  intros Hd. destruct (Ascii.eqb_spec c ",") as [->|]; [done|done].
Qed.

Lemma split_digits (s : string) :
  forall acc v : N,
    digits_value s acc = Some v ->
    split "," s = [s]
    /\ forall s2 : string,
         split "," (s +:+ String "," s2) = s :: split "," s2.
Proof.
  induction s as [|c s IH]; intros acc v; simpl.
  - done.
  - destruct (is_digit c) eqn:Hd; [|done]. intros Hv.
    destruct (IH _ _ Hv) as [H1 H2].
    rewrite (is_digit_not_comma c Hd), H1. split; [done|].
    intros s2. by rewrite H2.
Qed.

Lemma digits_value_pretty (n : nat) :
  exists v : N, digits_value (pretty n) 0%N = Some v.
Proof.
  unfold pretty, pretty_nat, pretty, pretty_N.
  destruct (decide (N.of_nat n = 0%N)); [by eexists|].
  destruct (digits_value_pretty_N_go (N.of_nat n) 0%N) as (v & _ & Hd).
  exists v. by rewrite Hd.
Qed.

Lemma coordinate_cell_coordinate (w : World) (i j : nat)
    (row : list PlaceId) (p : PlaceId) :
  places w !! i = Some row -> row !! j = Some p ->
  coordinate_cell w (coordinate i j) = Some p.
Proof.
  intros Hrow Hp. unfold coordinate_cell, coordinate.
  destruct (digits_value_pretty i) as (vi & Hi).
  destruct (digits_value_pretty j) as (vj & Hj).
  destruct (split_digits _ _ _ Hi) as [_ Hsi].
  destruct (split_digits _ _ _ Hj) as [Hsj _].
  change ("," +:+ pretty j) with (String "," (pretty j)).
  rewrite Hsi, Hsj, !array_index_pretty. simpl.
  rewrite Hrow. simpl. done.
Qed.

Lemma AntColony_deployAnt_returns (a : AntId) (p : PlaceId) (w : World) :
  exists (r : option string) (w' : World),
    AntColony_deployAnt a (Some p) w = Ok r w'
    /\ r <> Some "illegal location".
Proof.
  unfold AntColony_deployAnt, Place_addAnt. run.
  destruct (_ <=? _); [|by eexists _, _].
  destruct (isGuardAnt w a).
  - destruct (guard (getPlaceObj w p)); by eexists _, _.
  - destruct (ant (getPlaceObj w p)); by eexists _, _.
Qed.

Lemma AntColony_applyBoost_returns (om : string -> bool) (b : string)
    (p : PlaceId) (w : World) :
  exists (r : option string) (w' : World),
    AntColony_applyBoost om b (Some p) w = Ok r w'
    /\ r <> Some "illegal location".
Proof.
  rewrite applyBoost_cases.
  destruct (boost_missing om w b); [by eexists _, _|].
  destruct (Place_getAnt w p); by eexists _, _.
Qed.

(** X14.  The coordinate ["i,j"] of a cell of the grid, written in
    decimal, is never answered with ["illegal location"]: [remove]
    succeeds and runs [Place.removeAnt] on the cell, and [boost] and
    [deploy] (for a known type) are [AntColony.applyBoost] and
    [AntColony.deployAnt] on the cell, with their own answers. *)
Theorem coordinates_reach_cells (am om : string -> bool) (w : World)
    (i j : nat) (row : list PlaceId) (p : PlaceId) :
  places w !! i = Some row ->
  row !! j = Some p ->
  AntGame_removeAnt am (coordinate i j) w
  = Ok None (state_of (Place_removeAnt p w))
  /\ (forall b : string,
        AntGame_boostAnt am om b (coordinate i j) w
        = AntColony_applyBoost om b (Some p) w
        /\ result_of (AntGame_boostAnt am om b (coordinate i j) w)
           <> Some (Some "illegal location"))
  /\ (forall (t : string) (construct : M AntId),
        antConstructor t = Some construct ->
        AntGame_deployAnt am t (coordinate i j) w
        = (a ← construct ; AntColony_deployAnt a (Some p)) w
        /\ result_of (AntGame_deployAnt am t (coordinate i j) w)
           <> Some (Some "illegal location")).
Proof.
  intros Hrow Hp.
  pose proof (coordinate_cell_coordinate w i j row p Hrow Hp) as Hcell.
  split; [|split].
  - unfold AntGame_removeAnt, try_catch. run.
    rewrite (lookupPlace_cell am w _ p Hcell). run.
    unfold Place_removeAnt.
    by destruct (guard (getPlaceObj w p)).
  - intros b. unfold AntGame_boostAnt, try_catch. run.
    rewrite (lookupPlace_cell am w _ p Hcell).
    destruct (AntColony_applyBoost_returns om b p w) as (r & w' & Hr & Hne).
    rewrite Hr. split; [done|]. simpl. congruence.
  - intros t construct Ht. unfold AntGame_deployAnt. rewrite Ht.
    pose proof (antConstructor_new t w) as Hc. rewrite Ht in Hc.
    destruct (foodCost_of_type t); [|done].
    destruct Hc as (a & w1 & Hc & _ & Hpl & _).
    unfold try_catch. run. rewrite Hc.
    assert (coordinate_cell w1 (coordinate i j) = Some p) as Hcell1.
    { apply (coordinate_cell_coordinate w1 i j row p); [|done].
      by rewrite Hpl. }
    rewrite (lookupPlace_cell am w1 _ p Hcell1).
    destruct (AntColony_deployAnt_returns a p w1) as (r & w' & Hr & Hne).
    rewrite Hr. split; [done|]. simpl. congruence.
Qed.

Lemma coordinates_reach_cells_witness :
  AntGame_removeAnt some_array_members (coordinate 0 2) thrower_board
  = Ok None (state_of (Place_removeAnt 3 thrower_board)).
Proof.
  destruct (coordinates_reach_cells some_array_members some_object_members
              thrower_board 0 2 [1; 2; 3]%nat 3%nat)
    as [H _]; [vm_compute; reflexivity..|exact H].
Defined.

(** ** A win with a bee in a stomach *)

Lemma setTurnsEating_colony (e : AntId) (t : Z) (w : World) :
  places (setTurnsEating e t w) = places w
  /\ queenPlace (setTurnsEating e t w) = queenPlace w
  /\ hive (setTurnsEating e t w) = hive w
  /\ forall b : BeeId,
       getArmor (setTurnsEating e t w) (BeeRef b) = getArmor w (BeeRef b).
Proof. unfold setTurnsEating. by destruct (variant (getAntObj w e)). Qed.

(** X15.  When an idle eater swallows the only bee left (its own cell
    holds that bee alone, and the other cells of the grid, the queen's
    place and the hive hold none), [gameIsWon] answers [true] right after
    the eater's turn, although the bee is in the stomach, unharmed. *)
Theorem eater_swallows_last_bee (e : AntId) (st q : PlaceId) (b : BeeId)
    (w : World) :
  variant (getAntObj w e) = EaterAnt 0 st ->
  getPlace w (AntRef e) = Some q ->
  Place_getBees w q = [b] ->
  (forall (row : list PlaceId) (p : PlaceId),
      row ∈ places w -> p ∈ row ->
      p <> st /\ (p <> q -> Place_getBees w p = [])) ->
  Place_getBees w (queenPlace w) = [] ->
  Place_getBees w (hive w) = [] ->
  st <> queenPlace w ->
  st <> hive w ->
  exists w' : World,
    EaterAnt_act e w = Ok tt w'
    /\ AntGame_gameIsWon w' = Some true
    /\ b ∈ Place_getBees w' st
    /\ getArmor w' (BeeRef b) = getArmor w (BeeRef b).
Proof.
  intros Hv Hq Hb Hgrid Hqueen Hhive Hsq Hsh.
  rewrite (EaterAnt_act_captures e st q b [] w Hv Hq Hb).
  eexists. split; [reflexivity|].
  set (w1 := setPlace (BeeRef b) None (setBees q [] w)).
  set (w' := setTurnsEating e 1 _).
  destruct (setTurnsEating_colony e 1 (state_of (Place_addBee st b w1)))
    as (Hpl & Hqp & Hhv & Harm).
  fold w' in Hpl, Hqp, Hhv, Harm.
  change (places (state_of (Place_addBee st b w1))) with (places w) in Hpl.
  change (queenPlace (state_of (Place_addBee st b w1)))
    with (queenPlace w) in Hqp.
  change (hive (state_of (Place_addBee st b w1))) with (hive w) in Hhv.
  assert (forall p, Place_getBees w' p
                    = if decide (st = p) then Place_getBees w1 st ++ [b]
                      else if decide (q = p) then []
                           else Place_getBees w p) as Hbees.
  { intros p. unfold w'. rewrite getBees_setTurnsEating.
    change (state_of (Place_addBee st b w1))
      with (setPlace (BeeRef b) (Some st)
              (setBees st (Place_getBees w1 st ++ [b]) w1)).
    rewrite getBees_setPlace, getBees_setBees.
    destruct (decide (st = p)); [done|].
    unfold w1. by rewrite getBees_setPlace, getBees_setBees. }
  split; [|split].
  - unfold AntGame_gameIsWon, AntColony_queenHasBees.
    assert (AntColony_getAllBees w' = []) as ->.
    { apply getAllBees_nil_iff. unfold grid_clear. rewrite Hpl.
      apply Forall_forall. intros row Hrow.
      apply Forall_forall. intros p Hp.
      destruct (Hgrid row p Hrow Hp) as [Hps Hpq].
      rewrite Hbees, decide_False by done.
      destruct (decide (q = p)); [done|]. by apply Hpq. }
    rewrite Hqp, Hhv, !Hbees, Hqueen, Hhive.
    destruct (decide (st = queenPlace w)); [done|].
    destruct (decide (st = hive w)); [done|].
    by destruct (decide (q = queenPlace w)), (decide (q = hive w)).
  - rewrite Hbees, decide_True by done.
    apply elem_of_app. right. by apply list_elem_of_singleton.
  - rewrite Harm.
    change (state_of (Place_addBee st b w1))
      with (setPlace (BeeRef b) (Some st)
              (setBees st (Place_getBees w1 st ++ [b]) w1)).
    rewrite getArmor_bee_setPlace.
    change (getArmor (setBees st (Place_getBees w1 st ++ [b]) w1) (BeeRef b))
      with (getArmor w1 (BeeRef b)).
    unfold w1. by rewrite getArmor_bee_setPlace.
Qed.

Lemma eater_swallows_last_bee_witness :
  exists w' : World,
    EaterAnt_act 0 eater_meets_bee = Ok tt w'
    /\ AntGame_gameIsWon w' = Some true
    /\ 0%nat ∈ Place_getBees w' 5
    /\ getArmor w' (BeeRef 0) = getArmor eater_meets_bee (BeeRef 0).
Proof.
  apply (eater_swallows_last_bee 0 5 3 0 eater_meets_bee);
    try (vm_compute; reflexivity); try (vm_compute; discriminate).
  assert (places eater_meets_bee = [[1; 2; 3]%nat]) as ->
    by (vm_compute; reflexivity).
  intros row p Hrow%list_elem_of_singleton Hp. subst row.
  repeat (apply elem_of_cons in Hp as [->|Hp]);
    [split; [discriminate|intros _; vm_compute; reflexivity]..
    |split; [discriminate|by intros H]
    |by apply elem_of_nil in Hp].
Defined.

(** ** The bug spray *)

Lemma sum_list_with_agree {A : Type} (f g : A -> nat) (l : list A) :
  (forall x, x ∈ l -> f x = g x) ->
  sum_list_with f l = sum_list_with g l.
Proof.
  induction l as [|x l IH]; intros H; simpl; [done|].
  rewrite (H x) by (by left). rewrite IH; [done|].
  intros y Hy. apply H. by right.
Qed.

(** One round of the loop on the first bee of the place: the work
    decreases, the residence holds, and nothing but that bee and the list
    of the place changes. *)
Lemma bugSpray_step (q : PlaceId) (b0 : BeeId) (l : list BeeId) (w : World) :
  resident_inv w ->
  Place_getBees w q = b0 :: l ->
  exists (t : bool) (w1 : World),
    Insect_reduceArmor (BeeRef b0) 10 w = Ok t w1
    /\ resident_inv w1
    /\ (spray_work w1 q < spray_work w q)%nat
    /\ antStore w1 = antStore w
    /\ (Place_getBees w1 q = b0 :: l \/ Place_getBees w1 q = l)
    /\ (forall p, p <> q -> Place_getBees w1 p = Place_getBees w p)
    /\ (forall b, b <> b0 -> getBeeObj w1 b = getBeeObj w b)
    /\ (b0 ∉ Place_getBees w1 q ->
        getPlace w1 (BeeRef b0) = None /\ getArmor w1 (BeeRef b0) <= 0).
Proof.
  intros Hinv Hb.
  assert (getPlace w (BeeRef b0) = Some q) as Hq.
  { apply Hinv. rewrite Hb. by left. }
  assert (b0 ∉ l) as Hnl.
  { destruct Hinv as [_ Hnd]. specialize (Hnd q). rewrite Hb in Hnd.
    by apply NoDup_cons in Hnd as [? _]. }
  set (v := getArmor w (BeeRef b0) - 10).
  set (w0 := setArmor (BeeRef b0) v w).
  assert (forall b, b <> b0 -> getBeeObj w0 b = getBeeObj w b) as Hobj0.
  { intros b Hne. unfold w0. store_simpl. by rewrite decide_False. }
  assert (forall b, b ∈ l ->
            S (Z.to_nat (getArmor w0 (BeeRef b)))
            = S (Z.to_nat (getArmor w (BeeRef b)))) as Hl.
  { intros b Hin. unfold w0.
    rewrite getArmor_setArmor_other; [done|]. intros [= <-]. done. }
  assert (Place_getBees w0 q = b0 :: l) as Hb0
    by (unfold w0; by rewrite getBees_setArmor).
  destruct (Z.lt_ge_cases 0 v) as [Hs|Hs].
  - exists false, w0.
    split; [by apply Insect_reduceArmor_survives|].
    split; [apply (same_residence_inv w); [apply same_residence_setArmor|done]|].
    split.
    { unfold spray_work. rewrite Hb0, Hb. simpl.
      rewrite (sum_list_with_agree _ _ l Hl).
      unfold w0. rewrite getArmor_setArmor. unfold v in *. lia. }
    split; [done|]. split; [by left|].
    split; [intros p _; unfold w0; apply getBees_setArmor|].
    split; [done|].
    intros Hno. destruct Hno. rewrite Hb0. by left.
  - set (w1 := setPlace (BeeRef b0) None (setBees q l w0)).
    assert (Place_removeBee q b0 w0 = Ok tt w1) as Hr
      by apply (Place_removeBee_head _ _ _ _ Hb0).
    assert (Insect_reduceArmor (BeeRef b0) 10 w = Ok true w1) as Hrun.
    { rewrite (Insect_reduceArmor_expires _ _ _ q) by done.
      fold v w0. unfold Place_removeInsect. by rewrite Hr. }
    assert (forall p, Place_getBees w1 p
                      = if decide (q = p) then l else Place_getBees w p)
      as Hb1.
    { intros p. unfold w1. rewrite getBees_setPlace, getBees_setBees.
      destruct (decide (q = p)); [done|]. unfold w0. apply getBees_setArmor. }
    exists true, w1. split; [done|].
    split; [by apply (Insect_reduceArmor_bee_residents b0 10 w w1 true)|].
    split.
    { unfold spray_work. rewrite Hb1, decide_True, Hb by done. simpl.
      rewrite (sum_list_with_agree
                 (fun b => S (Z.to_nat (getArmor w1 (BeeRef b))))
                 (fun b => S (Z.to_nat (getArmor w (BeeRef b)))) l); [lia|].
      intros b Hin. unfold w1. rewrite getArmor_bee_setPlace.
      by apply Hl. }
    split; [done|]. split; [right; by rewrite Hb1, decide_True|].
    split; [intros p Hp; by rewrite Hb1, decide_False|].
    split.
    { intros b Hne. unfold w1. store_simpl. rewrite decide_False by done.
      by apply Hobj0. }
    intros _. split.
    + unfold w1. by rewrite getPlace_bee_setPlace, decide_True.
    + unfold w1. rewrite getArmor_bee_setPlace.
      change (getArmor (setBees q l w0) (BeeRef b0))
        with (getArmor w0 (BeeRef b0)).
      unfold w0. rewrite getArmor_setArmor. lia.
Qed.

Lemma bugSpray_loop_spec (a : AntId) (q : PlaceId) (n : nat) :
  forall w : World,
    resident_inv w ->
    getPlace w (AntRef a) = Some q ->
    (spray_work w q <= n)%nat ->
    exists w' : World,
      (forall fuel : nat,
          (n <= fuel)%nat ->
          bugSpray_loop fuel a (Place_getBees w q !! 0%nat) w = Ok true w')
      /\ Place_getBees w' q = []
      /\ resident_inv w'
      /\ antStore w' = antStore w
      /\ (forall p, p <> q -> Place_getBees w' p = Place_getBees w p)
      /\ (forall b, b ∉ Place_getBees w q -> getBeeObj w' b = getBeeObj w b)
      /\ (forall b, b ∈ Place_getBees w q ->
            getPlace w' (BeeRef b) = None /\ getArmor w' (BeeRef b) <= 0).
Proof.
  induction n as [|n IH]; intros w Hinv Hq Hwork;
    (assert (Place_getBees w q = []
             \/ exists b0 l, Place_getBees w q = b0 :: l)
       as [Hb|(b0 & l & Hb)] by (destruct (Place_getBees w q); eauto)).
  - exists w. rewrite Hb.
    split; [by intros [|fuel] _|]. do 5 (split; [done|]).
    by intros b Hin%elem_of_nil.
  - unfold spray_work in Hwork. rewrite Hb in Hwork. simpl in Hwork. lia.
  - exists w. rewrite Hb.
    split; [by intros [|fuel] _|]. do 5 (split; [done|]).
    by intros b Hin%elem_of_nil.
  - destruct (bugSpray_step q b0 l w Hinv Hb)
      as (t & w1 & Hrun & Hinv1 & Hless & Hant & Hlist & Hothers & Hobj
          & Hgone).
    assert (getPlace w1 (AntRef a) = Some q) as Hq1.
    { rewrite <- Hq. unfold getPlace, getInsect, getAntObj. by rewrite Hant. }
    destruct (IH w1 Hinv1 Hq1 ltac:(lia))
      as (w' & Hloop & Hnil & Hinv' & Hant' & Hothers' & Hobj' & Hall').
    exists w'. rewrite Hb. split.
    { intros [|fuel] Hfuel; [lia|]. simpl. run. rewrite Hrun, Hq1. run.
      rewrite getClosestBee_same_cell. apply Hloop. lia. }
    split; [done|]. split; [done|].
    split; [by rewrite Hant'|]. split.
    { intros p Hp. by rewrite Hothers', Hothers. }
    assert (forall b, b ∈ Place_getBees w1 q -> b ∈ b0 :: l) as Hsub.
    { intros b Hin. destruct Hlist as [Hl|Hl]; rewrite Hl in Hin;
        [done|by right]. }
    split.
    { intros b Hnot.
      rewrite Hobj'; [|by intros Hin%Hsub].
      apply Hobj. intros ->. apply Hnot. by left. }
    intros b Hin.
    destruct (decide (b ∈ Place_getBees w1 q)) as [Hin1|Hout1];
      [by apply Hall'|].
    assert (b = b0) as ->.
    { destruct Hlist as [Hl|Hl]; rewrite Hl in Hout1; [done|].
      by apply elem_of_cons in Hin as [?|?]. }
    destruct (Hgone Hout1) as [Hp Ha].
    unfold getPlace, getArmor, getInsect in *.
    by rewrite (Hobj' b0 Hout1).
Qed.

(** X16.  The bug spray ends.  For a sprayer that stands in a place, in a
    state where the residence holds, the loop of [ThrowerAnt.act] makes
    at most [spray_work] rounds: with that much fuel or more the turn
    returns.  Afterwards the place lists no bee; every bee it listed has
    no armor left and no back-reference; the other places list the bees
    they listed; the sprayer has taken its own hit of 10; and the
    residence holds. *)
Theorem bugSpray_clears_place (a : AntId) (q : PlaceId) (w : World) :
  resident_inv w ->
  boost (getAntObj w a) = Some "BugSpray" ->
  getPlace w (AntRef a) = Some q ->
  exists w' : World,
    (forall fuel : nat,
        (spray_work w q <= fuel)%nat -> ThrowerAnt_act fuel a w = Ok true w')
    /\ Place_getBees w' q = []
    /\ resident_inv w'
    /\ (forall b, b ∈ Place_getBees w q ->
          getPlace w' (BeeRef b) = None /\ getArmor w' (BeeRef b) <= 0)
    /\ (forall p, p <> q -> Place_getBees w' p = Place_getBees w p)
    /\ getArmor w' (AntRef a) = getArmor w (AntRef a) - 10.
Proof.
  intros Hinv Hboost Hq.
  destruct (bugSpray_loop_spec a q (spray_work w q) w Hinv Hq (le_n _))
    as (w1 & Hloop & Hnil & Hinv1 & Hant & Hothers & Hobj & Hall).
  assert (getPlace w1 (AntRef a) = Some q) as Hq1.
  { rewrite <- Hq. unfold getPlace, getInsect, getAntObj. by rewrite Hant. }
  assert (getArmor w1 (AntRef a) = getArmor w (AntRef a)) as Ha1.
  { unfold getArmor, getInsect, getAntObj. by rewrite Hant. }
  assert (exists t w', Insect_reduceArmor (AntRef a) 10 w1 = Ok t w'
                       /\ getArmor w' (AntRef a) = getArmor w1 (AntRef a) - 10
                       /\ forall b, getBeeObj w' b = getBeeObj w1 b)
    as (t & w' & Hhit & Ha' & Hbees').
  { destruct (Z.lt_ge_cases 0 (getArmor w1 (AntRef a) - 10)) as [Hs|Hs].
    - eexists _, _. split; [by apply Insect_reduceArmor_survives|].
      split; [apply getArmor_setArmor|done].
    - rewrite (Insect_reduceArmor_expires _ _ _ q) by done.
      unfold Place_removeInsect, Place_removeAnt. run.
      set (w0 := setArmor (AntRef a) (getArmor w1 (AntRef a) - 10) w1).
      assert (getArmor w0 (AntRef a) = getArmor w1 (AntRef a) - 10) as Hw0
        by apply getArmor_setArmor.
      destruct (guard (getPlaceObj w0 q)); eexists _, _;
        (split; [reflexivity|]); by split. }
  pose proof (Insect_reduceArmor_ant_same_residence a 10 w1 w' t Hhit)
    as [Hsame _].
  exists w'. split; [|split; [|split; [|split; [|split]]]].
  - intros fuel Hfuel. unfold ThrowerAnt_act. run. rewrite Hq. run.
    rewrite decide_False by (by rewrite Hboost; intros H; apply H).
    rewrite getClosestBee_same_cell, (Hloop fuel Hfuel). run.
    by rewrite Hhit.
  - by rewrite Hsame.
  - apply (same_residence_inv w1); [|done].
    by apply (Insect_reduceArmor_ant_same_residence a 10 w1 w' t).
  - intros b Hb. destruct (Hall b Hb) as [Hp Ha].
    unfold getPlace, getArmor, getInsect in *. by rewrite Hbees'.
  - intros p Hp. by rewrite Hsame, Hothers.
  - by rewrite Ha', Ha1.
Qed.

Lemma bugSpray_clears_place_witness :
  exists w' : World,
    (forall fuel : nat,
        (spray_work (with_bee 3 1 3 guarded_sprayer) 3 <= fuel)%nat ->
        ThrowerAnt_act fuel 0 (with_bee 3 1 3 guarded_sprayer) = Ok true w')
    /\ Place_getBees w' 3 = []
    /\ resident_inv w'
    /\ (forall b, b ∈ Place_getBees (with_bee 3 1 3 guarded_sprayer) 3 ->
          getPlace w' (BeeRef b) = None /\ getArmor w' (BeeRef b) <= 0)
    /\ (forall p, p <> 3%nat ->
          Place_getBees w' p
          = Place_getBees (with_bee 3 1 3 guarded_sprayer) p)
    /\ getArmor w' (AntRef 0)
       = getArmor (with_bee 3 1 3 guarded_sprayer) (AntRef 0) - 10.
Proof.
  apply (bugSpray_clears_place 0 3 (with_bee 3 1 3 guarded_sprayer)).
  - apply resident_check_sound. vm_compute. reflexivity.
  - vm_compute. reflexivity.
  - vm_compute. reflexivity.
Defined.
